(** * ChatServer: chat client (Gun and Firebase variants) and WebRTC mesh calls

    A shallow embedding of the browser application:
    - [JS]       : the fragment of JavaScript string semantics the code uses
                   (UTF-16 code units, relational comparison, [trim],
                   the character class of the username filter, [slice]);
    - [Gun]      : app.js, Gun variant (login, rename, presence with TTL);
    - [Firebase] : app.js, Firebase variant (login and rename against the
                   account directory);
    - [Video]    : video.js (full-mesh call orchestration).

    Handlers are state transformers.  Values produced by the platform
    (clock readings, media streams, session descriptions, digests) are
    arguments of the handler that consumes them. *)

From Stdlib Require Import ZArith NArith Lia Bool List Ascii String Sorted.
From stdpp Require Import base option list gmap.
Import ListNotations.

Local Open Scope N_scope.

(* ===================================================================== *)
(** ** JavaScript strings *)
(* ===================================================================== *)

Module JS.

(** A JavaScript string is a finite sequence of UTF-16 code units. *)
Abbreviation jsstring := (list N).

(** Literals of the source, written as ASCII text. *)
Definition lit (s : string) : jsstring :=
  List.map N_of_ascii (list_ascii_of_string s).
#[global] Arguments lit : simpl never.

(** [!s] on a string: only the empty string is falsy. *)
Definition truthy (s : jsstring) : bool :=
  match s with [] => false | _ :: _ => true end.

(** [x < y] on strings (IsLessThan): a proper prefix is smaller, otherwise
    the first differing code unit decides. *)
Fixpoint str_lt (x y : jsstring) : bool :=
  match x, y with
  | _, [] => false
  | [], _ :: _ => true
  | a :: x', b :: y' =>
      if a <? b then true
      else if b <? a then false
      else str_lt x' y'
  end.

(** [x > y] is evaluated as [y < x]. *)
Definition str_gt (x y : jsstring) : bool := str_lt y x.

(** White space and line terminators removed by [String.prototype.trim]. *)
Definition is_ws (c : N) : bool :=
  existsb (N.eqb c)
    [9; 10; 11; 12; 13; 32; 160; 5760; 8232; 8233; 8239; 8287; 12288; 65279]
  || ((8192 <=? c) && (c <=? 8202)).

Fixpoint trimStart (s : jsstring) : jsstring :=
  match s with
  | [] => []
  | c :: s' => if is_ws c then trimStart s' else s
  end.

Definition trimEnd (s : jsstring) : jsstring := rev (trimStart (rev s)).

Definition trim (s : jsstring) : jsstring := trimEnd (trimStart s).

(** [\w] without the unicode flag: [A-Za-z0-9_]. *)
Definition is_word (c : N) : bool :=
  ((65 <=? c) && (c <=? 90)) || ((97 <=? c) && (c <=? 122))
  || ((48 <=? c) && (c <=? 57)) || (c =? 95).

(** The class [[\w\-. ]]. *)
Definition name_char (c : N) : bool :=
  is_word c || (c =? 45) || (c =? 46) || (c =? 32).

(** [s.replace(/[^\w\-. ]/g, '')]: every code unit outside the class is
    dropped. *)
Definition strip_name (s : jsstring) : jsstring := List.filter name_char s.

(** [s.slice(0, n)]. *)
Definition slice0 (n : nat) (s : jsstring) : jsstring := firstn n s.

(** [raw.trim().replace(/[^\w\-. ]/g, '').slice(0, 24)], the expression
    shared by both [doLogin]s and both rename handlers. *)
Definition sanitizeName (raw : jsstring) : jsstring :=
  slice0 24 (strip_name (trim raw)).

(** A name is acceptable when it is not empty, has at most 24 code units
    and consists of word characters, hyphens, dots and spaces. *)
Definition validName (n : jsstring) : Prop :=
  n <> [] /\ (length n <= 24)%nat /\ List.Forall (fun c => name_char c = true) n.

(** How a handler fed with [raw] may move the session username from [old]
    to [new]: it keeps it, or it installs the sanitized input, which is then
    an acceptable name; it keeps it when the input sanitizes to nothing. *)
Definition accepts (old new raw : jsstring) : Prop :=
  (new = old \/ (new = sanitizeName raw /\ validName new))
  /\ (sanitizeName raw = [] -> new = old).

(** [x === y] on strings. *)
Fixpoint str_eqb (x y : jsstring) : bool :=
  match x, y with
  | [], [] => true
  | a :: x', b :: y' => (a =? b) && str_eqb x' y'
  | _, _ => false
  end.

(** *** Plain objects used as maps

    The code keeps several tables in plain objects ([{}]) indexed by
    names that come from outside.  Such an object is given here by the
    finite map of its own properties; what it inherits is below. *)

(** The property names a plain object inherits from [Object.prototype].
    Read on an object without an own property of that name, each gives a
    function or, for [__proto__], the prototype itself: a truthy value
    that is none of the values the code stores. *)
Definition inheritedNames : list jsstring :=
  [lit "constructor"; lit "hasOwnProperty"; lit "isPrototypeOf";
   lit "propertyIsEnumerable"; lit "toLocaleString"; lit "toString";
   lit "valueOf"; lit "__proto__"; lit "__defineGetter__";
   lit "__defineSetter__"; lit "__lookupGetter__"; lit "__lookupSetter__"].

Definition inherited (k : jsstring) : bool :=
  existsb (str_eqb k) inheritedNames.
#[global] Arguments inherited : simpl never.

(** [obj[k]] as a condition, on an object whose own values are all
    objects: an own property, or an inherited one. *)
Definition truthyAt {V : Type} (own : gmap jsstring V) (k : jsstring) : bool :=
  match own !! k with Some _ => true | None => inherited k end.

(** [obj.__proto__ = v] with an object [v] sets the prototype of [obj]
    and creates no property. *)
Definition PROTO : jsstring := lit "__proto__".

(** An array index: the canonical decimal form of an integer below
    [2^32 - 1].  The own properties of an object are enumerated with the
    array indices first, in ascending order, then the other names in the
    order in which they were created. *)
Fixpoint decimal (acc : N) (s : jsstring) : option N :=
  match s with
  | [] => Some acc
  | c :: s' =>
      if (48 <=? c) && (c <=? 57) then decimal (acc * 10 + (c - 48)) s'
      else None
  end.

Definition arrayIndex (k : jsstring) : option N :=
  match k with
  | [] => None
  | c :: k' =>
      if (c =? 48) && truthy k' then None
      else
        match decimal 0 k with
        | Some n => if n <? 4294967295 then Some n else None
        | None => None
        end
  end.

(** [n.toString(36)] on an integer: digits [0-9a-z], most significant
    first, after a minus sign when the number is negative. *)
Definition digit36 (d : N) : N := if d <? 10 then 48 + d else 87 + d.

Fixpoint digits36 (fuel : nat) (n : N) : jsstring :=
  match fuel with
  | O => []
  | S f =>
      (if n <? 36 then [] else digits36 f (n / 36)) ++ [digit36 (n mod 36)]
  end.

Definition toString36 (z : Z) : jsstring :=
  let n := Z.abs_N z in
  (if (z <? 0)%Z then [45] else [])
    ++ digits36 (S (N.to_nat (N.log2 n))) n.

(** The first code unit of a string is an underscore. *)
Definition startsWithUnderscore (s : jsstring) : bool :=
  match s with c :: _ => c =? 95 | [] => false end.

End JS.

(* ===================================================================== *)
(** ** app.js, Gun variant *)
(* ===================================================================== *)

Module Gun.
Import JS.

Definition PING_INTERVAL : Z := 30000.
Definition DEFAULT_ROOMS : list jsstring :=
  [lit "general"; lit "random"; lit "tech"; lit "gaming"; lit "music"].

(** A presence node [{ username, lastSeen, online }]. *)
Record Presence := mkPresence {
  p_username : jsstring;
  p_lastSeen : Z;
  p_online : bool
}.

(** Module-level variables of app.js, the parts of the page they drive,
    [localStorage] and the shared presence graph. *)
Record State := mkState {
  username : jsstring;
  currentRoom : jsstring;
  rooms : list jsstring;
  onlineNow : gmap jsstring Presence;
  presencePing : option nat;
  (* timers *)
  intervals : list nat;
  nextTimer : nat;
  (* localStorage *)
  ls_username : option jsstring;
  (* page *)
  loginHidden : bool;
  chatHidden : bool;
  meLabel : jsstring;
  inputShaken : bool;
  userList : list jsstring;
  onlineCount : nat;
  (* gun.get(NS).get('presence') *)
  presenceGraph : gmap jsstring Presence
}.

Definition init : State :=
  {| username := []; currentRoom := []; rooms := DEFAULT_ROOMS;
     onlineNow := ∅; presencePing := None; intervals := []; nextTimer := 0%nat;
     ls_username := None; loginHidden := false; chatHidden := true;
     meLabel := []; inputShaken := false; userList := []; onlineCount := 0%nat;
     presenceGraph := ∅ |}.

Definition set_username (v : jsstring) (s : State) : State :=
  {| username := v; currentRoom := currentRoom s; rooms := rooms s;
     onlineNow := onlineNow s; presencePing := presencePing s;
     intervals := intervals s; nextTimer := nextTimer s;
     ls_username := ls_username s; loginHidden := loginHidden s;
     chatHidden := chatHidden s; meLabel := meLabel s;
     inputShaken := inputShaken s; userList := userList s;
     onlineCount := onlineCount s; presenceGraph := presenceGraph s |}.

Definition set_currentRoom (v : jsstring) (s : State) : State :=
  {| username := username s; currentRoom := v; rooms := rooms s;
     onlineNow := onlineNow s; presencePing := presencePing s;
     intervals := intervals s; nextTimer := nextTimer s;
     ls_username := ls_username s; loginHidden := loginHidden s;
     chatHidden := chatHidden s; meLabel := meLabel s;
     inputShaken := inputShaken s; userList := userList s;
     onlineCount := onlineCount s; presenceGraph := presenceGraph s |}.


Definition set_timers (ping : option nat) (ivs : list nat) (next : nat)
    (s : State) : State :=
  {| username := username s; currentRoom := currentRoom s; rooms := rooms s;
     onlineNow := onlineNow s; presencePing := ping;
     intervals := ivs; nextTimer := next;
     ls_username := ls_username s; loginHidden := loginHidden s;
     chatHidden := chatHidden s; meLabel := meLabel s;
     inputShaken := inputShaken s; userList := userList s;
     onlineCount := onlineCount s; presenceGraph := presenceGraph s |}.

Definition set_ls_username (v : option jsstring) (s : State) : State :=
  {| username := username s; currentRoom := currentRoom s; rooms := rooms s;
     onlineNow := onlineNow s; presencePing := presencePing s;
     intervals := intervals s; nextTimer := nextTimer s;
     ls_username := v; loginHidden := loginHidden s;
     chatHidden := chatHidden s; meLabel := meLabel s;
     inputShaken := inputShaken s; userList := userList s;
     onlineCount := onlineCount s; presenceGraph := presenceGraph s |}.

Definition set_screens (login chat : bool) (s : State) : State :=
  {| username := username s; currentRoom := currentRoom s; rooms := rooms s;
     onlineNow := onlineNow s; presencePing := presencePing s;
     intervals := intervals s; nextTimer := nextTimer s;
     ls_username := ls_username s; loginHidden := login;
     chatHidden := chat; meLabel := meLabel s;
     inputShaken := inputShaken s; userList := userList s;
     onlineCount := onlineCount s; presenceGraph := presenceGraph s |}.

Definition set_meLabel (v : jsstring) (s : State) : State :=
  {| username := username s; currentRoom := currentRoom s; rooms := rooms s;
     onlineNow := onlineNow s; presencePing := presencePing s;
     intervals := intervals s; nextTimer := nextTimer s;
     ls_username := ls_username s; loginHidden := loginHidden s;
     chatHidden := chatHidden s; meLabel := v;
     inputShaken := inputShaken s; userList := userList s;
     onlineCount := onlineCount s; presenceGraph := presenceGraph s |}.

Definition set_inputShaken (v : bool) (s : State) : State :=
  {| username := username s; currentRoom := currentRoom s; rooms := rooms s;
     onlineNow := onlineNow s; presencePing := presencePing s;
     intervals := intervals s; nextTimer := nextTimer s;
     ls_username := ls_username s; loginHidden := loginHidden s;
     chatHidden := chatHidden s; meLabel := meLabel s;
     inputShaken := v; userList := userList s;
     onlineCount := onlineCount s; presenceGraph := presenceGraph s |}.

Definition set_rendered (l : list jsstring) (n : nat) (s : State) : State :=
  {| username := username s; currentRoom := currentRoom s; rooms := rooms s;
     onlineNow := onlineNow s; presencePing := presencePing s;
     intervals := intervals s; nextTimer := nextTimer s;
     ls_username := ls_username s; loginHidden := loginHidden s;
     chatHidden := chatHidden s; meLabel := meLabel s;
     inputShaken := inputShaken s; userList := l;
     onlineCount := n; presenceGraph := presenceGraph s |}.

Definition set_presenceGraph (v : gmap jsstring Presence) (s : State) : State :=
  {| username := username s; currentRoom := currentRoom s; rooms := rooms s;
     onlineNow := onlineNow s; presencePing := presencePing s;
     intervals := intervals s; nextTimer := nextTimer s;
     ls_username := ls_username s; loginHidden := loginHidden s;
     chatHidden := chatHidden s; meLabel := meLabel s;
     inputShaken := inputShaken s; userList := userList s;
     onlineCount := onlineCount s; presenceGraph := v |}.

(** [renderOnlineUsers]: the list shows [u.username] for every value of
    [onlineNow]; the counter shows how many there are.  (The enumeration
    order of the object is not modelled.) *)
Definition renderOnlineUsers (s : State) : State :=
  let users := (map_to_list (onlineNow s)).*2 in
  set_rendered (List.map p_username users) (length users) s.




(** [ping] inside [startPresence]. *)
Definition ping (now : Z) (s : State) : State :=
  set_presenceGraph
    (<[username s := mkPresence (username s) now true]> (presenceGraph s)) s.

(** [startPresence]: first ping, the ping timer, the staleness timer.  The
    presence subscription it installs delivers [onPresence]. *)
Definition startPresence (now : Z) (s : State) : State :=
  let s1 := ping now s in
  let t := nextTimer s1 in
  set_timers (Some t) (intervals s1 ++ [t; S t]) (S (S t)) s1.

(** [joinRoom]. *)
Definition joinRoom (room : jsstring) (s : State) : State :=
  if str_eqb room (currentRoom s) then s else set_currentRoom room s.

(** [doLogin(name)]. *)
Definition doLogin (now : Z) (raw : jsstring) (s : State) : State :=
  let name := sanitizeName raw in
  if negb (truthy name) then set_inputShaken true s
  else
    let s1 := set_username name s in
    let s2 := set_ls_username (Some name) s1 in
    let s3 := set_screens true false s2 in
    let s4 := set_meLabel name s3 in
    let s5 := startPresence now s4 in
    match rooms s5 with
    | r :: _ => joinRoom r s5
    | [] => s5
    end.

(** The click handler of [change-name-btn]; [n] is what [prompt] returned
    ([None] when the dialog is cancelled). *)
Definition changeName (now : Z) (n : option jsstring) (s : State) : State :=
  match n with
  | None => s
  | Some n =>
      if negb (truthy n) then s
      else
        let clean := sanitizeName n in
        if negb (truthy clean) then s
        else
          let s1 :=
            set_presenceGraph
              (<[username s := mkPresence (username s) now false]>
                 (presenceGraph s)) s in
          let s2 :=
            match presencePing s1 with
            | Some t =>
                set_timers (presencePing s1)
                  (List.filter (fun i => negb (Nat.eqb i t)) (intervals s1))
                  (nextTimer s1) s1
            | None => s1
            end in
          let s3 := set_username clean s2 in
          let s4 := set_ls_username (Some clean) s3 in
          let s5 := set_meLabel clean s4 in
          startPresence now s5
  end.



End Gun.

(* ===================================================================== *)
(** ** app.js, Firebase variant *)
(* ===================================================================== *)

Module Firebase.
Import JS.

Definition DB_ROOT : jsstring := lit "cs1".
Definition DEFAULT_ROOMS : list jsstring :=
  [lit "general"; lit "random"; lit "tech"; lit "gaming"; lit "music"].

(** A document of the Firestore collection [users]. *)
Record Account := mkAccount {
  a_username : jsstring;
  a_keyHash : jsstring;
  a_createdAt : Z;
  a_lastSeen : Z
}.

(** A node under [cs1/presence]. *)
Record Presence := mkPresence {
  p_username : jsstring;
  p_online : bool;
  p_lastSeen : Z
}.

(** What the platform answers during one handler run: an exception thrown
    by [firebase.initializeApp], a rejection of the digest, of
    [userRef.get()] or of [userRef.set()] (each with its message), and the
    server clock. *)
Record Env := mkEnv {
  e_init_err : option jsstring;
  e_hash_err : option jsstring;
  e_get_err : option jsstring;
  e_set_err : option jsstring;
  e_now : Z
}.

Record State := mkState {
  db : bool;
  firestoreDb : bool;
  username : jsstring;
  currentRoom : jsstring;
  rooms : list jsstring;
  (* Firestore and Realtime Database *)
  users : gmap jsstring Account;
  presence : gmap jsstring Presence;
  presenceRefs : list jsstring;
  (* localStorage *)
  ls_username : option jsstring;
  (* page *)
  loginStatus : jsstring * jsstring;
  loginBusy : bool;
  loginHidden : bool;
  chatHidden : bool;
  meLabel : jsstring;
  banner : jsstring * bool;
  alerts : list jsstring
}.

Definition init : State :=
  {| db := false; firestoreDb := false; username := []; currentRoom := [];
     rooms := DEFAULT_ROOMS; users := ∅; presence := ∅; presenceRefs := [];
     ls_username := None; loginStatus := ([], []); loginBusy := false;
     loginHidden := false; chatHidden := true; meLabel := [];
     banner := ([], true); alerts := [] |}.

Definition set_db (a b : bool) (s : State) : State :=
  {| db := a; firestoreDb := b; username := username s;
     currentRoom := currentRoom s; rooms := rooms s; users := users s;
     presence := presence s; presenceRefs := presenceRefs s;
     ls_username := ls_username s; loginStatus := loginStatus s;
     loginBusy := loginBusy s; loginHidden := loginHidden s;
     chatHidden := chatHidden s; meLabel := meLabel s; banner := banner s;
     alerts := alerts s |}.

Definition set_username (v : jsstring) (s : State) : State :=
  {| db := db s; firestoreDb := firestoreDb s; username := v;
     currentRoom := currentRoom s; rooms := rooms s; users := users s;
     presence := presence s; presenceRefs := presenceRefs s;
     ls_username := ls_username s; loginStatus := loginStatus s;
     loginBusy := loginBusy s; loginHidden := loginHidden s;
     chatHidden := chatHidden s; meLabel := meLabel s; banner := banner s;
     alerts := alerts s |}.

Definition set_currentRoom (v : jsstring) (s : State) : State :=
  {| db := db s; firestoreDb := firestoreDb s; username := username s;
     currentRoom := v; rooms := rooms s; users := users s;
     presence := presence s; presenceRefs := presenceRefs s;
     ls_username := ls_username s; loginStatus := loginStatus s;
     loginBusy := loginBusy s; loginHidden := loginHidden s;
     chatHidden := chatHidden s; meLabel := meLabel s; banner := banner s;
     alerts := alerts s |}.

Definition set_users (v : gmap jsstring Account) (s : State) : State :=
  {| db := db s; firestoreDb := firestoreDb s; username := username s;
     currentRoom := currentRoom s; rooms := rooms s; users := v;
     presence := presence s; presenceRefs := presenceRefs s;
     ls_username := ls_username s; loginStatus := loginStatus s;
     loginBusy := loginBusy s; loginHidden := loginHidden s;
     chatHidden := chatHidden s; meLabel := meLabel s; banner := banner s;
     alerts := alerts s |}.

Definition set_presence (v : gmap jsstring Presence) (r : list jsstring)
    (s : State) : State :=
  {| db := db s; firestoreDb := firestoreDb s; username := username s;
     currentRoom := currentRoom s; rooms := rooms s; users := users s;
     presence := v; presenceRefs := r;
     ls_username := ls_username s; loginStatus := loginStatus s;
     loginBusy := loginBusy s; loginHidden := loginHidden s;
     chatHidden := chatHidden s; meLabel := meLabel s; banner := banner s;
     alerts := alerts s |}.

Definition set_ls_username (v : option jsstring) (s : State) : State :=
  {| db := db s; firestoreDb := firestoreDb s; username := username s;
     currentRoom := currentRoom s; rooms := rooms s; users := users s;
     presence := presence s; presenceRefs := presenceRefs s;
     ls_username := v; loginStatus := loginStatus s;
     loginBusy := loginBusy s; loginHidden := loginHidden s;
     chatHidden := chatHidden s; meLabel := meLabel s; banner := banner s;
     alerts := alerts s |}.

Definition set_screens (login chat : bool) (s : State) : State :=
  {| db := db s; firestoreDb := firestoreDb s; username := username s;
     currentRoom := currentRoom s; rooms := rooms s; users := users s;
     presence := presence s; presenceRefs := presenceRefs s;
     ls_username := ls_username s; loginStatus := loginStatus s;
     loginBusy := loginBusy s; loginHidden := login;
     chatHidden := chat; meLabel := meLabel s; banner := banner s;
     alerts := alerts s |}.

Definition set_meLabel (v : jsstring) (s : State) : State :=
  {| db := db s; firestoreDb := firestoreDb s; username := username s;
     currentRoom := currentRoom s; rooms := rooms s; users := users s;
     presence := presence s; presenceRefs := presenceRefs s;
     ls_username := ls_username s; loginStatus := loginStatus s;
     loginBusy := loginBusy s; loginHidden := loginHidden s;
     chatHidden := chatHidden s; meLabel := v; banner := banner s;
     alerts := alerts s |}.

Definition set_banner (v : jsstring * bool) (s : State) : State :=
  {| db := db s; firestoreDb := firestoreDb s; username := username s;
     currentRoom := currentRoom s; rooms := rooms s; users := users s;
     presence := presence s; presenceRefs := presenceRefs s;
     ls_username := ls_username s; loginStatus := loginStatus s;
     loginBusy := loginBusy s; loginHidden := loginHidden s;
     chatHidden := chatHidden s; meLabel := meLabel s; banner := v;
     alerts := alerts s |}.

Definition alert (m : jsstring) (s : State) : State :=
  {| db := db s; firestoreDb := firestoreDb s; username := username s;
     currentRoom := currentRoom s; rooms := rooms s; users := users s;
     presence := presence s; presenceRefs := presenceRefs s;
     ls_username := ls_username s; loginStatus := loginStatus s;
     loginBusy := loginBusy s; loginHidden := loginHidden s;
     chatHidden := chatHidden s; meLabel := meLabel s; banner := banner s;
     alerts := alerts s ++ [m] |}.

(** [setLoginStatus(msg, type)] and [setLoginBusy(busy)]. *)
Definition setLoginStatus (msg type : jsstring) (s : State) : State :=
  {| db := db s; firestoreDb := firestoreDb s; username := username s;
     currentRoom := currentRoom s; rooms := rooms s; users := users s;
     presence := presence s; presenceRefs := presenceRefs s;
     ls_username := ls_username s; loginStatus := (msg, type);
     loginBusy := loginBusy s; loginHidden := loginHidden s;
     chatHidden := chatHidden s; meLabel := meLabel s; banner := banner s;
     alerts := alerts s |}.

Definition setLoginBusy (busy : bool) (s : State) : State :=
  {| db := db s; firestoreDb := firestoreDb s; username := username s;
     currentRoom := currentRoom s; rooms := rooms s; users := users s;
     presence := presence s; presenceRefs := presenceRefs s;
     ls_username := ls_username s; loginStatus := loginStatus s;
     loginBusy := busy; loginHidden := loginHidden s;
     chatHidden := chatHidden s; meLabel := meLabel s; banner := banner s;
     alerts := alerts s |}.

(** [showConfigError(detail)] with a detail. *)
Definition showConfigError (detail : jsstring) (s : State) : State :=
  set_banner (lit "Firebase error: " ++ detail, false) s.

(** [initFirebase]: the configured key does not start with [PASTE_], so
    only the [try] remains. *)
Definition initFirebase (env : Env) (s : State) : bool * State :=
  match e_init_err env with
  | Some m => (false, showConfigError m s)
  | None => (true, set_db true true s)
  end.

(** [startPresence(oldUsername)]: the old name, when given, is marked
    offline; the new presence reference waits for the connection event. *)
Definition startPresence (old : option jsstring) (s : State) : State :=
  let pres :=
    match old with
    | Some o =>
        if truthy o
        then alter (fun p => mkPresence (p_username p) false (p_lastSeen p))
               o (presence s)
        else presence s
    | None => presence s
    end in
  set_presence pres (presenceRefs s ++ [username s]) s.

(** [joinRoom]. *)
Definition joinRoom (room : jsstring) (s : State) : State :=
  if str_eqb room (currentRoom s) then s else set_currentRoom room s.

Definition quoted (name : jsstring) : jsstring := [34] ++ name ++ [34].

Section WithDigest.

(** [hashKey]: the hexadecimal SHA-256 digest computed by the Web Crypto
    API. *)
Variable hashKey : jsstring -> jsstring.

(** The tail of [doLogin] after the credential check. *)
Definition enterChat (name : jsstring) (s : State) : State :=
  let s1 := set_username name s in
  let s2 := set_ls_username (Some name) s1 in
  let s3 := set_screens true false s2 in
  let s4 := set_meLabel name s3 in
  let s5 := setLoginBusy false s4 in
  let s6 := set_banner (lit "Connecting to Firebase" ++ [8230], false) s5 in
  let s7 := startPresence None s6 in
  joinRoom (lit "general") s7.

Definition loginError (m : jsstring) (s : State) : State :=
  setLoginBusy false (setLoginStatus (lit "Error: " ++ m) (lit "error") s).

(** [doLogin(rawName, rawKey)]. *)
Definition doLogin (env : Env) (rawName rawKey : jsstring) (s : State)
    : State :=
  let name := sanitizeName rawName in
  let key := trim rawKey in
  if negb (truthy name)
  then setLoginStatus (lit "Enter a username.") (lit "error") s
  else if negb (truthy key)
  then setLoginStatus (lit "Enter a secret key.") (lit "error") s
  else
    match initFirebase env s with
    | (false, s1) => s1
    | (true, s1) =>
        let s2 := setLoginBusy true s1 in
        let s3 := setLoginStatus (lit "Checking" ++ [8230]) (lit "info") s2 in
        match e_hash_err env with
        | Some m => loginError m s3
        | None =>
            let keyHash := hashKey key in
            match e_get_err env with
            | Some m => loginError m s3
            | None =>
                match users s3 !! name with
                | None =>
                    match e_set_err env with
                    | Some m => loginError m s3
                    | None =>
                        let rec :=
                          mkAccount name keyHash (e_now env) (e_now env) in
                        let s4 := set_users (<[name := rec]> (users s3)) s3 in
                        let s5 :=
                          setLoginStatus
                            (lit "Account created! Welcome, " ++ name)
                            (lit "success") s4 in
                        enterChat name s5
                    end
                | Some r =>
                    if negb (str_eqb (a_keyHash r) keyHash)
                    then
                      setLoginBusy false
                        (setLoginStatus
                           (lit "Wrong secret key for " ++ quoted name
                              ++ lit ".")
                           (lit "error") s3)
                    else
                      let r' :=
                        mkAccount (a_username r) (a_keyHash r)
                          (a_createdAt r) (e_now env) in
                      let s4 := set_users (<[name := r']> (users s3)) s3 in
                      let s5 :=
                        setLoginStatus
                          (lit "Welcome back, " ++ name ++ lit "!")
                          (lit "success") s4 in
                      enterChat name s5
                end
            end
        end
    end.

(** The click handler of [change-name-btn]; [newName] and [key] are what
    the two [prompt]s return.  A rejected [get] or [set] ends the handler
    where it stands. *)
Definition changeName (env : Env) (newName key : option jsstring)
    (s : State) : State :=
  match newName with
  | None => s
  | Some nn =>
      if negb (truthy nn) then s
      else
        let clean := sanitizeName nn in
        if negb (truthy clean) || str_eqb clean (username s) then s
        else
          match key with
          | None => s
          | Some k =>
              if negb (truthy k) then s
              else
                match e_hash_err env, e_get_err env with
                | Some _, _ => s
                | None, Some _ => s
                | None, None =>
                    let keyHash := hashKey (trim k) in
                    let proceed (s1 : State) : State :=
                      let old := username s1 in
                      let s2 := set_username clean s1 in
                      let s3 := set_ls_username (Some clean) s2 in
                      let s4 := set_meLabel clean s3 in
                      startPresence (Some old) s4 in
                    match users s !! clean with
                    | Some r =>
                        if negb (str_eqb (a_keyHash r) keyHash)
                        then
                          alert (lit "Wrong secret key for " ++ quoted clean
                                   ++ lit ".") s
                        else
                          let r' :=
                            mkAccount (a_username r) (a_keyHash r)
                              (a_createdAt r) (e_now env) in
                          proceed (set_users (<[clean := r']> (users s)) s)
                    | None =>
                        match e_set_err env with
                        | Some _ => s
                        | None =>
                            let rec :=
                              mkAccount clean keyHash (e_now env)
                                (e_now env) in
                            proceed
                              (set_users (<[clean := rec]> (users s)) s)
                        end
                    end
                end
          end
  end.

End WithDigest.

(** A directory holding one account, [bob], registered with the key
    [hunter2] under a stand-in digest, and a platform that answers every
    request. *)
Definition demoDigest (k : jsstring) : jsstring := lit "sha256:" ++ rev k.
Definition demoEnv : Env := mkEnv None None None None 5000.
Definition bobAccount : Account :=
  mkAccount (lit "bob") (demoDigest (lit "hunter2")) 1000 1000.
Definition demoDirectory : State :=
  set_users (<[lit "bob" := bobAccount]> ∅) init.

End Firebase.

(* ===================================================================== *)
(** ** video.js: WebRTC group calls *)
(* ===================================================================== *)

Module Video.
Import JS.

Definition DB_ROOT : jsstring := Firebase.DB_ROOT.

(** *** Platform objects *)

Record MediaStream := mkStream { ms_tracks : list nat }.

Inductive SdpType := Offer | Answer.

(** [{ type, sdp }]. *)
Record SDP := mkSDP { sdp_type : SdpType; sdp_body : jsstring }.

(** An ICE candidate in its JSON form. *)
Abbreviation Candidate := (list N).

Inductive SignalingState :=
  Stable | HaveLocalOffer | HaveRemoteOffer | SigClosed.

(** [pc.connectionState]. *)
Inductive ConnState :=
  CsNew | CsConnecting | CsConnected | CsDisconnected | CsFailed | CsClosed.

(** Method calls received by an [RTCPeerConnection], in order. *)
Inductive PcCall :=
  | AddTrack (t : nat)
  | RestartIce
  | CreateOffer (iceRestart : bool)
  | CreateAnswer
  | SetLocalDescription (d : SDP)
  | SetRemoteDescription (d : SDP)
  | AddIceCandidate (c : Candidate)
  | Close.

(** The attributes of an [RTCPeerConnection] the code reads, and the calls
    it received. *)
Record PeerConn := mkPc {
  pc_signalingState : SignalingState;
  pc_pendingRemote : option SDP;
  pc_currentRemoteDescription : option SDP;
  pc_calls : list PcCall
}.

Definition newPc : PeerConn := mkPc Stable None None [].

(** [pc.remoteDescription]: the pending description, else the current one. *)
Definition pc_remoteDescription (pc : PeerConn) : option SDP :=
  match pc_pendingRemote pc with
  | Some d => Some d
  | None => pc_currentRemoteDescription pc
  end.

Definition pc_isClosed (pc : PeerConn) : bool :=
  match pc_signalingState pc with SigClosed => true | _ => false end.

Definition pc_log (c : PcCall) (pc : PeerConn) : PeerConn :=
  mkPc (pc_signalingState pc) (pc_pendingRemote pc)
    (pc_currentRemoteDescription pc) (pc_calls pc ++ [c]).

(** A closed connection rejects every operation; the call is still
    recorded. *)
Definition pc_setRemoteDescription (d : SDP) (pc : PeerConn) : PeerConn :=
  if pc_isClosed pc then pc_log (SetRemoteDescription d) pc
  else
    match sdp_type d with
    | Offer =>
        mkPc HaveRemoteOffer (Some d) (pc_currentRemoteDescription pc)
          (pc_calls pc ++ [SetRemoteDescription d])
    | Answer =>
        mkPc Stable None (Some d) (pc_calls pc ++ [SetRemoteDescription d])
    end.

Definition pc_setLocalDescription (d : SDP) (pc : PeerConn) : PeerConn :=
  if pc_isClosed pc then pc_log (SetLocalDescription d) pc
  else
    match sdp_type d with
    | Offer =>
        mkPc HaveLocalOffer (pc_pendingRemote pc)
          (pc_currentRemoteDescription pc)
          (pc_calls pc ++ [SetLocalDescription d])
    | Answer =>
        mkPc Stable None
          (match pc_pendingRemote pc with
           | Some r => Some r
           | None => pc_currentRemoteDescription pc
           end)
          (pc_calls pc ++ [SetLocalDescription d])
    end.

Definition pc_close (pc : PeerConn) : PeerConn :=
  mkPc SigClosed (pc_pendingRemote pc) (pc_currentRemoteDescription pc)
    (pc_calls pc ++ [Close]).

(** A connection after a series of recorded calls. *)
Definition pc_logAll (cs : list PcCall) (pc : PeerConn) : PeerConn :=
  mkPc (pc_signalingState pc) (pc_pendingRemote pc)
    (pc_currentRemoteDescription pc) (pc_calls pc ++ cs).

(** An open connection whose remote description is set. *)
Definition pc_ready (pc : PeerConn) : Prop :=
  pc_isClosed pc = false /\ is_Some (pc_remoteDescription pc).

(** Candidates handed to [addIceCandidate], in order. *)
Definition pc_added (pc : PeerConn) : list Candidate :=
  omap (fun c => match c with AddIceCandidate x => Some x | _ => None end)
    (pc_calls pc).

(** Number of [restartIce()] calls. *)
Definition pc_restarts (pc : PeerConn) : nat :=
  length (List.filter
            (fun c => match c with RestartIce => true | _ => false end)
            (pc_calls pc)).

(** [{ ctx, interval }] of [audioAnalysers]. *)
Record Analyser := mkAnalyser { an_ctx : nat; an_interval : nat }.

(** *** Signalling store *)

Inductive DbValue :=
  | VParticipant (username : jsstring)
  | VSdp (d : SDP)
  | VCandidate (c : Candidate).

Inductive DbOp :=
  | DbSet (path : jsstring) (v : DbValue)
  | DbPush (path : jsstring) (v : DbValue)
  | DbRemove (path : jsstring)
  | DbOnDisconnectRemove (path : jsstring).

Inductive SubEvent := ChildAdded | ChildRemoved | Value.

(** What the closures created by one run of [connectToPeer] capture. *)
Record Link := mkLink {
  l_peer : jsstring;
  l_pc : nat;
  l_iAmInitiator : bool;
  l_connPath : jsstring
}.

(** The callback of a listener: one of the two roster callbacks of
    [startJoin], or a callback created by a run of [connectToPeer], with
    its closure context. *)
Inductive Handler :=
  | HRosterAdded
  | HRosterRemoved
  | HRemoteIce (l : Link)
  | HOffer (l : Link)
  | HAnswer (l : Link).

(** A listener installed with [ref.on(event, callback)].  It stays
    installed until [off] is called on its location. *)
Record Sub := mkSub {
  sub_path : jsstring;
  sub_event : SubEvent;
  sub_handler : Handler
}.

(** *** Page *)

Inductive Loader := LdConnecting | LdReconnecting.

(** A [.video-tile] element of the grid. *)
Record Tile := mkTile {
  tile_id : jsstring;
  tile_loader : option Loader;
  tile_video : bool
}.

Definition tileId (id : jsstring) : jsstring := lit "tile-" ++ id.

(** *** State *)

(** The [let] variables of video.js.  The three objects used as maps are
    finite maps over identities; identities are taken not to collide with
    the property names every object inherits. *)
Record Vars := mkVars {
  localStream : option MediaStream;
  screenStream : option MediaStream;
  peerConns : gmap jsstring nat;
  iceQueues : gmap jsstring (list Candidate);
  callRoom : option jsstring;
  participantsRef : option jsstring;
  isMuted : bool;
  isCamOff : bool;
  isSharing : bool;
  audioAnalysers : gmap jsstring Analyser
}.

(** The elements of the page video.js writes. *)
Record Page := mkPage {
  videoGrid : list Tile;
  callCount : nat;
  callRoomLabel : jsstring;
  overlayHidden : bool;
  btnInCall : bool;
  indicatorHidden : bool;
  muteToggledOff : bool;
  cameraToggledOff : bool;
  shareSharing : bool;
  alerts : list jsstring
}.

(** Objects and effects owned by the platform: the connection objects
    (referenced from [peerConns] and from the closures of [connectToPeer]),
    stopped tracks, writes to the signalling store, installed listeners,
    cleared timers and closed audio contexts. *)
Record Platform := mkPlatform {
  heap : gmap nat PeerConn;
  nextObj : nat;
  stopped : list nat;
  dbLog : list DbOp;
  subs : list Sub;
  clearedIntervals : list nat;
  closedCtx : list nat
}.

(** [db], [username] and [currentRoom] belong to app.js; video.js only
    reads them. *)
Record State := mkState {
  db : bool;
  username : jsstring;
  currentRoom : jsstring;
  vars : Vars;
  page : Page;
  plat : Platform
}.

Definition initVars : Vars :=
  mkVars None None ∅ ∅ None None false false false ∅.
Definition initPage : Page :=
  mkPage [] 0%nat [] true false true false false false [].
Definition initPlatform : Platform := mkPlatform ∅ 0%nat [] [] [] [] [].

Definition on_vars (f : Vars -> Vars) (s : State) : State :=
  mkState (db s) (username s) (currentRoom s) (f (vars s)) (page s) (plat s).
Definition on_page (f : Page -> Page) (s : State) : State :=
  mkState (db s) (username s) (currentRoom s) (vars s) (f (page s)) (plat s).
Definition on_plat (f : Platform -> Platform) (s : State) : State :=
  mkState (db s) (username s) (currentRoom s) (vars s) (page s) (f (plat s)).

Definition set_peerConns (m : gmap jsstring nat) (v : Vars) : Vars :=
  mkVars (localStream v) (screenStream v) m (iceQueues v) (callRoom v)
    (participantsRef v) (isMuted v) (isCamOff v) (isSharing v)
    (audioAnalysers v).
Definition set_iceQueues (m : gmap jsstring (list Candidate)) (v : Vars)
    : Vars :=
  mkVars (localStream v) (screenStream v) (peerConns v) m (callRoom v)
    (participantsRef v) (isMuted v) (isCamOff v) (isSharing v)
    (audioAnalysers v).
Definition set_audioAnalysers (m : gmap jsstring Analyser) (v : Vars) : Vars :=
  mkVars (localStream v) (screenStream v) (peerConns v) (iceQueues v)
    (callRoom v) (participantsRef v) (isMuted v) (isCamOff v) (isSharing v) m.

Definition set_videoGrid (g : list Tile) (p : Page) : Page :=
  mkPage g (callCount p) (callRoomLabel p) (overlayHidden p) (btnInCall p)
    (indicatorHidden p) (muteToggledOff p) (cameraToggledOff p)
    (shareSharing p) (alerts p).
Definition set_callCount (n : nat) (p : Page) : Page :=
  mkPage (videoGrid p) n (callRoomLabel p) (overlayHidden p) (btnInCall p)
    (indicatorHidden p) (muteToggledOff p) (cameraToggledOff p)
    (shareSharing p) (alerts p).
Definition add_alert (m : jsstring) (p : Page) : Page :=
  mkPage (videoGrid p) (callCount p) (callRoomLabel p) (overlayHidden p)
    (btnInCall p) (indicatorHidden p) (muteToggledOff p) (cameraToggledOff p)
    (shareSharing p) (alerts p ++ [m]).

Definition set_heap (h : gmap nat PeerConn) (p : Platform) : Platform :=
  mkPlatform h (nextObj p) (stopped p) (dbLog p) (subs p)
    (clearedIntervals p) (closedCtx p).
Definition set_nextObj (n : nat) (p : Platform) : Platform :=
  mkPlatform (heap p) n (stopped p) (dbLog p) (subs p)
    (clearedIntervals p) (closedCtx p).
Definition add_stopped (ts : list nat) (p : Platform) : Platform :=
  mkPlatform (heap p) (nextObj p) (stopped p ++ ts) (dbLog p) (subs p)
    (clearedIntervals p) (closedCtx p).
Definition add_dbOp (o : DbOp) (p : Platform) : Platform :=
  mkPlatform (heap p) (nextObj p) (stopped p) (dbLog p ++ [o]) (subs p)
    (clearedIntervals p) (closedCtx p).
Definition set_subs (l : list Sub) (p : Platform) : Platform :=
  mkPlatform (heap p) (nextObj p) (stopped p) (dbLog p) l
    (clearedIntervals p) (closedCtx p).
Definition release_analyser (a : Analyser) (p : Platform) : Platform :=
  mkPlatform (heap p) (nextObj p) (stopped p) (dbLog p) (subs p)
    (clearedIntervals p ++ [an_interval a]) (closedCtx p ++ [an_ctx a]).

(** *** Tiles *)

Definition isTile (id : jsstring) (t : Tile) : bool :=
  str_eqb (tile_id t) (tileId id).

(** [document.getElementById(`tile-${id}`)] is truthy. *)
Definition hasTile (id : jsstring) (g : list Tile) : bool :=
  existsb (isTile id) g.

(** [document.getElementById(`tile-${id}`)?.remove()]: the first element
    carrying the id, when there is one. *)
Fixpoint removeTile (id : jsstring) (g : list Tile) : list Tile :=
  match g with
  | [] => []
  | t :: g' => if isTile id t then g' else t :: removeTile id g'
  end.

Fixpoint updTile (id : jsstring) (f : Tile -> Tile) (g : list Tile)
    : list Tile :=
  match g with
  | [] => []
  | t :: g' => if isTile id t then f t :: g' else t :: updTile id f g'
  end.

(** No two tiles of the grid carry the same id. *)
Fixpoint uniqueTiles (g : list Tile) : bool :=
  match g with
  | [] => true
  | t :: g' =>
      negb (existsb (fun u => str_eqb (tile_id u) (tile_id t)) g')
      && uniqueTiles g'
  end.

Definition updateCount (s : State) : State :=
  on_page (set_callCount (length (videoGrid (page s)))) s.

(** [addVideoTile(id, stream, isLocal)]. *)
Definition addVideoTile (id : jsstring) (s : State) : State :=
  if hasTile id (videoGrid (page s)) then s
  else
    updateCount
      (on_page (set_videoGrid
                  (videoGrid (page s) ++ [mkTile (tileId id) None true])) s).

(** [addPeerTile(peer)]. *)
Definition addPeerTile (peer : jsstring) (s : State) : State :=
  if hasTile peer (videoGrid (page s)) then s
  else
    updateCount
      (on_page (set_videoGrid
                  (videoGrid (page s)
                     ++ [mkTile (tileId peer) (Some LdConnecting) false])) s).

(** [attachStreamToTile(peer, stream)]. *)
Definition attachStreamToTile (peer : jsstring) (s : State) : State :=
  on_page (set_videoGrid
             (updTile peer (fun t => mkTile (tile_id t) None true)
                (videoGrid (page s)))) s.

(** [updateTileConnState(peer, state)]. *)
Definition updateTileConnState (peer : jsstring) (st : ConnState) (s : State)
    : State :=
  match st with
  | CsConnected =>
      on_page (set_videoGrid
                 (updTile peer (fun t => mkTile (tile_id t) None (tile_video t))
                    (videoGrid (page s)))) s
  | CsDisconnected =>
      on_page (set_videoGrid
                 (updTile peer
                    (fun t => mkTile (tile_id t) (Some LdReconnecting)
                                (tile_video t))
                    (videoGrid (page s)))) s
  | _ => s
  end.

(** *** Connection objects *)

Definition getPc (id : nat) (s : State) : PeerConn :=
  default newPc (heap (plat s) !! id).

Definition updPc (id : nat) (f : PeerConn -> PeerConn) (s : State) : State :=
  on_plat (set_heap (alter f id (heap (plat s)))) s.

(** [safeAddIce(pc, candidate)]: the candidate is handed to the
    connection; a rejection is swallowed. *)
Definition safeAddIce (id : nat) (c : Candidate) (s : State) : State :=
  updPc id (pc_log (AddIceCandidate c)) s.

Definition dbWrite (o : DbOp) (s : State) : State := on_plat (add_dbOp o) s.

Definition subscribe (path : jsstring) (e : SubEvent) (h : Handler)
    (s : State) : State :=
  on_plat (set_subs (subs (plat s) ++ [mkSub path e h])) s.

(** *** Entry / exit *)

(** [callRoom] as a condition: [null] and the empty string are falsy. *)
Definition inCall (s : State) : bool :=
  match callRoom (vars s) with
  | Some r => truthy r
  | None => false
  end.

(** [`${room}`] for a room that may be [null]. *)
Definition roomText (r : option jsstring) : jsstring :=
  match r with Some r => r | None => lit "null" end.

Definition participantsPath (room : jsstring) : jsstring :=
  DB_ROOT ++ lit "/calls/" ++ room ++ lit "/participants".

Definition participantPath (room user : jsstring) : jsstring :=
  participantsPath room ++ lit "/" ++ user.

(** [startJoin]; [media] is the outcome of [getUserMedia]: the stream, or
    the message of the error it was rejected with. *)
Definition startJoin (media : MediaStream + jsstring) (s : State) : State :=
  if negb (db s) || negb (truthy (username s))
  then on_page (add_alert (lit "Log in first.")) s
  else
    match media with
    | inr msg =>
        on_page
          (add_alert
             (lit "Could not access camera / microphone:" ++ [10] ++ msg)) s
    | inl stream =>
        let room := currentRoom s in
        let v := vars s in
        let s1 :=
          on_vars (fun _ =>
            mkVars (Some stream) (screenStream v) (peerConns v) (iceQueues v)
              (Some room) (participantsRef v) false false false
              (audioAnalysers v)) s in
        let p := page s1 in
        let s2 :=
          on_page (fun _ =>
            mkPage (videoGrid p) (callCount p) (lit "#" ++ room) false true
              false false false false (alerts p)) s1 in
        let s3 := addVideoTile (lit "__local__") s2 in
        let myRef := participantPath room (username s) in
        let s4 := dbWrite (DbSet myRef (VParticipant (username s))) s3 in
        let s5 := dbWrite (DbOnDisconnectRemove myRef) s4 in
        let ref := participantsPath room in
        let v5 := vars s5 in
        let s6 :=
          on_vars (fun _ =>
            mkVars (localStream v5) (screenStream v5) (peerConns v5)
              (iceQueues v5) (callRoom v5) (Some ref) (isMuted v5)
              (isCamOff v5) (isSharing v5) (audioAnalysers v5)) s5 in
        subscribe ref ChildRemoved HRosterRemoved
          (subscribe ref ChildAdded HRosterAdded s6)
    end.

(** [removePeer(peer)] stops at its second statement, on the [TypeError]
    of [pc.close()], when [peerConns[peer]] is an inherited property: the
    name has no connection and is one every object inherits. *)
Definition removePeerThrows (peer : jsstring) (s : State) : bool :=
  match peerConns (vars s) !! peer with
  | Some _ => false
  | None => inherited peer
  end.

(** [removePeer(peer)].  For a name without an own monitor the block of
    the audio monitor releases nothing (an inherited property has no
    [interval] and no [ctx]). *)
Definition removePeer (peer : jsstring) (s : State) : State :=
  if removePeerThrows peer s then s
  else
    let s1 :=
      match peerConns (vars s) !! peer with
      | Some id =>
          on_vars (set_peerConns (delete peer (peerConns (vars s))))
            (updPc id pc_close s)
      | None => s
      end in
    let s2 := on_vars (set_iceQueues (delete peer (iceQueues (vars s1)))) s1 in
    let s3 :=
      match audioAnalysers (vars s2) !! peer with
      | Some a =>
          on_vars (set_audioAnalysers (delete peer (audioAnalysers (vars s2))))
            (on_plat (release_analyser a) s2)
      | None => s2
      end in
    let s4 :=
      on_page (set_videoGrid (removeTile peer (videoGrid (page s3)))) s3 in
    updateCount s4.

Definition streamTracks (m : option MediaStream) : list nat :=
  match m with Some st => ms_tracks st | None => [] end.

(** [leaveCall].  [Object.keys(peerConns)] is enumerated in the order of
    the finite map. *)
Definition leaveCall (s : State) : State :=
  if negb (inCall s) then s
  else
    let keys := (map_to_list (peerConns (vars s))).*1 in
    let s1 := foldl (fun acc p => removePeer p acc) s keys in
    let s2 := on_plat (add_stopped (streamTracks (localStream (vars s1)))) s1 in
    let s3 := on_plat (add_stopped (streamTracks (screenStream (vars s2)))) s2 in
    let s4 :=
      dbWrite (DbRemove (participantPath (roomText (callRoom (vars s3)))
                           (username s3))) s3 in
    let s5 :=
      match participantsRef (vars s4) with
      | Some ref =>
          on_plat (set_subs
                     (List.filter (fun sb => negb (str_eqb (sub_path sb) ref))
                        (subs (plat s4)))) s4
      | None => s4
      end in
    let v := vars s5 in
    let s6 :=
      on_vars (fun _ =>
        mkVars None None (peerConns v) (iceQueues v) None None (isMuted v)
          (isCamOff v) (isSharing v) (audioAnalysers v)) s5 in
    let p := page s6 in
    on_page (fun _ =>
      mkPage [] (callCount p) (callRoomLabel p) true false true
        (muteToggledOff p) (cameraToggledOff p) (shareSharing p) (alerts p)) s6.

(** *** WebRTC peer connection *)

(** The role of the local side, as the [child_added] handler computes it:
    [username > peer]. *)
Definition amInitiator (self peer : jsstring) : bool := str_gt self peer.

Definition initiatorOf (self peer : jsstring) (iAmInitiator : bool)
    : jsstring := if iAmInitiator then self else peer.

Definition responderOf (self peer : jsstring) (iAmInitiator : bool)
    : jsstring := if iAmInitiator then peer else self.

Definition connPathOf (self peer room : jsstring) (iAmInitiator : bool)
    : jsstring :=
  DB_ROOT ++ lit "/calls/" ++ room ++ lit "/connections/"
    ++ initiatorOf self peer iAmInitiator ++ lit "___"
    ++ responderOf self peer iAmInitiator.

Definition myIceKey (iAmInitiator : bool) : jsstring :=
  if iAmInitiator then lit "initiatorIce" else lit "responderIce".

Definition theirIceKey (iAmInitiator : bool) : jsstring :=
  if iAmInitiator then lit "responderIce" else lit "initiatorIce".

Definition offerPath (l : Link) : jsstring := l_connPath l ++ lit "/offer".
Definition answerPath (l : Link) : jsstring := l_connPath l ++ lit "/answer".

(** [connectToPeer(peer, room, iAmInitiator)] up to its first [await]:
    the whole function on the responder side, and everything up to the call
    of [createOffer] on the initiator side.  The result carries the closure
    context when one was created.  The guard [peerConns[peer]] holds for a
    name that has a connection and for a name every object inherits.
    Without a local stream the function throws after the tile was
    added. *)
Definition connectToPeer (peer room : jsstring) (iAmInitiator : bool)
    (s : State) : State * option Link :=
  if truthyAt (peerConns (vars s)) peer then (s, None)
  else
      let id := nextObj (plat s) in
      let s1 :=
        on_plat (fun p => set_nextObj (S id)
                            (set_heap (<[id := newPc]> (heap p)) p)) s in
      let s2 :=
        on_vars (fun v => set_iceQueues (<[peer := []]> (iceQueues v))
                            (set_peerConns (<[peer := id]> (peerConns v)) v))
          s1 in
      let s3 := addPeerTile peer s2 in
      match localStream (vars s3) with
      | None => (s3, None)
      | Some ls =>
          let s4 :=
            foldl (fun acc t => updPc id (pc_log (AddTrack t)) acc) s3
              (ms_tracks ls) in
          let connPath := connPathOf (username s) peer room iAmInitiator in
          let l := mkLink peer id iAmInitiator connPath in
          let s5 :=
            subscribe (connPath ++ lit "/" ++ theirIceKey iAmInitiator)
              ChildAdded (HRemoteIce l) s4 in
          if iAmInitiator
          then (updPc id (pc_log (CreateOffer false)) s5, Some l)
          else (subscribe (offerPath l) Value (HOffer l) s5, Some l)
      end.

(** The rest of the initiator branch, once [createOffer] has produced
    [offer]: local description, publication, subscription to the answer. *)
Definition offerCreated (l : Link) (offer : SDP) (s : State) : State :=
  if pc_isClosed (getPc (l_pc l) s)
  then updPc (l_pc l) (pc_setLocalDescription offer) s
  else
    let s1 := updPc (l_pc l) (pc_setLocalDescription offer) s in
    let s2 := dbWrite (DbSet (offerPath l) (VSdp offer)) s1 in
    subscribe (answerPath l) Value (HAnswer l) s2.

(** [pc.ontrack]. *)
Definition onTrack (l : Link) (s : State) : State :=
  attachStreamToTile (l_peer l) s.

(** [pc.onicecandidate]: a local candidate is pushed under our key. *)
Definition onIceCandidate (l : Link) (c : option Candidate) (s : State)
    : State :=
  match c with
  | Some c =>
      dbWrite (DbPush (l_connPath l ++ lit "/" ++ myIceKey (l_iAmInitiator l))
                 (VCandidate c)) s
  | None => s
  end.

(** The [child_added] listener on the peer's candidates; [c] is
    [snap.val()].  [None] as a result is the [TypeError] of pushing to a
    queue that was deleted. *)
Definition onRemoteIce (l : Link) (c : option Candidate) (s : State)
    : option State :=
  match c with
  | None => Some s
  | Some c =>
      match pc_remoteDescription (getPc (l_pc l) s) with
      | Some _ => Some (safeAddIce (l_pc l) c s)
      | None =>
          match iceQueues (vars s) !! l_peer l with
          | Some q =>
              Some (on_vars (set_iceQueues
                               (<[l_peer l := q ++ [c]]> (iceQueues (vars s))))
                      s)
          | None => None
          end
      end
  end.

(** [flushIceQueue].  Without a queue of its own, [iceQueues[peer] || []]
    is the empty array, unless the name is one every object inherits: the
    loop then stops on the [TypeError] of iterating a value that is not
    iterable, and nothing is assigned. *)
Definition flushIceQueue (l : Link) (s : State) : State :=
  match iceQueues (vars s) !! l_peer l with
  | None =>
      if inherited (l_peer l) then s
      else on_vars (set_iceQueues (<[l_peer l := []]> (iceQueues (vars s)))) s
  | Some q =>
      let s1 := foldl (fun acc c => safeAddIce (l_pc l) c acc) s q in
      on_vars (set_iceQueues (<[l_peer l := []]> (iceQueues (vars s1)))) s1
  end.

(** The [value] listener on the answer (initiator side). *)
Definition onAnswer (l : Link) (val : option SDP) (s : State) : State :=
  match val with
  | None => s
  | Some d =>
      match pc_currentRemoteDescription (getPc (l_pc l) s) with
      | Some _ => s
      | None =>
          let s1 := updPc (l_pc l) (pc_setRemoteDescription d) s in
          if pc_isClosed (getPc (l_pc l) s) then s1
          else flushIceQueue l s1
      end
  end.

(** The [value] listener on the offer (responder side), up to the call of
    [createAnswer]. *)
Definition onOffer (l : Link) (val : option SDP) (s : State) : State :=
  match val with
  | None => s
  | Some d =>
      match pc_currentRemoteDescription (getPc (l_pc l) s) with
      | Some _ => s
      | None =>
          let s1 := updPc (l_pc l) (pc_setRemoteDescription d) s in
          if pc_isClosed (getPc (l_pc l) s) then s1
          else updPc (l_pc l) (pc_log CreateAnswer) s1
      end
  end.

(** The rest of the offer listener, once [createAnswer] has produced
    [answer]: local description, publication, flush of the queue. *)
Definition answerCreated (l : Link) (answer : SDP) (s : State) : State :=
  if pc_isClosed (getPc (l_pc l) s)
  then updPc (l_pc l) (pc_setLocalDescription answer) s
  else
    let s1 := updPc (l_pc l) (pc_setLocalDescription answer) s in
    let s2 := dbWrite (DbSet (answerPath l) (VSdp answer)) s1 in
    flushIceQueue l s2.

(** [watchAudioLevel(peer, stream)]; [ok] tells whether the audio context
    could be created. *)
Definition watchAudioLevel (peer : jsstring) (ok : bool) (s : State) : State :=
  if truthyAt (audioAnalysers (vars s)) peer then s
  else if ok
  then
    let n := nextObj (plat s) in
    on_vars (set_audioAnalysers
               (<[peer := mkAnalyser n (S n)]> (audioAnalysers (vars s))))
      (on_plat (set_nextObj (S (S n))) s)
  else s.

(** [pc.onconnectionstatechange], run when [pc.connectionState] has become
    [st]. *)
Definition onconnectionstatechange (l : Link) (st : ConnState)
    (audioOk : bool) (s : State) : State :=
  let s1 := updateTileConnState (l_peer l) st s in
  let s2 :=
    match st with
    | CsConnected => watchAudioLevel (l_peer l) audioOk s1
    | _ => s1
    end in
  let s3 :=
    match st with
    | CsFailed =>
        if l_iAmInitiator l && negb (pc_isClosed (getPc (l_pc l) s2))
        then
          updPc (l_pc l) (pc_log (CreateOffer true))
            (updPc (l_pc l) (pc_log RestartIce) s2)
        else s2
    | _ => s2
    end in
  match st with
  | CsClosed => removePeer (l_peer l) s3
  | _ => s3
  end.

(** The [then] callback of the restart offer. *)
Definition restartOfferCreated (l : Link) (o : SDP) (s : State) : State :=
  dbWrite (DbSet (offerPath l) (VSdp o))
    (updPc (l_pc l) (pc_setLocalDescription o) s).

(** *** Roster events *)

(** [participantsRef.on('child_added', ...)]; [key] is [snap.key]. *)
Definition onChildAdded (key : jsstring) (s : State) : State * option Link :=
  if str_eqb key (username s) || truthyAt (peerConns (vars s)) key
  then (s, None)
  else
    connectToPeer key (roomText (callRoom (vars s)))
      (amInitiator (username s) key) s.

(** [participantsRef.on('child_removed', ...)]. *)
Definition onChildRemoved (key : jsstring) (s : State) : State :=
  removePeer key s.

(** Events that reach the roster and the mapping of connections during a
    call. *)
Inductive Event :=
  | EvJoin (media : MediaStream + jsstring)
  | EvChildAdded (key : jsstring)
  | EvChildRemoved (key : jsstring)
  | EvConnState (l : Link) (st : ConnState) (audioOk : bool)
  | EvLeave.

Definition step (e : Event) (s : State) : State :=
  match e with
  | EvJoin media => startJoin media s
  | EvChildAdded key => (onChildAdded key s).1
  | EvChildRemoved key => onChildRemoved key s
  | EvConnState l st ok => onconnectionstatechange l st ok s
  | EvLeave => leaveCall s
  end.

Definition run (es : list Event) (s : State) : State :=
  foldl (fun acc e => step e acc) s es.

(** The runs of one listener of remote candidates on the candidates
    [cs], one after the other; [None] when a run stopped on the
    [TypeError]. *)
Definition listenerRuns (l : Link) (cs : list Candidate) (s : State)
    : option State :=
  foldl (fun acc c => acc ≫= onRemoteIce l (Some c)) (Some s) cs.

(** *** Events of the signalling store

    The store runs every listener installed at the location of an event,
    in the order of installation.  [removePeer] detaches none of the
    listeners [connectToPeer] installed; [leaveCall] detaches those of the
    roster only. *)

Definition icePath (l : Link) : jsstring :=
  l_connPath l ++ lit "/" ++ theirIceKey (l_iAmInitiator l).

(** The listeners of remote candidates installed at [path]. *)
Definition iceListenersAt (path : jsstring) (s : State) : list Link :=
  omap (fun sb =>
          match sub_handler sb, sub_event sb with
          | HRemoteIce l, ChildAdded =>
              if str_eqb (sub_path sb) path then Some l else None
          | _, _ => None
          end) (subs (plat s)).

(** A candidate pushed under [path]: each listener runs on the state the
    one before it left; a listener that throws has changed nothing. *)
Definition iceArrival (path : jsstring) (c : Candidate) (s : State) : State :=
  foldl (fun acc l => default acc (onRemoteIce l (Some c) acc)) s
    (iceListenersAt path s).

Definition iceArrivals (path : jsstring) (cs : list Candidate) (s : State)
    : State :=
  foldl (fun acc c => iceArrival path c acc) s cs.

(** The listeners of the answer installed at [path], and an answer
    written there. *)
Definition answerListenersAt (path : jsstring) (s : State) : list Link :=
  omap (fun sb =>
          match sub_handler sb, sub_event sb with
          | HAnswer l, Value =>
              if str_eqb (sub_path sb) path then Some l else None
          | _, _ => None
          end) (subs (plat s)).

Definition answerArrival (path : jsstring) (val : option SDP) (s : State)
    : State :=
  foldl (fun acc l => onAnswer l val acc) s (answerListenersAt path s).

(** Number of [createOffer()] calls received by a connection. *)
Definition pc_offers (pc : PeerConn) : nat :=
  length (List.filter
            (fun c => match c with CreateOffer _ => true | _ => false end)
            (pc_calls pc)).

(** Everything [removePeer] leaves alone. *)
Definition sameSession (s s' : State) : Prop :=
  db s' = db s /\ username s' = username s /\ currentRoom s' = currentRoom s
  /\ localStream (vars s') = localStream (vars s)
  /\ screenStream (vars s') = screenStream (vars s)
  /\ callRoom (vars s') = callRoom (vars s)
  /\ participantsRef (vars s') = participantsRef (vars s)
  /\ stopped (plat s') = stopped (plat s)
  /\ dbLog (plat s') = dbLog (plat s)
  /\ subs (plat s') = subs (plat s)
  /\ alerts (page s') = alerts (page s).

(** What the handlers keep true of the page and the connection objects:
    tile ids are unique, and every identity of the mapping has its
    connection object and its tile. *)
Definition wellFormed (s : State) : Prop :=
  uniqueTiles (videoGrid (page s)) = true
  /\ forall p id, peerConns (vars s) !! p = Some id ->
       is_Some (heap (plat s) !! id)
       /\ hasTile p (videoGrid (page s)) = true.

(** Number of offers written to [path]. *)
Definition offerWrites (path : jsstring) (log : list DbOp) : nat :=
  length (List.filter
            (fun o => match o with
                      | DbSet p (VSdp d) =>
                          str_eqb p path
                          && match sdp_type d with Offer => true | _ => false end
                      | _ => false
                      end) log).

(** *** A small call

    A user logged in as [user], looking at room [general], who has joined
    the call of that room with a camera stream of two tracks. *)
Definition camera : MediaStream := mkStream [0; 1]%nat.

Definition loggedIn (user : jsstring) : State :=
  mkState true user (lit "general") initVars initPage initPlatform.

Definition inRoom (user : jsstring) : State :=
  startJoin (inl camera) (loggedIn user).

(** The closure context of the connection [bob] opens to [alice], and a
    few candidates and session descriptions. *)
Definition aliceLink : Link :=
  mkLink (lit "alice") 0%nat true
    (connPathOf (lit "bob") (lit "alice") (lit "general") true).
Definition cand1 : Candidate := lit "candidate:1 udp host".
Definition cand2 : Candidate := lit "candidate:2 udp srflx".
Definition cand3 : Candidate := lit "candidate:3 tcp host".
Definition cand4 : Candidate := lit "candidate:4 udp relay".
Definition demoOffer : SDP := mkSDP Offer (lit "v=0 o=alice").
Definition demoAnswer : SDP := mkSDP Answer (lit "v=0 o=bob").
Definition freshPc : PeerConn :=
  mkPc Stable None None [AddTrack 0; AddTrack 1; CreateOffer false].

(** [bob] in the call, after [alice] appeared in the roster. *)
Definition bobWithAlice : State :=
  (onChildAdded (lit "alice") (inRoom (lit "bob"))).1.

(** The connection of [bob] to [alice] fails twice: the first offer is
    published, the connection goes from connecting to failed, the restart
    offer is published, and the connection goes from connecting to failed
    once more. *)
Definition bobOffer : SDP := mkSDP Offer (lit "v=0 o=bob 1").
Definition restartOffer1 : SDP := mkSDP Offer (lit "v=0 o=bob 2").
Definition restartOffer2 : SDP := mkSDP Offer (lit "v=0 o=bob 3").

Definition afterFirstFailure : State :=
  restartOfferCreated aliceLink restartOffer1
    (onconnectionstatechange aliceLink CsFailed true
       (onconnectionstatechange aliceLink CsConnecting true
          (offerCreated aliceLink bobOffer bobWithAlice))).

Definition afterSecondFailure : State :=
  restartOfferCreated aliceLink restartOffer2
    (onconnectionstatechange aliceLink CsFailed true
       (onconnectionstatechange aliceLink CsConnecting true
          afterFirstFailure)).

(** [alice] leaves before she has answered and joins again: [bob], who
    had published his offer, removes her connection and opens a second
    one, whose closures have the context [aliceLink2]; he publishes a
    second offer.  Then one candidate of [alice] arrives, and her
    answer. *)
Definition aliceLink2 : Link :=
  mkLink (lit "alice") 1%nat true
    (connPathOf (lit "bob") (lit "alice") (lit "general") true).
Definition secondOffer : SDP := mkSDP Offer (lit "v=0 o=bob 4").

Definition aliceBack : State :=
  offerCreated aliceLink2 secondOffer
    (onChildAdded (lit "alice")
       (onChildRemoved (lit "alice")
          (offerCreated aliceLink bobOffer bobWithAlice))).1.

Definition aliceBackCandidate : State :=
  iceArrival (icePath aliceLink2) cand1 aliceBack.

Definition aliceBackAnswered : State :=
  answerArrival (answerPath aliceLink2) (Some demoAnswer) aliceBackCandidate.

End Video.

(* ===================================================================== *)
(** ** Channels: names, the room list and its persistence *)
(* ===================================================================== *)

Module Rooms.
Import JS.

(** The class [[a-z0-9-]]. *)
Definition room_char (c : N) : bool :=
  ((97 <=? c) && (c <=? 122)) || ((48 <=? c) && (c <=? 57)) || (c =? 45).

(** [s.replace(/[^a-z0-9-]/g, '-')]. *)
Definition dashify (s : jsstring) : jsstring :=
  List.map (fun c => if room_char c then c else 45) s.

(** [s.replace(/--+/g, '-')] (written [/-{2,}/g] in the Firebase variant):
    a hyphen followed by a hyphen is dropped, so each run keeps its last
    one. *)
Fixpoint collapse (s : jsstring) : jsstring :=
  match s with
  | [] => []
  | c :: s' =>
      if (c =? 45) && match s' with d :: _ => d =? 45 | [] => false end
      then collapse s'
      else c :: collapse s'
  end.

(** [s.replace(/^-|-$/g, '')]: a hyphen at the start and a hyphen at the
    end are removed. *)
Definition dropLeading (s : jsstring) : jsstring :=
  match s with
  | c :: s' => if c =? 45 then s' else s
  | [] => []
  end.

Definition dropTrailing (s : jsstring) : jsstring :=
  rev (dropLeading (rev s)).

Definition stripEnds (s : jsstring) : jsstring := dropTrailing (dropLeading s).

(** [rooms.includes(name)]. *)
Definition includes (name : jsstring) (rooms : list jsstring) : bool :=
  existsb (str_eqb name) rooms.

(** [rooms.filter(r => !DEFAULT_ROOMS.includes(r))]. *)
Definition customRooms (rooms : list jsstring) : list jsstring :=
  List.filter (fun r => negb (includes r Gun.DEFAULT_ROOMS)) rooms.

(** [saved.forEach(r => { if (!rooms.includes(r)) rooms.push(r); })]. *)
Definition pushMissing (saved rooms : list jsstring) : list jsstring :=
  foldl (fun rs r => if includes r rs then rs else rs ++ [r]) rooms saved.

(** What [localStorage] holds under [cs_rooms]: nothing ([Absent], which
    reads as the empty array); text that [JSON.parse] rejects or parses to
    a value without [forEach], where the [catch] takes over ([Corrupt]); or
    an array of strings ([Saved]), which is what [saveCustomRooms] writes.
    An array that holds values other than strings has no term here: the
    script never writes one, and the room list is a list of strings. *)
Inductive Stored := Absent | Corrupt | Saved (l : list jsstring).

(** The Gun variant with the stored room list and the alerts shown. *)
Record State := mkState {
  app : Gun.State;
  cs_rooms : Stored;
  alerts : list jsstring
}.

Definition set_rooms (v : list jsstring) (s : Gun.State) : Gun.State :=
  Gun.mkState (Gun.username s) (Gun.currentRoom s) v (Gun.onlineNow s)
    (Gun.presencePing s) (Gun.intervals s) (Gun.nextTimer s)
    (Gun.ls_username s) (Gun.loginHidden s) (Gun.chatHidden s)
    (Gun.meLabel s) (Gun.inputShaken s) (Gun.userList s) (Gun.onlineCount s)
    (Gun.presenceGraph s).

Definition on_app (f : Gun.State -> Gun.State) (s : State) : State :=
  mkState (f (app s)) (cs_rooms s) (alerts s).

(** [saveCustomRooms]. *)
Definition saveCustomRooms (s : State) : State :=
  mkState (app s) (Saved (customRooms (Gun.rooms (app s)))) (alerts s).

(** [loadCustomRooms]: a missing entry reads as the empty array; anything
    that throws is swallowed. *)
Definition loadCustomRooms (s : State) : State :=
  match cs_rooms s with
  | Absent => s
  | Corrupt => s
  | Saved l => on_app (fun a => set_rooms (pushMissing l (Gun.rooms a)) a) s
  end.

(** The page as the script finds it: default rooms, nothing shown, and
    whatever [localStorage] holds; [boot] then loads the custom rooms. *)
Definition fresh (stored : Stored) : State := mkState Gun.init stored [].

Definition boot (stored : Stored) : State := loadCustomRooms (fresh stored).

Section WithLowerCase.

(** [String.prototype.toLowerCase]. *)
Variable toLowerCase : jsstring -> jsstring.

(** The channel name [createRoom] derives from its input. *)
Definition roomName (raw : jsstring) : jsstring :=
  slice0 30 (stripEnds (collapse (dashify (toLowerCase (trim raw))))).

(** [createRoom(raw)]. *)
Definition createRoom (raw : jsstring) (s : State) : State :=
  let name := roomName raw in
  if negb (truthy name)
  then mkState (app s) (cs_rooms s) (alerts s ++ [lit "Invalid channel name."])
  else if includes name (Gun.rooms (app s))
  then on_app (Gun.joinRoom name) s
  else
    let s1 := on_app (fun a => set_rooms (Gun.rooms a ++ [name]) a) s in
    let s2 := saveCustomRooms s1 in
    on_app (Gun.joinRoom name) s2.

End WithLowerCase.

(** Lower case on the ASCII letters, which is what [toLowerCase] does to
    ASCII text. *)
Definition asciiLower (s : jsstring) : jsstring :=
  List.map (fun c => if (65 <=? c) && (c <=? 90) then c + 32 else c) s.

Definition startsWithHyphen (s : jsstring) : bool :=
  match s with d :: _ => d =? 45 | [] => false end.

Definition endsWithHyphen (s : jsstring) : bool := startsWithHyphen (rev s).

(** No hyphen is followed by a hyphen. *)
Fixpoint noDoubleHyphen (s : jsstring) : bool :=
  match s with
  | [] => true
  | c :: s' =>
      negb ((c =? 45) && match s' with d :: _ => d =? 45 | [] => false end)
      && noDoubleHyphen s'
  end.

(** A room list as the script keeps it: the default rooms first, then the
    custom ones, no name twice. *)
Definition roomsOk (rs : list jsstring) : Prop :=
  (exists cs, rs = Gun.DEFAULT_ROOMS ++ cs) /\ NoDup rs.

(** A visitor whose room list is the default one plus [dev-ops], typing a
    new channel name. *)
Definition withDevOps : State :=
  createRoom asciiLower (lit "Dev Ops") (fresh Absent).

End Rooms.

(* ===================================================================== *)
(** ** Avatar colours and the hexadecimal form of the key digest *)
(* ===================================================================== *)

Module Avatar.
Import JS.

Definition AV_COLOURS : Z := 8.

(** [x & 0xffffffff] on a number whose magnitude stays below 2^53: the
    value modulo 2^32, read as a signed 32-bit integer. *)
Definition toInt32 (x : Z) : Z :=
  ((x + 2147483648) mod 4294967296 - 2147483648)%Z.

(** The loop of [avatarClass]: [h = (h * 31 + name.charCodeAt(i)) &
    0xffffffff], from [h = 0]. *)
Definition hashName (name : jsstring) : Z :=
  foldl (fun h c => toInt32 (h * 31 + Z.of_N c)%Z) 0%Z name.

(** [Math.abs(h) % AV_COLOURS]. *)
Definition avatarIndex (name : jsstring) : Z :=
  (Z.abs (hashName name) mod AV_COLOURS)%Z.

(** ['av-' + n] for the one-digit number [n]. *)
Definition avatarClass (name : jsstring) : jsstring :=
  lit "av-" ++ [Z.to_N (48 + avatarIndex name)].

(** The classes the style sheet defines. *)
Definition avatarClasses : list jsstring :=
  [lit "av-0"; lit "av-1"; lit "av-2"; lit "av-3";
   lit "av-4"; lit "av-5"; lit "av-6"; lit "av-7"].

End Avatar.

Module Digest.
Import JS.

(** One hexadecimal digit, lower case. *)
Definition hexDigit (d : N) : N := if d <? 10 then 48 + d else 87 + d.

(** [b.toString(16)] for an element of a [Uint8Array]. *)
Definition toString16 (b : N) : jsstring :=
  if b <? 16 then [hexDigit b] else [hexDigit (b / 16); hexDigit (b mod 16)].

(** [s.padStart(2, '0')]. *)
Definition padStart2 (s : jsstring) : jsstring :=
  List.repeat 48 (2 - length s) ++ s.

(** [Array.from(bytes).map(b => b.toString(16).padStart(2, '0')).join('')]. *)
Definition hex (bytes : list N) : jsstring :=
  List.concat (List.map (fun b => padStart2 (toString16 b)) bytes).

Definition isHexChar (c : N) : bool :=
  ((48 <=? c) && (c <=? 57)) || ((97 <=? c) && (c <=? 102)).

Definition isByte (b : N) : Prop := b < 256.

Section WithSha256.

(** The SHA-256 digest of the UTF-8 encoding of a string, as bytes. *)
Variable sha256 : jsstring -> list N.

(** [hashKey(key)]. *)
Definition hashKey (key : jsstring) : jsstring := hex (sha256 key).

End WithSha256.

End Digest.

(* ===================================================================== *)
(** ** Messages: cache, ordering, grouping *)
(* ===================================================================== *)

Module Messages.
Import JS.

(** A message [{ text, author, ts }]. *)
Record Msg := mkMsg { m_text : jsstring; m_author : jsstring; m_ts : Z }.

(** A node as a listener receives it.  The text is a string and the time
    stamp an integer, as in every node the application writes.  The
    listeners test [text] and [ts] and nothing else: the [author] of a
    node that somebody else wrote may be missing ([undefined] or
    [null]). *)
Inductive Node :=
  | Authored (m : Msg)
  | Anonymous (text : jsstring) (ts : Z).

Definition n_text (n : Node) : jsstring :=
  match n with Authored m => m_text m | Anonymous t _ => t end.

Definition n_ts (n : Node) : Z :=
  match n with Authored m => m_ts m | Anonymous _ t => t end.

Definition n_author (n : Node) : option jsstring :=
  match n with Authored m => Some (m_author m) | Anonymous _ _ => None end.

Definition isAuthored (n : Node) : bool :=
  match n with Authored _ => true | Anonymous _ _ => false end.

(** [msg.text && msg.ts]: the text is not empty and the time stamp is not
    zero. *)
Definition valid (n : Node) : bool :=
  truthy (n_text n) && negb (n_ts n =? 0)%Z.

(** The per-room cache, an object (Gun) or a [Map] (Firebase) from message
    key to node, given by its entries in the order in which the keys were
    created. *)
Abbreviation Bucket := (list (jsstring * Node)).

(** [cache.set(key, msg)] on a [Map], and the assignment of an own
    property: an existing key keeps its place, a new one goes last. *)
Fixpoint bucketSet (key : jsstring) (n : Node) (b : Bucket) : Bucket :=
  match b with
  | [] => [(key, n)]
  | (k, v) :: b' =>
      if str_eqb k key then (k, n) :: b' else (k, v) :: bucketSet key n b'
  end.

(** [bucket[key] = data] on the object of the Gun variant: under the key
    [__proto__] the node becomes the prototype of the bucket and no
    property is created. *)
Definition objSet (key : jsstring) (n : Node) (b : Bucket) : Bucket :=
  if str_eqb key PROTO then b else bucketSet key n b.

Definition hasKey (key : jsstring) (b : Bucket) : bool :=
  existsb (fun e => str_eqb (fst e) key) b.

(** [xs.sort((a, b) => a.ts - b.ts)]: ascending by time stamp, elements
    with equal time stamps in their original order. *)
Fixpoint insertTs {A : Type} (ts : A -> Z) (x : A) (l : list A) : list A :=
  match l with
  | [] => [x]
  | y :: l' => if (ts x <=? ts y)%Z then x :: l else y :: insertTs ts x l'
  end.

Definition sortTs {A : Type} (ts : A -> Z) (l : list A) : list A :=
  foldr (insertTs ts) [] l.

(** [Object.values(bucket)]: the values of the keys that are array
    indices, in ascending order of index, then the values of the other
    keys in the order in which the keys were created. *)
Definition isIndex (e : jsstring * Node) : bool :=
  match arrayIndex (fst e) with Some _ => true | None => false end.

Definition indexOf (e : jsstring * Node) : Z :=
  match arrayIndex (fst e) with Some i => Z.of_N i | None => 0%Z end.

Definition objectValues (b : Bucket) : list Node :=
  List.map snd (sortTs indexOf (List.filter isIndex b))
    ++ List.map snd (List.filter (fun e => negb (isIndex e)) b).

(** Children of the message container. *)
Inductive Row :=
  | Placeholder (text : jsstring)
  | DayDivider (label : jsstring)
  | MsgRow (m : Msg) (grouped : bool).

Definition msgsOf (rows : list Row) : list Msg :=
  omap (fun r => match r with MsgRow m _ => Some m | _ => None end) rows.

(** The messages at the head of a list of nodes, up to the first node
    without author. *)
Fixpoint authoredPrefix (l : list Node) : list Msg :=
  match l with
  | Authored m :: l' => m :: authoredPrefix l'
  | _ => []
  end.

Definition GROUP_WINDOW : Z := 300000.

Definition noMessages : Row := Placeholder (lit "No messages yet. Say hello!").

(** [lastAuthor === msg.author], where [lastAuthor] may be [null]. *)
Definition sameAuthor (last : option jsstring) (author : jsstring) : bool :=
  match last with Some a => str_eqb a author | None => false end.

(** [day !== lastDay], where [lastDay] may be [null]. *)
Definition otherDay (last : option jsstring) (day : jsstring) : bool :=
  match last with Some d => negb (str_eqb day d) | None => true end.

Section WithCalendar.

(** [fmtDate]: the day label of a time stamp ([Today], [Yesterday] or the
    date in the reader's locale).  It compares the day of the time stamp
    with the day of [new Date()]: the first argument is the reading of the
    clock, taken once for each run of a handler. *)
Variable fmtDate : Z -> Z -> jsstring.

(** The [forEach] of [renderMessages] and [renderAllMessages], run at
    clock [now] and started with the given [lastAuthor], [lastTs] and
    [lastDay]: the children appended to the container.  On a node without
    author [makeMsgRow] throws, at [avatarClass(msg.author)]: the loop
    ends there, after the divider if one was due, and the exception ends
    the render. *)
Fixpoint rowsFrom (now : Z) (lastAuthor : option jsstring) (lastTs : Z)
    (lastDay : option jsstring) (l : list Node) : list Row :=
  match l with
  | [] => []
  | n :: l' =>
      let day := fmtDate now (n_ts n) in
      let fresh := otherDay lastDay day in
      let divider := if fresh then [DayDivider day] else [] in
      match n with
      | Anonymous _ _ => divider
      | Authored m =>
          let lastAuthor1 := if fresh then None else lastAuthor in
          let grouped :=
            sameAuthor lastAuthor1 (m_author m)
            && (m_ts m - lastTs <? GROUP_WINDOW)%Z in
          divider
            ++ MsgRow m grouped
                 :: rowsFrom now (Some (m_author m)) (m_ts m) (Some day) l'
      end
  end.

(** The container after the render of a sorted list: the placeholder when
    the list is empty, the rows of the loop otherwise. *)
Definition rowsOrPlaceholder (now : Z) (sorted : list Node) : list Row :=
  match sorted with
  | [] => [noMessages]
  | _ => rowsFrom now None 0 None sorted
  end.

(** *** Gun variant *)

(** What [renderMessages(room)] leaves in the container, from the bucket
    of the room. *)
Definition renderMessages (now : Z) (bucket : Bucket) : list Row :=
  rowsOrPlaceholder now
    (sortTs n_ts (List.filter valid (objectValues bucket))).

(** The chat pane of the Gun variant: the own properties of [messages],
    the container, and the application state with [currentRoom]. *)
Record Chat := mkChat {
  app : Gun.State;
  messages : gmap jsstring Bucket;
  container : list Row;
  bannerHidden : bool
}.

Definition bucketOf (room : jsstring) (c : Chat) : Bucket :=
  default [] (messages c !! room).

(** [if (!messages[room]) messages[room] = {}].  [messages] is a plain
    object: under a room name that every object inherits ([constructor]
    is one that [createRoom] lets through) and without an own bucket,
    [messages[room]] is a built-in object, the test finds it, and what
    follows reads and writes the properties of that built-in.  This is
    outside the model: the result is [None]. *)
Definition reach (room : jsstring) (msgs : gmap jsstring Bucket)
    : option (gmap jsstring Bucket) :=
  match msgs !! room with
  | Some _ => Some msgs
  | None => if inherited room then None else Some (<[room := []]> msgs)
  end.

(** The callback installed by [subscribeRoom(room)], run at clock [now];
    [data] is the node ([None] when null). *)
Definition onMessage (now : Z) (room key : jsstring) (data : option Node)
    (c : Chat) : option Chat :=
  match data with
  | None => Some c
  | Some n =>
      if negb (valid n) then Some c
      else
        match reach room (messages c) with
        | None => None
        | Some msgs0 =>
            let msgs :=
              <[room := objSet key n (default [] (msgs0 !! room))]> msgs0 in
            let cont :=
              if str_eqb room (Gun.currentRoom (app c))
              then renderMessages now (default [] (msgs !! room))
              else container c in
            Some (mkChat (app c) msgs cont true)
        end
  end.

(** [joinRoom(room)] with its message part: cache entry, render,
    subscription. *)
Definition joinRoom (now : Z) (room : jsstring) (c : Chat) : option Chat :=
  if str_eqb room (Gun.currentRoom (app c)) then Some c
  else
    match reach room (messages c) with
    | None => None
    | Some msgs =>
        Some (mkChat (Gun.joinRoom room (app c)) msgs
                (renderMessages now (default [] (msgs !! room)))
                (bannerHidden c))
    end.

(** What reaches the pane: a node delivered to the listener of a room, or
    a room switch; each with the reading of the clock at that moment. *)
Inductive ChatEvent :=
  | EvMessage (now : Z) (room key : jsstring) (data : option Node)
  | EvJoinRoom (now : Z) (room : jsstring).

Definition eventRoom (e : ChatEvent) : jsstring :=
  match e with EvMessage _ r _ _ => r | EvJoinRoom _ r => r end.

Definition eventTime (e : ChatEvent) : Z :=
  match e with EvMessage t _ _ _ => t | EvJoinRoom t _ => t end.

Definition chatStep (e : ChatEvent) (c : Chat) : option Chat :=
  match e with
  | EvMessage now room key data => onMessage now room key data c
  | EvJoinRoom now room => joinRoom now room c
  end.

Fixpoint chatRun (es : list ChatEvent) (c : Chat) : option Chat :=
  match es with
  | [] => Some c
  | e :: es' =>
      match chatStep e c with
      | Some c' => chatRun es' c'
      | None => None
      end
  end.

(** The pane shows the cache of the current room, as rendered at clock
    [t]. *)
Definition showsCurrentRoom (t : Z) (c : Chat) : Prop :=
  container c = renderMessages t (bucketOf (Gun.currentRoom (app c)) c).

(** *** Firebase variant *)

(** [sortedMessages(room)]: the entries of the cache by time stamp. *)
Definition sortedMessages (cache : Bucket) : Bucket :=
  sortTs (fun e => n_ts (snd e)) cache.

(** [renderAllMessages(room)]. *)
Definition renderAllMessages (now : Z) (cache : Bucket) : list Row :=
  rowsOrPlaceholder now (List.map snd (sortedMessages cache)).

(** [container.querySelector('.messages-placeholder')?.remove()]. *)
Fixpoint removePlaceholder (rows : list Row) : list Row :=
  match rows with
  | [] => []
  | Placeholder _ :: rows' => rows'
  | r :: rows' => r :: removePlaceholder rows'
  end.

(** [sorted.findIndex(([k]) => k === key)] followed by
    [idx > 0 ? sorted[idx - 1][1] : null]. *)
Fixpoint entryBefore (key : jsstring) (prev : option Node) (sorted : Bucket)
    : option Node :=
  match sorted with
  | [] => None
  | (k, v) :: sorted' =>
      if str_eqb k key then prev else entryBefore key (Some v) sorted'
  end.

(** [appendMessage(key, msg, cache)] on the container, run at clock
    [now].  For a node without author the divider, if one is due, is
    appended before [makeMsgRow] throws. *)
Definition appendMessage (now : Z) (key : jsstring) (msg : Node)
    (cache : Bucket) (rows : list Row) : list Row :=
  let rows1 := removePlaceholder rows in
  let prev := entryBefore key None (sortedMessages cache) in
  let day := fmtDate now (n_ts msg) in
  let prevDay := option_map (fun p => fmtDate now (n_ts p)) prev in
  let divider := if otherDay prevDay day then [DayDivider day] else [] in
  match msg with
  | Anonymous _ _ => rows1 ++ divider
  | Authored m =>
      let grouped :=
        match prev with
        | Some p =>
            sameAuthor (n_author p) (m_author m)
            && (m_ts m - n_ts p <? GROUP_WINDOW)%Z
        | None => false
        end in
      rows1 ++ divider ++ [MsgRow m grouped]
  end.

(** The [child_added] handler of [subscribeRoom] for the room on screen,
    after the first load ([initial] is false), run at clock [now]: the
    node is cached and appended.  The cache is the [Map] the handler
    closed over. *)
Definition onChildAdded (now : Z) (key : jsstring) (data : option Node)
    (st : Bucket * list Row) : Bucket * list Row :=
  match data with
  | None => st
  | Some n =>
      if negb (valid n) then st
      else
        let cache := bucketSet key n (fst st) in
        (cache, appendMessage now key n cache (snd st))
  end.

End WithCalendar.

(** The rows follow the rules of the pane under the day labels [label],
    when read after the message [prev]: a divider carries the day of the
    message that follows it, which is then not grouped and belongs to
    another day than [prev]; a message without a divider belongs to the
    day of the one before and is grouped exactly when it has the same
    author less than five minutes later; there is no placeholder and no
    divider without a message. *)
Fixpoint wellGrouped (label : Z -> jsstring) (prev : option Msg)
    (rows : list Row) : Prop :=
  match rows with
  | [] => True
  | DayDivider d :: MsgRow m g :: rest =>
      d = label (m_ts m) /\ g = false
      /\ (forall p, prev = Some p -> label (m_ts p) <> d)
      /\ wellGrouped label (Some m) rest
  | MsgRow m g :: rest =>
      (exists p, prev = Some p
                 /\ label (m_ts p) = label (m_ts m)
                 /\ (g = true <->
                       m_author p = m_author m
                       /\ (m_ts m - m_ts p < GROUP_WINDOW)%Z))
      /\ wellGrouped label (Some m) rest
  | _ => False
  end.

(** A message by the author of the latest node, less than five minutes
    later, on another day under the day labels [label]. *)
Definition acrossMidnight (label : Z -> jsstring) (cache : Bucket) (m : Msg)
    : Prop :=
  exists p, last (List.map snd (sortedMessages cache)) = Some p
            /\ n_author p = Some (m_author m)
            /\ (m_ts m - n_ts p < GROUP_WINDOW)%Z
            /\ label (n_ts p) <> label (m_ts m).

(** A calendar for examples: one day is 86 400 000 ms; the day of the
    clock is [Today], the day before it [Yesterday], any other day is
    labelled by the last digit of its number. *)
Definition DAY : Z := 86400000.

Definition dayNumber (ts : Z) : jsstring :=
  [Z.to_N (48 + (ts / DAY) mod 10)].

Definition relDay (now ts : Z) : jsstring :=
  if (ts / DAY =? now / DAY)%Z then lit "Today"
  else if (ts / DAY =? now / DAY - 1)%Z then lit "Yesterday"
  else dayNumber ts.

(** A pane on room [general] that has received two messages, and a third
    message arriving. *)
Definition hello : Msg := mkMsg (lit "hello") (lit "alice") 1000.
Definition again : Msg := mkMsg (lit "anyone?") (lit "alice") 61000.
Definition reply : Msg := mkMsg (lit "hi alice") (lit "bob") 62000.
Definition emptyChat : Chat := mkChat Gun.init ∅ [] false.
Definition twoMessages : Bucket :=
  [(lit "k1", Authored hello); (lit "k2", Authored again)].

(** A node that somebody else wrote without an author. *)
Definition stray : Node := Anonymous (lit "psst") 500.

End Messages.

(* ===================================================================== *)
(** ** Escaping and links in message text *)
(* ===================================================================== *)

Module Markup.
Import JS.

(** [esc(str)]: the [innerHTML] of an element holding [str] as its only
    text node.  The serialisation of text replaces [&], [<], [>] and the
    no-break space by entities. *)
Definition escChar (c : N) : jsstring :=
  if c =? 38 then lit "&amp;"
  else if c =? 60 then lit "&lt;"
  else if c =? 62 then lit "&gt;"
  else if c =? 160 then lit "&nbsp;"
  else [c].

Definition esc (s : jsstring) : jsstring := List.concat (List.map escChar s).

(** The class of the link pattern: anything but white space, [&], the
    double quote, [<] and [>]. *)
Definition urlChar (c : N) : bool :=
  negb (is_ws c || (c =? 38) || (c =? 34) || (c =? 60) || (c =? 62)).

Fixpoint startsWith (p s : jsstring) : bool :=
  match p, s with
  | [], _ => true
  | a :: p', b :: s' => (a =? b) && startsWith p' s'
  | _ :: _, [] => false
  end.

Fixpoint takeWhile (f : N -> bool) (s : jsstring) : jsstring :=
  match s with
  | c :: s' => if f c then c :: takeWhile f s' else []
  | [] => []
  end.

(** The length of the match of the link pattern at the start of
    [s], when there is one: the scheme, then as many characters of the
    class as follow, at least one. *)
Definition matchUrl (s : jsstring) : option nat :=
  let scheme :=
    if startsWith (lit "http://") s then Some 7%nat
    else if startsWith (lit "https://") s then Some 8%nat
    else None in
  match scheme with
  | Some p =>
      match length (takeWhile urlChar (skipn p s)) with
      | O => None
      | S n => Some (p + S n)%nat
      end
  | None => None
  end.

(** The pieces [replace] cuts the text into: single characters outside a
    match, and matches. *)
Inductive Seg := Text (c : N) | Link (url : jsstring).

(** The scan of the global pattern from left to right; [skip] counts the
    characters still covered by the last match. *)
Fixpoint scan (s : jsstring) (skip : nat) : list Seg :=
  match s with
  | [] => []
  | c :: s' =>
      match skip with
      | S k => scan s' k
      | O =>
          match matchUrl s with
          | Some (S n) => Link (firstn (S n) s) :: scan s' n
          | _ => Text c :: scan s' 0
          end
      end
  end.

(** The replacement of a match: an [a] element with the match as [href]
    and as content, [target] [_blank] and [rel] [noopener noreferrer]. *)
Definition anchor (url : jsstring) : jsstring :=
  lit "<a href=" ++ [34] ++ url ++ [34]
    ++ lit " target=" ++ [34] ++ lit "_blank" ++ [34]
    ++ lit " rel=" ++ [34] ++ lit "noopener noreferrer" ++ [34]
    ++ lit ">" ++ url ++ lit "</a>".

Definition renderSeg (g : Seg) : jsstring :=
  match g with Text c => [c] | Link u => anchor u end.

(** [linkify(html)]. *)
Definition linkify (html : jsstring) : jsstring :=
  List.concat (List.map renderSeg (scan html 0)).

(** The text under the markup: links give their address back. *)
Definition plainSeg (g : Seg) : jsstring :=
  match g with Text c => [c] | Link u => u end.

Definition plain (gs : list Seg) : jsstring :=
  List.concat (List.map plainSeg gs).

(** A link as the pattern allows it: [http://] or [https://], then at
    least one character, none of them white space, [&], a double quote,
    [<] or [>]. *)
Definition linkOk (url : jsstring) : Prop :=
  exists scheme body,
    url = scheme ++ body
    /\ (scheme = lit "http://" \/ scheme = lit "https://")
    /\ body <> []
    /\ List.Forall (fun c => urlChar c = true) url.

(** A piece that cannot open or close a tag or an attribute by itself. *)
Definition segOk (g : Seg) : Prop :=
  match g with
  | Text c => c <> 60 /\ c <> 62
  | Link u => linkOk u
  end.

End Markup.

(* ===================================================================== *)
(** ** A call as a whole: every callback video.js installs *)
(* ===================================================================== *)

Module Call.
Import JS Video.

(** What can run while the page is open: the roster events and the
    callbacks of the connections created so far, each with the closure
    context it was created in. *)
Inductive Callback :=
  | OnRoster (e : Event)
  | OnTrack (l : Link)
  | OnIceCandidate (l : Link) (c : option Candidate)
  | OnRemoteIce (l : Link) (c : option Candidate)
  | OnOfferCreated (l : Link) (offer : SDP)
  | OnAnswer (l : Link) (val : option SDP)
  | OnOffer (l : Link) (val : option SDP)
  | OnAnswerCreated (l : Link) (answer : SDP)
  | OnRestartOffer (l : Link) (o : SDP).

(** One callback.  The listener of remote candidates that runs into the
    [TypeError] has changed nothing before it throws. *)
Definition deliver (c : Callback) (s : State) : State :=
  match c with
  | OnRoster e => step e s
  | OnTrack l => onTrack l s
  | OnIceCandidate l c => onIceCandidate l c s
  | OnRemoteIce l c => default s (onRemoteIce l c s)
  | OnOfferCreated l offer => offerCreated l offer s
  | OnAnswer l val => onAnswer l val s
  | OnOffer l val => onOffer l val s
  | OnAnswerCreated l answer => answerCreated l answer s
  | OnRestartOffer l o => restartOfferCreated l o s
  end.

Definition deliverAll (cs : list Callback) (s : State) : State :=
  foldl (fun acc c => deliver c acc) s cs.

(** A tile that belongs to the local user or to a peer of the mapping. *)
Definition ownedTile (s : State) (t : Tile) : Prop :=
  tile_id t = tileId (lit "__local__")
  \/ exists p, is_Some (peerConns (vars s) !! p) /\ tile_id t = tileId p.

(** The counter is the number of tiles, except after the grid was cleared
    on leaving. *)
Definition counterInv (s : State) : Prop :=
  callCount (page s) = length (videoGrid (page s))
  \/ (videoGrid (page s) = [] /\ inCall s = false).

Definition gridInv (s : State) : Prop :=
  wellFormed s
  /\ (forall t, In t (videoGrid (page s)) -> ownedTile s t)
  /\ counterInv s.

(** A connection keeps its negotiated remote description. *)
Definition keepsRemote (pc pc' : PeerConn) : Prop :=
  is_Some (pc_currentRemoteDescription pc) ->
  is_Some (pc_currentRemoteDescription pc').

(** The connection objects from [s] to [s']: objects stay, keep their
    negotiated description, and new ones take fresh identities. *)
Definition heapGrows (s s' : State) : Prop :=
  (nextObj (plat s) <= nextObj (plat s'))%nat
  /\ forall j,
       match heap (plat s) !! j, heap (plat s') !! j with
       | Some pc, Some pc' => keepsRemote pc pc'
       | None, None => True
       | None, Some _ =>
           (nextObj (plat s) <= j)%nat /\ (j < nextObj (plat s'))%nat
       | Some _, None => False
       end.

(** Callbacks that leave the roster and the grid alone. *)
Definition quiet (s s' : State) : Prop :=
  peerConns (vars s') = peerConns (vars s)
  /\ callRoom (vars s') = callRoom (vars s)
  /\ videoGrid (page s') = videoGrid (page s)
  /\ callCount (page s') = callCount (page s)
  /\ heapGrows s s'.

(** Identities in use are below the next one to be given out. *)
Definition freshIds (s : State) : Prop :=
  forall k, is_Some (heap (plat s) !! k) -> (k < nextObj (plat s))%nat.

(** From [s] to [s'] every connection object stays and keeps its
    negotiated description. *)
Definition keepsAll (s s' : State) : Prop :=
  forall j pc, heap (plat s) !! j = Some pc ->
    exists pc', heap (plat s') !! j = Some pc' /\ keepsRemote pc pc'.

(** [bob] has published his offer and received the answer of [alice]. *)
Definition bobNegotiated : list Callback :=
  [OnRoster (EvJoin (inl camera)); OnRoster (EvChildAdded (lit "alice"));
   OnOfferCreated aliceLink bobOffer; OnAnswer aliceLink (Some demoAnswer)].

End Call.

(* ===================================================================== *)
(** ** Sending a message *)
(* ===================================================================== *)

Module Send.
Import JS Messages.

(** What is written to the room: the room, the key of the node and the
    node. *)
Record Sent := mkSent { to_room : jsstring; sent_key : jsstring; node : Msg }.

(** The outcome of one [sendMessage()]: the value of the input field
    afterwards, whether the send button was disabled for a moment, and
    what was written. *)
Record Outcome := mkOutcome {
  field : jsstring;
  buttonHeld : bool;
  sent : option Sent
}.

(** [sendMessage()] of the Gun variant.  [input] is the value of the input
    field, [now] the clock (one reading for the handler), [rand] what
    [Math.random().toString(36).slice(2, 7)] gives; the key of the node is
    [Date.now().toString(36)] followed by [rand]. *)
Definition sendMessage (now : Z) (rand input : jsstring) (s : Gun.State)
    : Outcome :=
  let text := trim input in
  if negb (truthy text) || negb (truthy (Gun.currentRoom s))
  then mkOutcome input false None
  else
    let id := toString36 now ++ rand in
    mkOutcome [] false
      (Some (mkSent (Gun.currentRoom s) id (mkMsg text (Gun.username s) now))).

(** [sendMessage()] of the Firebase variant.  [key] is the key [push]
    creates, [serverNow] the time the server puts in place of
    [ServerValue.TIMESTAMP]. *)
Definition sendMessageFb (serverNow : Z) (key input : jsstring)
    (s : Firebase.State) : Outcome :=
  let text := trim input in
  if negb (truthy text) || negb (truthy (Firebase.currentRoom s))
     || negb (Firebase.db s)
  then mkOutcome input false None
  else
    mkOutcome [] true
      (Some (mkSent (Firebase.currentRoom s) key
               (mkMsg text (Firebase.username s) serverNow))).

End Send.

(* ===================================================================== *)
(** ** Firebase variant: presence across a reconnection *)
(* ===================================================================== *)

Module FbPresence.
Import JS Firebase.

(** The session together with the references for which the server holds
    an [onDisconnect] update. *)
Record Live := mkLive { fb : State; armed : list jsstring }.

(** The listener of [.info/connected] installed by one [startPresence],
    for a connection that is up; [ref] is the reference it closed over,
    [now] the time the server writes.  The node it sets carries the
    username of the moment. *)
Definition connectedListener (now : Z) (ref : jsstring) (l : Live) : Live :=
  mkLive
    (set_presence
       (<[ref := mkPresence (username (fb l)) true now]> (presence (fb l)))
       (presenceRefs (fb l)) (fb l))
    (armed l ++ [ref]).

(** A change of [.info/connected]: every installed listener runs, in the
    order of installation, and returns at once when the value is false. *)
Definition onConnected (now : Z) (connected : bool) (l : Live) : Live :=
  if negb connected then l
  else foldl (fun acc ref => connectedListener now ref acc) l
         (presenceRefs (fb l)).

(** [renderOnlineUsers(presenceData)]: the nodes listed, then the names
    shown and the count. *)
Definition onlineNodes (data : gmap jsstring Presence) : list Presence :=
  List.filter (fun u => p_online u && truthy (p_username u))
    (map_to_list data).*2.

Definition renderOnlineUsers (data : gmap jsstring Presence)
    : list jsstring * nat :=
  (List.map p_username (onlineNodes data), length (onlineNodes data)).

(** [bob] logged in with his key. *)
Definition bobLoggedIn : State :=
  doLogin demoDigest demoEnv (lit "bob") (lit "hunter2") demoDirectory.

End FbPresence.

(* ===================================================================== *)
(** ** Properties of the string operations *)
(* ===================================================================== *)

Module JSFacts.
Import JS.

Lemma str_eqb_eq (x y : jsstring) : str_eqb x y = true <-> x = y.
Proof.
  revert y. induction x as [|a x IH]; intros [|b y]; simpl;
    try (split; congruence).
  rewrite andb_true_iff, N.eqb_eq, IH. split.
  - intros [-> ->]. reflexivity.
  - intros [= -> ->]. auto.
Qed.

Lemma str_eqb_refl (x : jsstring) : str_eqb x x = true.
Proof. now apply str_eqb_eq. Qed.

Lemma str_eqb_neq (x y : jsstring) : str_eqb x y = false <-> x <> y.
Proof.
  rewrite <- str_eqb_eq. destruct (str_eqb x y); split; congruence.
Qed.

Lemma truthy_false (x : jsstring) : truthy x = false <-> x = [].
Proof. destruct x; simpl; split; congruence. Qed.

Lemma truthy_true (x : jsstring) : truthy x = true <-> x <> [].
Proof. destruct x; simpl; split; congruence. Qed.

(** *** Facts about the comparison *)

Lemma str_lt_irrefl (x : jsstring) : str_lt x x = false.
Proof.
  induction x as [|a x IH]; [reflexivity|].
  simpl. rewrite N.ltb_irrefl. exact IH.
Qed.

Lemma str_lt_asym (x y : jsstring) : str_lt x y = true -> str_lt y x = false.
Proof.
  revert y. induction x as [|a x IH]; intros [|b y]; simpl; try congruence.
  destruct (a <? b) eqn:Hab, (b <? a) eqn:Hba; try congruence.
  - apply N.ltb_lt in Hab, Hba. lia.
  - apply IH.
Qed.

Lemma str_lt_total (x y : jsstring) :
  x <> y -> str_lt x y = true \/ str_lt y x = true.
Proof.
  revert y. induction x as [|a x IH]; intros [|b y] Hne; simpl.
  - congruence.
  - now left.
  - now right.
  - destruct (a <? b) eqn:Hab; [now left|].
    destruct (b <? a) eqn:Hba; [now right|].
    apply N.ltb_ge in Hab, Hba.
    assert (a = b) by lia. subst b.
    apply IH. intros ->. now apply Hne.
Qed.

Lemma str_gt_exactly_one (x y : jsstring) :
  x <> y -> str_gt x y = negb (str_gt y x).
Proof.
  intros Hne. unfold str_gt.
  destruct (str_lt_total x y Hne) as [H|H].
  - rewrite H. now rewrite (str_lt_asym _ _ H).
  - rewrite H. now rewrite (str_lt_asym _ _ H).
Qed.

(** *** Facts about the username filter *)

Lemma sanitizeName_length (raw : jsstring) :
  (length (sanitizeName raw) <= 24)%nat.
Proof. unfold sanitizeName, slice0. apply firstn_le_length. Qed.

Lemma sanitizeName_chars (raw : jsstring) :
  List.Forall (fun c => name_char c = true) (sanitizeName raw).
Proof.
  unfold sanitizeName, slice0, strip_name.
  apply Forall_take, List.Forall_forall. intros c Hc.
  apply List.filter_In in Hc. tauto.
Qed.

(** *** The operations on a few inputs *)

Example str_gt_bob_alice :
  str_gt (lit "bob") (lit "alice") = true
  /\ str_gt (lit "alice") (lit "bob") = false.
Proof. split; reflexivity. Qed.

Example str_gt_prefix :
  str_gt (lit "alice") (lit "al") = true
  /\ str_gt (lit "al") (lit "alice") = false.
Proof. split; reflexivity. Qed.

Example str_gt_case : str_gt (lit "Zed") (lit "alice") = false.
Proof. reflexivity. Qed.

Example sanitizeName_strips : sanitizeName (lit "  bob! ") = lit "bob".
Proof. reflexivity. Qed.

Example sanitizeName_inner_space :
  sanitizeName (lit "<b>Al Ice</b>") = lit "bAl Iceb".
Proof. reflexivity. Qed.

Example sanitizeName_tabs :
  sanitizeName [9; 97; 9; 98; 32; 32] = lit "ab".
Proof. reflexivity. Qed.

Example sanitizeName_nothing_left : sanitizeName (lit " !?! ") = [].
Proof. reflexivity. Qed.

Example sanitizeName_truncates :
  sanitizeName (lit "abcdefghijklmnopqrstuvwxyz0123456789")
  = lit "abcdefghijklmnopqrstuvwx".
Proof. reflexivity. Qed.

Lemma sanitizeName_valid (raw : jsstring) :
  sanitizeName raw <> [] -> validName (sanitizeName raw).
Proof.
  intros H. repeat split; auto using sanitizeName_length, sanitizeName_chars.
Qed.

(** *** Keys built by [toString(36)] *)

Lemma digit36_not_underscore (d : N) : (digit36 d =? 95) = false.
Proof.
  unfold digit36. destruct (d <? 10) eqn:E; apply N.eqb_neq.
  - apply N.ltb_lt in E. lia.
  - apply N.ltb_ge in E. lia.
Qed.

Lemma digits36_head (fuel : nat) (n : N) (rest : jsstring) :
  startsWithUnderscore rest = false ->
  startsWithUnderscore (digits36 fuel n ++ rest) = false.
Proof.
  revert n rest. induction fuel as [|f IH]; intros n rest H; [exact H|].
  cbn [digits36]. rewrite <- app_assoc. cbn [app].
  assert (Hd : startsWithUnderscore (digit36 (n mod 36) :: rest) = false)
    by apply digit36_not_underscore.
  destruct (n <? 36); [exact Hd|]. now apply IH.
Qed.

Lemma toString36_head (z : Z) (rest : jsstring) :
  startsWithUnderscore (toString36 z ++ rest) = false.
Proof.
  unfold toString36. cbv zeta. rewrite <- app_assoc.
  destruct (z <? 0)%Z; [reflexivity|]. cbn [app digits36].
  rewrite <- app_assoc. cbn [app].
  assert (Hd : startsWithUnderscore
                 (digit36 (Z.abs_N z mod 36) :: rest) = false)
    by apply digit36_not_underscore.
  destruct (Z.abs_N z <? 36); [exact Hd|]. now apply digits36_head.
Qed.

(** A key that starts with the clock in base 36 is never [__proto__]. *)
Lemma toString36_not_proto (z : Z) (rest : jsstring) :
  toString36 z ++ rest <> PROTO.
Proof.
  intros E. apply (f_equal startsWithUnderscore) in E.
  rewrite toString36_head in E. vm_compute in E. discriminate.
Qed.

Example toString36_examples :
  toString36 1700000000000 = lit "loyw3v28"
  /\ toString36 0 = lit "0" /\ toString36 35 = lit "z"
  /\ toString36 36 = lit "10" /\ toString36 (-71) = lit "-1z".
Proof. vm_compute. repeat split. Qed.

End JSFacts.

(* ===================================================================== *)
(** ** Presence in the Gun variant *)
(* ===================================================================== *)

Module GunSpec.
Import JS JSFacts Gun.






End GunSpec.

(* ===================================================================== *)
(** ** Login against the account directory (Firebase variant) *)
(* ===================================================================== *)

Module FirebaseSpec.
Import JS JSFacts Firebase.

(** C9, the claim as stated, fails on the key as it is provided:
    [doLogin] hashes [rawKey.trim()].  [bob] is registered with the key
    [hunter2]; the key provided has a blank on each side, its digest is not
    the stored [keyHash], and the login goes through: the session username
    is set, the chat replaces the login screen, and the record is written
    again with the time of this login. *)
Lemma padded_key_logs_in :
  let s' := doLogin demoDigest demoEnv (lit "bob") (lit " hunter2 ")
              demoDirectory in
  users demoDirectory !! lit "bob" = Some bobAccount
  /\ a_keyHash bobAccount <> demoDigest (lit " hunter2 ")
  /\ username demoDirectory = []
  /\ username s' = lit "bob"
  /\ loginHidden s' = true
  /\ chatHidden s' = false
  /\ users s' !! lit "bob"
     = Some (mkAccount (lit "bob") (demoDigest (lit "hunter2")) 1000 5000).
Proof.
  cbv zeta. split; [vm_compute; reflexivity|].
  split; [vm_compute; discriminate|].
  vm_compute. repeat split.
Qed.

(** C9, amended: the key that counts is the provided key trimmed of the
    white space around it.  When the directory holds a record for the
    sanitized name and the digest of the trimmed key differs from the
    stored [keyHash], [doLogin] reports the wrong key as an error,
    re-enables the button, and leaves the directory, the session username,
    the stored username and the two screens as they were. *)
Theorem wrong_key_login_rejected (hashKey : jsstring -> jsstring) (env : Env)
    (rawName rawKey : jsstring) (s : State) (r : Account) :
  e_init_err env = None ->
  e_hash_err env = None ->
  e_get_err env = None ->
  sanitizeName rawName <> [] ->
  trim rawKey <> [] ->
  users s !! sanitizeName rawName = Some r ->
  a_keyHash r <> hashKey (trim rawKey) ->
  let s' := doLogin hashKey env rawName rawKey s in
  users s' = users s
  /\ username s' = username s
  /\ ls_username s' = ls_username s
  /\ loginHidden s' = loginHidden s
  /\ chatHidden s' = chatHidden s
  /\ loginStatus s' =
       (lit "Wrong secret key for " ++ quoted (sanitizeName rawName) ++ lit ".",
        lit "error")
  /\ loginBusy s' = false.
Proof.
  intros Hinit Hhash Hget Hname Hkey Hrec Hne s'. subst s'.
  unfold doLogin, initFirebase.
  apply truthy_true in Hname, Hkey. rewrite Hname, Hkey. cbn [negb].
  rewrite Hinit, Hhash, Hget. cbn [set_db setLoginBusy setLoginStatus users].
  rewrite Hrec.
  apply str_eqb_neq in Hne. rewrite Hne. cbn [negb].
  repeat split.
Qed.

(** The theorem at work: [bob] is registered with the key [hunter2]; a
    login as [ bob! ] with the key [letmein] is turned away. *)
Lemma wrong_key_login_rejected_witness :
  let s' := doLogin demoDigest demoEnv (lit " bob! ") (lit "letmein")
              demoDirectory in
  users s' = users demoDirectory
  /\ username s' = username demoDirectory
  /\ ls_username s' = ls_username demoDirectory
  /\ loginHidden s' = loginHidden demoDirectory
  /\ chatHidden s' = chatHidden demoDirectory
  /\ loginStatus s' =
       (lit "Wrong secret key for " ++ quoted (sanitizeName (lit " bob! "))
          ++ lit ".",
        lit "error")
  /\ loginBusy s' = false.
Proof.
  apply (wrong_key_login_rejected demoDigest demoEnv (lit " bob! ")
           (lit "letmein") demoDirectory bobAccount).
  - reflexivity.
  - reflexivity.
  - reflexivity.
  - vm_compute. discriminate.
  - vm_compute. discriminate.
  - vm_compute. reflexivity.
  - vm_compute. discriminate.
Defined.

End FirebaseSpec.

(* ===================================================================== *)
(** ** Usernames accepted at login and at rename *)
(* ===================================================================== *)

Module LoginSpec.
Import JS JSFacts.

Lemma accepts_keep (old raw : jsstring) : accepts old old raw.
Proof. split; auto. Qed.

Lemma accepts_install (old raw : jsstring) :
  sanitizeName raw <> [] -> accepts old (sanitizeName raw) raw.
Proof.
  intros H. split.
  - right. split; [reflexivity|]. now apply sanitizeName_valid.
  - intros E. now rewrite E in H.
Qed.

Lemma gun_joinRoom_username (r : jsstring) (s : Gun.State) :
  Gun.username (Gun.joinRoom r s) = Gun.username s.
Proof. unfold Gun.joinRoom. now destruct (str_eqb _ _). Qed.

Lemma gun_doLogin_username (now : Z) (raw : jsstring) (s : Gun.State) :
  Gun.username (Gun.doLogin now raw s)
  = if truthy (sanitizeName raw) then sanitizeName raw else Gun.username s.
Proof.
  unfold Gun.doLogin. destruct (truthy (sanitizeName raw)); cbn [negb].
  - destruct (Gun.rooms _) eqn:E; [reflexivity|].
    now rewrite gun_joinRoom_username.
  - reflexivity.
Qed.

Lemma gun_changeName_username (now : Z) (n : jsstring) (s : Gun.State) :
  Gun.username (Gun.changeName now (Some n) s)
  = if truthy (sanitizeName n) then sanitizeName n else Gun.username s.
Proof.
  unfold Gun.changeName. destruct (truthy n) eqn:Hn; cbn [negb].
  - destruct (truthy (sanitizeName n)); reflexivity.
  - apply truthy_false in Hn. subst n. reflexivity.
Qed.

Lemma fb_joinRoom_username (r : jsstring) (s : Firebase.State) :
  Firebase.username (Firebase.joinRoom r s) = Firebase.username s.
Proof. unfold Firebase.joinRoom. now destruct (str_eqb _ _). Qed.

Lemma fb_enterChat_username (name : jsstring) (s : Firebase.State) :
  Firebase.username (Firebase.enterChat name s) = name.
Proof. unfold Firebase.enterChat. now rewrite fb_joinRoom_username. Qed.

Lemma fb_doLogin_username (hashKey : jsstring -> jsstring)
    (env : Firebase.Env) (raw rawKey : jsstring) (s : Firebase.State) :
  Firebase.username (Firebase.doLogin hashKey env raw rawKey s)
    = Firebase.username s
  \/ (sanitizeName raw <> []
      /\ Firebase.username (Firebase.doLogin hashKey env raw rawKey s)
         = sanitizeName raw).
Proof.
  unfold Firebase.doLogin, Firebase.initFirebase.
  destruct (truthy (sanitizeName raw)) eqn:Hn; cbn [negb]; [|now left].
  apply truthy_true in Hn.
  destruct (truthy (trim rawKey)); cbn [negb]; [|now left].
  destruct (Firebase.e_init_err env); [now left|].
  destruct (Firebase.e_hash_err env); [now left|].
  destruct (Firebase.e_get_err env); [now left|].
  match goal with |- context [?m !! ?k] => destruct (m !! k) end.
  - destruct (str_eqb _ _); cbn [negb].
    + right. split; [assumption|]. apply fb_enterChat_username.
    + now left.
  - destruct (Firebase.e_set_err env); [now left|].
    right. split; [assumption|]. apply fb_enterChat_username.
Qed.

Lemma fb_changeName_username (hashKey : jsstring -> jsstring)
    (env : Firebase.Env) (n : jsstring) (key : option jsstring)
    (s : Firebase.State) :
  Firebase.username (Firebase.changeName hashKey env (Some n) key s)
    = Firebase.username s
  \/ (sanitizeName n <> []
      /\ Firebase.username (Firebase.changeName hashKey env (Some n) key s)
         = sanitizeName n).
Proof.
  unfold Firebase.changeName.
  destruct (truthy n); cbn [negb]; [|now left].
  destruct (truthy (sanitizeName n)) eqn:Hn; cbn [negb orb]; [|now left].
  apply truthy_true in Hn.
  destruct (str_eqb _ _); [now left|].
  destruct key as [k|]; [|now left].
  destruct (truthy k); cbn [negb]; [|now left].
  destruct (Firebase.e_hash_err env); [now left|].
  destruct (Firebase.e_get_err env); [now left|].
  match goal with |- context [?m !! ?k] => destruct (m !! k) end.
  - destruct (str_eqb _ _); cbn [negb]; [|now left].
    right. split; [assumption|]. reflexivity.
  - destruct (Firebase.e_set_err env); [now left|].
    right. split; [assumption|]. reflexivity.
Qed.

(** C10: both [doLogin]s and both rename handlers compute the name as
    [raw.trim()] with every code unit outside [[\w\-. ]] removed, cut to 24
    code units.  Each of them either keeps the session username or installs
    that name, which is then non-empty, at most 24 code units long and made
    of word characters, hyphens, dots and spaces only; when the input
    sanitizes to the empty string, or the rename prompt is cancelled, the
    session username stays as it was.  The Gun login installs every
    non-empty sanitized name. *)
Theorem accepted_usernames_sanitized (hashKey : jsstring -> jsstring)
    (now : Z) (env : Firebase.Env) (raw rawKey : jsstring)
    (key : option jsstring) (g : Gun.State) (f : Firebase.State) :
  sanitizeName raw = slice0 24 (strip_name (trim raw))
  /\ accepts (Gun.username g) (Gun.username (Gun.doLogin now raw g)) raw
  /\ accepts (Gun.username g)
       (Gun.username (Gun.changeName now (Some raw) g)) raw
  /\ accepts (Firebase.username f)
       (Firebase.username (Firebase.doLogin hashKey env raw rawKey f)) raw
  /\ accepts (Firebase.username f)
       (Firebase.username (Firebase.changeName hashKey env (Some raw) key f))
       raw
  /\ Gun.changeName now None g = g
  /\ Firebase.changeName hashKey env None key f = f
  /\ (sanitizeName raw <> [] ->
      Gun.username (Gun.doLogin now raw g) = sanitizeName raw).
Proof.
  split; [reflexivity|].
  split; [|split; [|split; [|split; [|split; [|split]]]]].
  - rewrite gun_doLogin_username.
    destruct (truthy (sanitizeName raw)) eqn:H.
    + apply accepts_install. now apply truthy_true.
    + apply accepts_keep.
  - rewrite gun_changeName_username.
    destruct (truthy (sanitizeName raw)) eqn:H.
    + apply accepts_install. now apply truthy_true.
    + apply accepts_keep.
  - destruct (fb_doLogin_username hashKey env raw rawKey f) as [-> | [Hn ->]].
    + apply accepts_keep.
    + now apply accepts_install.
  - destruct (fb_changeName_username hashKey env raw key f) as [-> | [Hn ->]].
    + apply accepts_keep.
    + now apply accepts_install.
  - reflexivity.
  - reflexivity.
  - intros Hn. rewrite gun_doLogin_username.
    apply truthy_true in Hn. now rewrite Hn.
Qed.

End LoginSpec.

(* ===================================================================== *)
(** ** Call orchestration *)
(* ===================================================================== *)

Module VideoSpec.
Import JS JSFacts Video.

(** *** Lookups in objects used as maps *)

Lemma truthyAt_false (V : Type) (m : gmap jsstring V) (k : jsstring) :
  truthyAt m k = false <-> m !! k = None /\ inherited k = false.
Proof.
  unfold truthyAt. destruct (m !! k); split; try discriminate; auto.
  - intros [H _]. discriminate.
  - intros [_ H]. exact H.
Qed.

Lemma truthyAt_own (V : Type) (m : gmap jsstring V) (k : jsstring) :
  is_Some (m !! k) -> truthyAt m k = true.
Proof. intros [v H]. unfold truthyAt. now rewrite H. Qed.

Lemma truthyAt_inherited (V : Type) (m : gmap jsstring V) (k : jsstring) :
  inherited k = true -> truthyAt m k = true.
Proof. intros H. unfold truthyAt. now destruct (m !! k). Qed.

(** *** Frame lemmas *)

Lemma on_plat_set_heap_id (s : State) :
  on_plat (set_heap (heap (plat s))) s = s.
Proof. destruct s as [d u c v pg [h n st lg sb ci cc]]. reflexivity. Qed.

Lemma addPeerTile_vars (p : jsstring) (s : State) :
  vars (addPeerTile p s) = vars s.
Proof. unfold addPeerTile. now destruct (hasTile _ _). Qed.

Lemma addPeerTile_plat (p : jsstring) (s : State) :
  plat (addPeerTile p s) = plat s.
Proof. unfold addPeerTile. now destruct (hasTile _ _). Qed.

Lemma addPeerTile_username (p : jsstring) (s : State) :
  username (addPeerTile p s) = username s.
Proof. unfold addPeerTile. now destruct (hasTile _ _). Qed.

Lemma getPc_updPc (id : nat) (f : PeerConn -> PeerConn) (s : State)
    (pc : PeerConn) :
  heap (plat s) !! id = Some pc -> getPc id (updPc id f s) = f pc.
Proof.
  intros H. unfold getPc, updPc. cbn. now rewrite lookup_alter_eq, H.
Qed.

Lemma getPc_Some (id : nat) (s : State) (pc : PeerConn) :
  heap (plat s) !! id = Some pc -> getPc id s = pc.
Proof. intros H. unfold getPc. now rewrite H. Qed.

Lemma foldl_updPc (A : Type) (f : A -> PeerConn -> PeerConn) (id : nat)
    (xs : list A) (s : State) :
  foldl (fun acc x => updPc id (f x) acc) s xs
  = on_plat (set_heap (foldl (fun h x => alter (f x) id h) (heap (plat s)) xs))
      s.
Proof.
  revert s. induction xs as [|x xs IH]; intros s; cbn [foldl].
  - now rewrite on_plat_set_heap_id.
  - rewrite IH. destruct s as [d u c v pg [h n st lg sb ci cc]]. reflexivity.
Qed.

Lemma foldl_alter_lookup (A : Type) (f : A -> PeerConn -> PeerConn)
    (id : nat) (xs : list A) (h : gmap nat PeerConn) :
  foldl (fun h x => alter (f x) id h) h xs !! id
  = (fun pc => foldl (fun pc x => f x pc) pc xs) <$> h !! id.
Proof.
  revert h. induction xs as [|x xs IH]; intros h; cbn [foldl].
  - now destruct (h !! id).
  - rewrite IH, lookup_alter_eq. now destruct (h !! id).
Qed.

Lemma foldl_alter_lookup_ne (A : Type) (f : A -> PeerConn -> PeerConn)
    (id j : nat) (xs : list A) (h : gmap nat PeerConn) :
  id <> j -> foldl (fun h x => alter (f x) id h) h xs !! j = h !! j.
Proof.
  intros Hne. revert h. induction xs as [|x xs IH]; intros h; cbn [foldl].
  - reflexivity.
  - rewrite IH. now apply lookup_alter_ne.
Qed.

Lemma foldl_pc_log_calls (cs : list PcCall) (pc : PeerConn) :
  foldl (fun pc c => pc_log c pc) pc cs
  = mkPc (pc_signalingState pc) (pc_pendingRemote pc)
      (pc_currentRemoteDescription pc) (pc_calls pc ++ cs).
Proof.
  revert pc. induction cs as [|c cs IH]; intros pc; cbn [foldl].
  - rewrite app_nil_r. now destruct pc.
  - rewrite IH. cbn. now rewrite <- app_assoc.
Qed.

Lemma foldl_addTrack (ts : list nat) (pc : PeerConn) :
  foldl (fun pc t => pc_log (AddTrack t) pc) pc ts
  = foldl (fun pc c => pc_log c pc) pc (List.map AddTrack ts).
Proof.
  revert pc. induction ts as [|t ts IH]; intros pc; [reflexivity|].
  cbn [foldl List.map]. apply IH.
Qed.

(** *** [connectToPeer] on a peer without a connection *)

Lemma connectToPeer_fresh (peer room : jsstring) (init : bool) (s : State)
    (ls : MediaStream) :
  truthyAt (peerConns (vars s)) peer = false ->
  localStream (vars s) = Some ls ->
  exists s',
    connectToPeer peer room init s
    = (s', Some (mkLink peer (nextObj (plat s)) init
                   (connPathOf (username s) peer room init)))
    /\ heap (plat s') !! nextObj (plat s)
       = Some (mkPc Stable None None
                 (List.map AddTrack (ms_tracks ls)
                    ++ if init then [CreateOffer false] else []))
    /\ peerConns (vars s') = <[peer := nextObj (plat s)]> (peerConns (vars s))
    /\ iceQueues (vars s') = <[peer := []]> (iceQueues (vars s))
    /\ username s' = username s.
Proof.
  intros Hnone Hls. unfold connectToPeer. rewrite Hnone.
  rewrite addPeerTile_vars. cbn [on_vars on_plat vars set_iceQueues
    set_peerConns localStream]. rewrite Hls.
  set (id := nextObj (plat s)).
  rewrite (foldl_updPc nat (fun t => pc_log (AddTrack t))).
  rewrite addPeerTile_plat. cbn [on_vars on_plat plat set_nextObj set_heap heap].
  assert (Hh : foldl (fun h x => alter (pc_log (AddTrack x)) id h)
                 (<[id := newPc]> (heap (plat s))) (ms_tracks ls) !! id
               = Some (mkPc Stable None None (List.map AddTrack (ms_tracks ls)))).
  { rewrite foldl_alter_lookup, lookup_insert_eq. cbn [fmap option_fmap option_map].
    f_equal. rewrite foldl_addTrack, foldl_pc_log_calls. reflexivity. }
  destruct init.
  - eexists. split; [reflexivity|].
    cbn. rewrite lookup_alter_eq, Hh. cbn.
    rewrite addPeerTile_username, addPeerTile_vars. cbn. auto.
  - eexists. split; [reflexivity|].
    cbn. rewrite Hh, app_nil_r.
    rewrite addPeerTile_username, addPeerTile_vars. cbn. auto.
Qed.

Lemma onChildAdded_fresh (key : jsstring) (s : State) (ls : MediaStream) :
  key <> username s ->
  truthyAt (peerConns (vars s)) key = false ->
  localStream (vars s) = Some ls ->
  exists s',
    onChildAdded key s
    = (s', Some (mkLink key (nextObj (plat s)) (amInitiator (username s) key)
                   (connPathOf (username s) key (roomText (callRoom (vars s)))
                      (amInitiator (username s) key))))
    /\ heap (plat s') !! nextObj (plat s)
       = Some (mkPc Stable None None
                 (List.map AddTrack (ms_tracks ls)
                    ++ if amInitiator (username s) key
                       then [CreateOffer false] else []))
    /\ peerConns (vars s') = <[key := nextObj (plat s)]> (peerConns (vars s))
    /\ iceQueues (vars s') = <[key := []]> (iceQueues (vars s))
    /\ username s' = username s.
Proof.
  intros Hne Hnone Hls. unfold onChildAdded.
  apply str_eqb_neq in Hne. rewrite Hne, Hnone. cbn [orb].
  now apply connectToPeer_fresh.
Qed.

Lemma pc_offers_fresh (ts : list nat) (init : bool) :
  pc_offers (mkPc Stable None None
               (List.map AddTrack ts ++ if init then [CreateOffer false] else []))
  = if init then 1%nat else 0%nat.
Proof.
  unfold pc_offers. cbn [pc_calls]. rewrite List.filter_app, length_app.
  assert (H : List.filter
                (fun c => match c with CreateOffer _ => true | _ => false end)
                (List.map AddTrack ts) = []).
  { induction ts as [|t ts IH]; [reflexivity|exact IH]. }
  rewrite H. now destruct init.
Qed.

(** *** Roles *)

Example bob_connects_to_alice :
  (onChildAdded (lit "alice") (inRoom (lit "bob"))).2 = Some aliceLink
  /\ l_connPath aliceLink = lit "cs1/calls/general/connections/bob___alice"
  /\ heap (plat bobWithAlice) !! 0%nat = Some freshPc
  /\ iceQueues (vars bobWithAlice) !! lit "alice" = Some [].
Proof. vm_compute. repeat split. Qed.

(** Two distinct identities compare one way and not the other, so when
    each side evaluates [username > peer] against the other, the two
    results are complementary and the initiator is the higher identity on
    both sides.  Run on both sides of a pair in the same call room, for
    two names that pass the guard of the roster handler (no connection
    yet, and not a name every object inherits), the handler builds the
    same signalling path, crosses the two candidate keys, and calls
    [createOffer] on exactly one of the two connections. *)
Lemma one_offer_between_plain_names (sA sB : State)
    (camA camB : MediaStream) :
  username sA <> username sB ->
  callRoom (vars sA) = callRoom (vars sB) ->
  truthyAt (peerConns (vars sA)) (username sB) = false ->
  truthyAt (peerConns (vars sB)) (username sA) = false ->
  localStream (vars sA) = Some camA ->
  localStream (vars sB) = Some camB ->
  let A := username sA in
  let B := username sB in
  amInitiator A B = negb (amInitiator B A)
  /\ initiatorOf A B (amInitiator A B) = (if str_gt A B then A else B)
  /\ initiatorOf A B (amInitiator A B) = initiatorOf B A (amInitiator B A)
  /\ responderOf A B (amInitiator A B) = responderOf B A (amInitiator B A)
  /\ str_gt (initiatorOf A B (amInitiator A B))
        (responderOf A B (amInitiator A B)) = true
  /\ exists sA' sB' lA lB,
       onChildAdded B sA = (sA', Some lA)
       /\ onChildAdded A sB = (sB', Some lB)
       /\ l_iAmInitiator lA = amInitiator A B
       /\ l_iAmInitiator lB = amInitiator B A
       /\ l_connPath lA = l_connPath lB
       /\ myIceKey (l_iAmInitiator lA) = theirIceKey (l_iAmInitiator lB)
       /\ theirIceKey (l_iAmInitiator lA) = myIceKey (l_iAmInitiator lB)
       /\ (pc_offers (getPc (l_pc lA) sA') + pc_offers (getPc (l_pc lB) sB')
           = 1)%nat.
Proof.
  intros Hne Hroom HnA HnB HcA HcB A B.
  assert (Hc : amInitiator A B = negb (amInitiator B A))
    by (apply str_gt_exactly_one; exact Hne).
  assert (Hne' : B <> A) by (intros E; apply Hne; symmetry; exact E).
  destruct (onChildAdded_fresh B sA camA Hne' HnA HcA)
    as (sA' & EA & HhA & _).
  destruct (onChildAdded_fresh A sB camB Hne HnB HcB)
    as (sB' & EB & HhB & _).
  fold A in EA, HhA. fold B in EB, HhB.
  split; [exact Hc|].
  assert (OA : pc_offers (getPc (nextObj (plat sA)) sA')
               = if amInitiator A B then 1%nat else 0%nat)
    by (rewrite (getPc_Some _ _ _ HhA); apply pc_offers_fresh).
  assert (OB : pc_offers (getPc (nextObj (plat sB)) sB')
               = if amInitiator B A then 1%nat else 0%nat)
    by (rewrite (getPc_Some _ _ _ HhB); apply pc_offers_fresh).
  clear HhA HhB.
  unfold amInitiator in *.
  destruct (str_gt A B) eqn:HAB, (str_gt B A) eqn:HBA; try discriminate Hc;
    cbn [initiatorOf responderOf];
    (split; [reflexivity|]); (split; [reflexivity|]);
    (split; [reflexivity|]); (split; [assumption|]);
    exists sA', sB'; eexists; eexists;
    (split; [exact EA|]); (split; [exact EB|]);
    cbn [l_iAmInitiator l_connPath l_pc];
    rewrite OA, OB, Hroom;
    unfold connPathOf, initiatorOf, responderOf;
    cbn [negb myIceKey theirIceKey]; auto 10.
Qed.

(** [bob] and [alice], both in the call of room [general]: [bob] is the
    higher name and creates the one offer. *)
Example bob_and_alice_one_offer :
  amInitiator (lit "bob") (lit "alice") = true
  /\ amInitiator (lit "alice") (lit "bob") = false
  /\ exists sA' sB' lA lB,
       onChildAdded (lit "alice") (inRoom (lit "bob")) = (sA', Some lA)
       /\ onChildAdded (lit "bob") (inRoom (lit "alice")) = (sB', Some lB)
       /\ l_connPath lA = l_connPath lB
       /\ (pc_offers (getPc (l_pc lA) sA') + pc_offers (getPc (l_pc lB) sB')
           = 1)%nat.
Proof.
  destruct (one_offer_between_plain_names (inRoom (lit "bob"))
              (inRoom (lit "alice")) camera camera)
    as (_ & _ & _ & _ & _ & sA' & sB' & lA & lB & EA & EB & _ & _ & Hp & _ & _
        & Ho).
  - vm_compute. discriminate.
  - reflexivity.
  - vm_compute. reflexivity.
  - vm_compute. reflexivity.
  - reflexivity.
  - reflexivity.
  - split; [reflexivity|]. split; [reflexivity|].
    exists sA', sB', lA, lB. auto.
Qed.

(** C2 fails on the code: [dave] is in the call of room [general] when a
    user named [constructor] joins it.  [dave] is the higher name, so the
    offer is his to create; but [peerConns[peer]] finds the function every
    object inherits under that name, and his roster handler returns
    without creating a connection.  On the other side [constructor]
    connects to [dave] as the responder and creates no offer either: the
    pair has no offer at all. *)
Theorem no_offer_for_inherited_name :
  amInitiator (lit "dave") (lit "constructor") = true
  /\ amInitiator (lit "constructor") (lit "dave") = false
  /\ peerConns (vars (inRoom (lit "dave"))) !! lit "constructor" = None
  /\ onChildAdded (lit "constructor") (inRoom (lit "dave"))
     = (inRoom (lit "dave"), None)
  /\ heap (plat (inRoom (lit "dave"))) = ∅
  /\ exists s' l,
       onChildAdded (lit "dave") (inRoom (lit "constructor")) = (s', Some l)
       /\ l_iAmInitiator l = false
       /\ pc_offers (getPc (l_pc l) s') = 0%nat.
Proof.
  split; [vm_compute; reflexivity|]. split; [vm_compute; reflexivity|].
  split; [vm_compute; reflexivity|]. split; [vm_compute; reflexivity|].
  split; [vm_compute; reflexivity|].
  exists (onChildAdded (lit "dave") (inRoom (lit "constructor"))).1,
    (mkLink (lit "dave") 0%nat false
       (connPathOf (lit "constructor") (lit "dave") (lit "general") false)).
  vm_compute. repeat split.
Qed.

(** *** Frame properties of [removePeer] *)

Lemma removePeer_throws (p : jsstring) (s : State) :
  removePeerThrows p s = true -> removePeer p s = s.
Proof. intros H. unfold removePeer. now rewrite H. Qed.

Lemma removePeerThrows_own (p : jsstring) (s : State) :
  is_Some (peerConns (vars s) !! p) -> removePeerThrows p s = false.
Proof. intros [id H]. unfold removePeerThrows. now rewrite H. Qed.

Lemma removePeerThrows_plain (p : jsstring) (s : State) :
  inherited p = false -> removePeerThrows p s = false.
Proof.
  intros H. unfold removePeerThrows. now destruct (peerConns (vars s) !! p).
Qed.

Lemma removePeer_peerConns (p : jsstring) (s : State) :
  peerConns (vars (removePeer p s)) = delete p (peerConns (vars s)).
Proof.
  unfold removePeer, removePeerThrows.
  destruct (peerConns (vars s) !! p) eqn:E; cbn.
  - destruct (audioAnalysers (vars s) !! p); reflexivity.
  - destruct (inherited p); [now rewrite delete_id|].
    destruct (audioAnalysers (vars s) !! p); cbn; now rewrite delete_id.
Qed.

Lemma removePeer_iceQueues (p : jsstring) (s : State) :
  removePeerThrows p s = false ->
  iceQueues (vars (removePeer p s)) = delete p (iceQueues (vars s)).
Proof.
  intros T. unfold removePeer. rewrite T.
  destruct (peerConns (vars s) !! p) eqn:E; cbn;
    destruct (audioAnalysers (vars s) !! p); reflexivity.
Qed.

Lemma removePeer_audioAnalysers (p : jsstring) (s : State) :
  removePeerThrows p s = false ->
  audioAnalysers (vars (removePeer p s)) = delete p (audioAnalysers (vars s)).
Proof.
  intros T. unfold removePeer. rewrite T.
  destruct (peerConns (vars s) !! p) eqn:E; cbn;
    destruct (audioAnalysers (vars s) !! p) eqn:F; cbn; try reflexivity;
    now rewrite delete_id.
Qed.

Lemma removePeer_heap (p : jsstring) (s : State) :
  heap (plat (removePeer p s))
  = match peerConns (vars s) !! p with
    | Some id => alter pc_close id (heap (plat s))
    | None => heap (plat s)
    end.
Proof.
  unfold removePeer, removePeerThrows.
  destruct (peerConns (vars s) !! p) eqn:E; cbn.
  - destruct (audioAnalysers (vars s) !! p); reflexivity.
  - destruct (inherited p); [reflexivity|].
    destruct (audioAnalysers (vars s) !! p); reflexivity.
Qed.

Lemma removePeer_videoGrid (p : jsstring) (s : State) :
  removePeerThrows p s = false ->
  videoGrid (page (removePeer p s)) = removeTile p (videoGrid (page s)).
Proof.
  intros T. unfold removePeer. rewrite T.
  destruct (peerConns (vars s) !! p) eqn:E; cbn;
    destruct (audioAnalysers (vars s) !! p); reflexivity.
Qed.

Lemma removePeer_callCount (p : jsstring) (s : State) :
  removePeerThrows p s = false ->
  callCount (page (removePeer p s))
  = length (removeTile p (videoGrid (page s))).
Proof.
  intros T. unfold removePeer. rewrite T.
  destruct (peerConns (vars s) !! p) eqn:E; cbn;
    destruct (audioAnalysers (vars s) !! p); reflexivity.
Qed.

Lemma sameSession_refl (s : State) : sameSession s s.
Proof. repeat split. Qed.

Lemma sameSession_trans (s1 s2 s3 : State) :
  sameSession s1 s2 -> sameSession s2 s3 -> sameSession s1 s3.
Proof.
  unfold sameSession. intros H1 H2.
  destruct H1 as (?&?&?&?&?&?&?&?&?&?&?), H2 as (?&?&?&?&?&?&?&?&?&?&?).
  repeat split; congruence.
Qed.

Lemma removePeer_sameSession (p : jsstring) (s : State) :
  sameSession s (removePeer p s).
Proof.
  destruct (removePeerThrows p s) eqn:T;
    [rewrite removePeer_throws by exact T; apply sameSession_refl|].
  unfold removePeer. rewrite T.
  destruct (peerConns (vars s) !! p) eqn:E; cbn;
    destruct (audioAnalysers (vars s) !! p); repeat split.
Qed.

(** *** Tiles *)

Lemma removeTile_absent (id : jsstring) (g : list Tile) :
  hasTile id g = false -> removeTile id g = g.
Proof.
  induction g as [|t g IH]; [reflexivity|].
  cbn [hasTile existsb removeTile]. intros H.
  apply orb_false_iff in H as [Ht Hg]. rewrite Ht. f_equal. now apply IH.
Qed.

Lemma removeTile_unique (id : jsstring) (g : list Tile) :
  uniqueTiles g = true -> hasTile id (removeTile id g) = false.
Proof.
  induction g as [|t g IH]; [reflexivity|].
  cbn [uniqueTiles removeTile]. intros H.
  apply andb_true_iff in H as [Hn Hu]. apply negb_true_iff in Hn.
  destruct (isTile id t) eqn:Ht.
  - unfold isTile in Ht. apply str_eqb_eq in Ht.
    unfold hasTile, isTile. rewrite <- Ht. exact Hn.
  - cbn [hasTile existsb]. rewrite Ht. now apply IH.
Qed.

Lemma removeTile_length (id : jsstring) (g : list Tile) :
  hasTile id g = true -> S (length (removeTile id g)) = length g.
Proof.
  induction g as [|t g IH]; [discriminate|].
  cbn [hasTile existsb removeTile]. destruct (isTile id t); [reflexivity|].
  cbn [orb length]. intros H. f_equal. now apply IH.
Qed.

(** *** Removing a peer *)

Lemma removePeer_noop (p : jsstring) (s : State) :
  peerConns (vars s) !! p = None ->
  iceQueues (vars s) !! p = None ->
  audioAnalysers (vars s) !! p = None ->
  hasTile p (videoGrid (page s)) = false ->
  callCount (page s) = length (videoGrid (page s)) ->
  removePeer p s = s.
Proof.
  intros Hp Hq Ha Ht Hc. unfold removePeer, removePeerThrows. rewrite Hp.
  destruct (inherited p); [reflexivity|].
  cbn. rewrite Ha. unfold updateCount. cbn.
  rewrite (delete_id _ _ Hq), (removeTile_absent _ _ Ht), <- Hc.
  destruct s as [d u c [] [] pl]. reflexivity.
Qed.

(** The effects of [removePeer(P)] when [P] has a connection object and a
    tile, in a grid with unique ids. *)
Lemma removePeer_effects (P : jsstring) (s : State) (id : nat) (pc : PeerConn) :
  peerConns (vars s) !! P = Some id ->
  heap (plat s) !! id = Some pc ->
  hasTile P (videoGrid (page s)) = true ->
  uniqueTiles (videoGrid (page s)) = true ->
  let s' := removePeer P s in
  heap (plat s') !! id = Some (pc_close pc)
  /\ (forall j, j <> id -> heap (plat s') !! j = heap (plat s) !! j)
  /\ peerConns (vars s') !! P = None
  /\ iceQueues (vars s') !! P = None
  /\ audioAnalysers (vars s') !! P = None
  /\ (forall q, q <> P ->
        peerConns (vars s') !! q = peerConns (vars s) !! q
        /\ iceQueues (vars s') !! q = iceQueues (vars s) !! q
        /\ audioAnalysers (vars s') !! q = audioAnalysers (vars s) !! q)
  /\ (forall a, audioAnalysers (vars s) !! P = Some a ->
        clearedIntervals (plat s') = clearedIntervals (plat s) ++ [an_interval a]
        /\ closedCtx (plat s') = closedCtx (plat s) ++ [an_ctx a])
  /\ S (length (videoGrid (page s'))) = length (videoGrid (page s))
  /\ hasTile P (videoGrid (page s')) = false
  /\ removePeer P s' = s'.
Proof.
  intros Hp Hh Ht Hu s'. subst s'.
  assert (T : removePeerThrows P s = false)
    by (apply removePeerThrows_own; eauto).
  rewrite removePeer_heap, removePeer_peerConns,
    (removePeer_iceQueues _ _ T), (removePeer_audioAnalysers _ _ T),
    (removePeer_videoGrid _ _ T), Hp.
  split; [now rewrite lookup_alter_eq, Hh|].
  split; [intros j Hj; now rewrite lookup_alter_ne|].
  split; [apply lookup_delete_eq|].
  split; [apply lookup_delete_eq|].
  split; [apply lookup_delete_eq|].
  split; [intros q Hq; now rewrite !lookup_delete_ne|].
  split.
  { intros a Ha. unfold removePeer. rewrite T, Hp. cbn. rewrite Ha. cbn.
    auto. }
  split; [now apply removeTile_length|].
  split; [now apply removeTile_unique|].
  apply removePeer_noop.
  - rewrite removePeer_peerConns. apply lookup_delete_eq.
  - rewrite removePeer_iceQueues by exact T. apply lookup_delete_eq.
  - rewrite removePeer_audioAnalysers by exact T. apply lookup_delete_eq.
  - rewrite removePeer_videoGrid by exact T. now apply removeTile_unique.
  - now rewrite removePeer_callCount, removePeer_videoGrid.
Qed.

(** *** Joining *)

(** C4: when [getUserMedia] is rejected, [startJoin] shows an alert and
    returns: the variables of video.js (call room, local stream,
    connections, roster reference), the signalling store, the installed
    listeners and the grid are what they were; a logged-in user is told
    that camera and microphone could not be accessed, with the message of
    the error. *)
Theorem media_failure_aborts_join (msg : jsstring) (s : State) :
  let s' := startJoin (inr msg) s in
  vars s' = vars s
  /\ plat s' = plat s
  /\ (callRoom (vars s) = None -> callRoom (vars s') = None)
  /\ localStream (vars s') = localStream (vars s)
  /\ participantsRef (vars s') = participantsRef (vars s)
  /\ dbLog (plat s') = dbLog (plat s)
  /\ subs (plat s') = subs (plat s)
  /\ videoGrid (page s') = videoGrid (page s)
  /\ (exists m, page s' = add_alert m (page s))
  /\ (db s = true -> username s <> [] ->
      alerts (page s')
      = alerts (page s)
          ++ [lit "Could not access camera / microphone:" ++ [10] ++ msg]).
Proof.
  intros s'. subst s'. unfold startJoin.
  destruct (negb (db s) || negb (truthy (username s))) eqn:G; cbn.
  - repeat split; eauto.
    intros Hd Hu. apply truthy_true in Hu. rewrite Hd, Hu in G. discriminate.
  - repeat split; eauto.
Qed.

(** *** The mapping of connections *)

Lemma connectToPeer_present (peer room : jsstring) (init : bool) (s : State) :
  is_Some (peerConns (vars s) !! peer) ->
  connectToPeer peer room init s = (s, None).
Proof.
  intros H. unfold connectToPeer. now rewrite truthyAt_own.
Qed.

Lemma connectToPeer_guarded (peer room : jsstring) (init : bool) (s : State) :
  truthyAt (peerConns (vars s)) peer = true ->
  connectToPeer peer room init s = (s, None).
Proof. intros H. unfold connectToPeer. now rewrite H. Qed.

Lemma connectToPeer_peerConns (peer room : jsstring) (init : bool)
    (s : State) :
  truthyAt (peerConns (vars s)) peer = false ->
  peerConns (vars (connectToPeer peer room init s).1)
  = <[peer := nextObj (plat s)]> (peerConns (vars s)).
Proof.
  intros H. unfold connectToPeer. rewrite H. rewrite addPeerTile_vars.
  cbn [on_vars on_plat vars set_iceQueues set_peerConns localStream].
  destruct (localStream (vars s)) as [ls|].
  - rewrite (foldl_updPc nat (fun t => pc_log (AddTrack t))).
    destruct init; cbn; now rewrite addPeerTile_vars.
  - cbn. now rewrite addPeerTile_vars.
Qed.

Lemma connectToPeer_username (peer room : jsstring) (init : bool)
    (s : State) :
  username (connectToPeer peer room init s).1 = username s.
Proof.
  unfold connectToPeer. destruct (truthyAt _ _); [reflexivity|].
  rewrite addPeerTile_vars.
  cbn [on_vars on_plat vars set_iceQueues set_peerConns localStream].
  destruct (localStream (vars s)) as [ls|].
  - rewrite (foldl_updPc nat (fun t => pc_log (AddTrack t))).
    destruct init; cbn; now rewrite addPeerTile_username.
  - cbn. now rewrite addPeerTile_username.
Qed.

Lemma foldl_removePeer_sameSession (ps : list jsstring) (s : State) :
  sameSession s (foldl (fun acc p => removePeer p acc) s ps).
Proof.
  revert s. induction ps as [|p ps IH]; intros s; cbn [foldl].
  - apply sameSession_refl.
  - eapply sameSession_trans; [apply removePeer_sameSession|apply IH].
Qed.

Lemma foldl_removePeer_peerConns (ps : list jsstring) (s : State) :
  peerConns (vars (foldl (fun acc p => removePeer p acc) s ps))
  = foldl (fun m p => delete p m) (peerConns (vars s)) ps.
Proof.
  revert s. induction ps as [|p ps IH]; intros s; cbn [foldl].
  - reflexivity.
  - now rewrite IH, removePeer_peerConns.
Qed.

Lemma foldl_delete_lookup (V : Type) (ps : list jsstring)
    (m : gmap jsstring V) (k : jsstring) :
  foldl (fun m p => delete p m) m ps !! k
  = if bool_decide (k ∈ ps) then None else m !! k.
Proof.
  revert m. induction ps as [|p ps IH]; intros m; cbn [foldl].
  - reflexivity.
  - rewrite IH. destruct (decide (k = p)) as [->|Hne].
    + rewrite lookup_delete_eq.
      rewrite (bool_decide_eq_true_2 (p ∈ p :: ps)) by apply list_elem_of_here.
      now destruct (bool_decide (p ∈ ps)).
    + rewrite lookup_delete_ne by congruence.
      destruct (bool_decide (k ∈ ps)) eqn:E.
      * apply bool_decide_eq_true_1 in E.
        rewrite bool_decide_eq_true_2; [reflexivity|].
        now apply list_elem_of_further.
      * apply bool_decide_eq_false_1 in E.
        rewrite bool_decide_eq_false_2; [reflexivity|].
        intros Hin. apply elem_of_cons in Hin as [?|?]; congruence.
Qed.

Lemma foldl_delete_None (V : Type) (ps : list jsstring)
    (m : gmap jsstring V) (k : jsstring) :
  m !! k = None -> foldl (fun m p => delete p m) m ps !! k = None.
Proof.
  intros H. rewrite foldl_delete_lookup, H. now destruct (bool_decide _).
Qed.

Lemma leaveCall_username (s : State) : username (leaveCall s) = username s.
Proof.
  unfold leaveCall. destruct (inCall s); cbn [negb]; [|reflexivity].
  set (s1 := foldl _ s _).
  assert (H : username s1 = username s)
    by apply (foldl_removePeer_sameSession _ s).
  destruct (participantsRef _); cbn; exact H.
Qed.

Lemma leaveCall_keeps_none (s : State) (k : jsstring) :
  peerConns (vars s) !! k = None -> peerConns (vars (leaveCall s)) !! k = None.
Proof.
  intros H. unfold leaveCall. destruct (inCall s); cbn [negb]; [|exact H].
  set (ps := (map_to_list (peerConns (vars s))).*1).
  assert (G : peerConns (vars (foldl (fun acc p => removePeer p acc) s ps)) !! k
              = None)
    by (rewrite foldl_removePeer_peerConns; now apply foldl_delete_None).
  destruct (participantsRef _); cbn; exact G.
Qed.

Lemma onconnectionstatechange_username (l : Link) (st : ConnState)
    (ok : bool) (s : State) :
  username (onconnectionstatechange l st ok s) = username s.
Proof.
  unfold onconnectionstatechange, updateTileConnState.
  destruct st; cbv beta iota zeta; try reflexivity.
  - unfold watchAudioLevel. destruct (truthyAt _ _); [reflexivity|].
    now destruct ok.
  - now destruct (_ && _).
  - apply removePeer_sameSession.
Qed.

Lemma onconnectionstatechange_peerConns (l : Link) (st : ConnState)
    (ok : bool) (s : State) :
  peerConns (vars (onconnectionstatechange l st ok s))
  = match st with
    | CsClosed => delete (l_peer l) (peerConns (vars s))
    | _ => peerConns (vars s)
    end.
Proof.
  unfold onconnectionstatechange, updateTileConnState.
  destruct st; cbv beta iota zeta; try reflexivity.
  - unfold watchAudioLevel. destruct (truthyAt _ _); [reflexivity|].
    now destruct ok.
  - now destruct (_ && _).
  - now rewrite removePeer_peerConns.
Qed.

Lemma step_username (e : Event) (s : State) : username (step e s) = username s.
Proof.
  destruct e as [media|key|key|l st ok|]; cbn [step].
  - unfold startJoin. destruct (_ || _); [reflexivity|].
    destruct media; [|reflexivity]. cbn.
    unfold addVideoTile. now destruct (hasTile _ _).
  - unfold onChildAdded. destruct (_ || _); [reflexivity|].
    apply connectToPeer_username.
  - apply removePeer_sameSession.
  - apply onconnectionstatechange_username.
  - apply leaveCall_username.
Qed.

Lemma step_keeps_no_self (e : Event) (s : State) :
  peerConns (vars s) !! username s = None ->
  peerConns (vars (step e s)) !! username s = None.
Proof.
  intros H. destruct e as [media|key|key|l st ok|]; cbn [step].
  - unfold startJoin. destruct (_ || _); [exact H|].
    destruct media; [|exact H]. cbn.
    unfold addVideoTile. now destruct (hasTile _ _).
  - unfold onChildAdded. destruct (str_eqb key (username s)) eqn:E;
      cbn [orb]; [exact H|].
    apply str_eqb_neq in E.
    destruct (truthyAt (peerConns (vars s)) key) eqn:F; [exact H|].
    rewrite connectToPeer_peerConns by exact F.
    now rewrite lookup_insert_ne.
  - unfold onChildRemoved. rewrite removePeer_peerConns.
    destruct (decide (key = username s)) as [->|Hne].
    + apply lookup_delete_eq.
    + now rewrite lookup_delete_ne.
  - rewrite onconnectionstatechange_peerConns. destruct st; try exact H.
    destruct (decide (l_peer l = username s)) as [->|Hne].
    + apply lookup_delete_eq.
    + now rewrite lookup_delete_ne.
  - now apply leaveCall_keeps_none.
Qed.

(** C7: the mapping is keyed by identity, so an identity has at most one
    connection.  A roster add for the own name, or for a name that has a
    connection, changes nothing and creates no connection; so does
    [connectToPeer] for a name that has one.  The guard [peerConns[peer]]
    also holds for the names every object inherits: a roster add or a
    [connectToPeer] for one of them changes nothing either.  A roster add
    for any other name without a connection adds exactly the entry of that
    name.  Hence, as long as the session username stays the same, no
    sequence of joins, roster events, connection-state events and leaves
    puts the own name into the mapping. *)
Theorem one_connection_per_peer_none_to_self (s : State) :
  onChildAdded (username s) s = (s, None)
  /\ (forall key, is_Some (peerConns (vars s) !! key) ->
        onChildAdded key s = (s, None))
  /\ (forall peer room init, is_Some (peerConns (vars s) !! peer) ->
        connectToPeer peer room init s = (s, None))
  /\ (forall key room init, inherited key = true ->
        onChildAdded key s = (s, None)
        /\ connectToPeer key room init s = (s, None))
  /\ (forall key, key <> username s -> peerConns (vars s) !! key = None ->
        inherited key = false ->
        peerConns (vars (onChildAdded key s).1)
        = <[key := nextObj (plat s)]> (peerConns (vars s)))
  /\ (forall es, peerConns (vars s) !! username s = None ->
        username (run es s) = username s
        /\ peerConns (vars (run es s)) !! username (run es s) = None).
Proof.
  split; [|split; [|split; [|split; [|split]]]].
  - unfold onChildAdded. now rewrite str_eqb_refl.
  - intros key H. unfold onChildAdded. rewrite truthyAt_own by exact H.
    now rewrite orb_true_r.
  - intros peer room init H. now apply connectToPeer_present.
  - intros key room init H. split.
    + unfold onChildAdded. rewrite truthyAt_inherited by exact H.
      now rewrite orb_true_r.
    + apply connectToPeer_guarded. now apply truthyAt_inherited.
  - intros key Hne Hnone Hplain.
    assert (G : truthyAt (peerConns (vars s)) key = false)
      by now apply truthyAt_false.
    unfold onChildAdded.
    apply str_eqb_neq in Hne. rewrite Hne, G. cbn [orb].
    now apply connectToPeer_peerConns.
  - intros es. revert s. unfold run.
    induction es as [|e es IH]; intros s H; cbn [foldl]; [auto|].
    destruct (IH (step e s)) as [Hu Hp].
    + rewrite step_username. now apply step_keeps_no_self.
    + rewrite Hu, step_username in *. auto.
Qed.

(** *** Leaving *)

Lemma leaveCall_fields (s : State) :
  inCall s = true ->
  let s1 := foldl (fun acc p => removePeer p acc) s
              (map_to_list (peerConns (vars s))).*1 in
  vars (leaveCall s)
  = mkVars None None (peerConns (vars s1)) (iceQueues (vars s1)) None None
      (isMuted (vars s1)) (isCamOff (vars s1)) (isSharing (vars s1))
      (audioAnalysers (vars s1))
  /\ heap (plat (leaveCall s)) = heap (plat s1)
  /\ stopped (plat (leaveCall s))
     = (stopped (plat s1) ++ streamTracks (localStream (vars s1)))
         ++ streamTracks (screenStream (vars s1))
  /\ dbLog (plat (leaveCall s))
     = dbLog (plat s1)
         ++ [DbRemove (participantPath (roomText (callRoom (vars s1)))
                         (username s1))]
  /\ subs (plat (leaveCall s))
     = match participantsRef (vars s1) with
       | Some ref =>
           List.filter (fun sb => negb (str_eqb (sub_path sb) ref))
             (subs (plat s1))
       | None => subs (plat s1)
       end
  /\ videoGrid (page (leaveCall s)) = [].
Proof.
  intros H s1. unfold leaveCall. rewrite H. cbn [negb]. fold s1.
  clearbody s1.
  destruct (participantsRef (vars s1)) eqn:Hr;
    cbn [vars plat page heap stopped dbLog subs videoGrid localStream
         screenStream participantsRef callRoom username db currentRoom
         nextObj clearedIntervals closedCtx peerConns iceQueues isMuted
         isCamOff isSharing audioAnalysers on_vars on_plat on_page dbWrite
         add_stopped add_dbOp set_subs];
    rewrite Hr; repeat split.
Qed.

Example leaveCall_bobWithAlice :
  inCall bobWithAlice = true
  /\ peerConns (vars (leaveCall bobWithAlice)) = ∅
  /\ pc_isClosed (getPc 0%nat (leaveCall bobWithAlice)) = true
  /\ stopped (plat (leaveCall bobWithAlice)) = [0; 1]%nat
  /\ subs (plat (leaveCall bobWithAlice))
     = [mkSub (l_connPath aliceLink ++ lit "/responderIce") ChildAdded
          (HRemoteIce aliceLink)]
  /\ callRoom (vars (leaveCall bobWithAlice)) = None.
Proof. vm_compute. repeat split. Qed.

(** The names [leaveCall] enumerates have a connection each, and keep it
    until their turn comes. *)
Lemma own_after_removePeer (p : jsstring) (ps : list jsstring) (s : State) :
  NoDup (p :: ps) ->
  (forall q, q ∈ p :: ps -> is_Some (peerConns (vars s) !! q)) ->
  removePeerThrows p s = false
  /\ NoDup ps
  /\ forall q, q ∈ ps -> is_Some (peerConns (vars (removePeer p s)) !! q).
Proof.
  intros Hnd Hown. apply NoDup_cons in Hnd as [Hp Hnd].
  split; [apply removePeerThrows_own, Hown, list_elem_of_here|].
  split; [exact Hnd|]. intros q Hq. rewrite removePeer_peerConns.
  rewrite lookup_delete_ne by (intros ->; contradiction).
  apply Hown. now apply list_elem_of_further.
Qed.

Lemma foldl_removePeer_iceQueues (ps : list jsstring) (s : State) :
  NoDup ps ->
  (forall q, q ∈ ps -> is_Some (peerConns (vars s) !! q)) ->
  iceQueues (vars (foldl (fun acc p => removePeer p acc) s ps))
  = foldl (fun m p => delete p m) (iceQueues (vars s)) ps.
Proof.
  revert s. induction ps as [|p ps IH]; intros s Hnd Hown; cbn [foldl].
  - reflexivity.
  - destruct (own_after_removePeer p ps s Hnd Hown) as (T & Hnd' & Hown').
    now rewrite IH, removePeer_iceQueues.
Qed.

Lemma foldl_removePeer_audioAnalysers (ps : list jsstring) (s : State) :
  NoDup ps ->
  (forall q, q ∈ ps -> is_Some (peerConns (vars s) !! q)) ->
  audioAnalysers (vars (foldl (fun acc p => removePeer p acc) s ps))
  = foldl (fun m p => delete p m) (audioAnalysers (vars s)) ps.
Proof.
  revert s. induction ps as [|p ps IH]; intros s Hnd Hown; cbn [foldl].
  - reflexivity.
  - destruct (own_after_removePeer p ps s Hnd Hown) as (T & Hnd' & Hown').
    now rewrite IH, removePeer_audioAnalysers.
Qed.

Lemma elem_of_keys (V : Type) (m : gmap jsstring V) (k : jsstring) :
  k ∈ (map_to_list m).*1 <-> is_Some (m !! k).
Proof.
  rewrite list_elem_of_fmap. split.
  - intros ([k' v] & -> & H). apply elem_of_map_to_list in H. now exists v.
  - intros [v H]. exists (k, v). split; [reflexivity|].
    now apply elem_of_map_to_list.
Qed.

Lemma foldl_delete_keys (V : Type) (m : gmap jsstring V) :
  foldl (fun m p => delete p m) m (map_to_list m).*1 = ∅.
Proof.
  apply map_eq. intros k. rewrite foldl_delete_lookup, lookup_empty.
  destruct (bool_decide (k ∈ (map_to_list m).*1)) eqn:E; [reflexivity|].
  apply bool_decide_eq_false_1 in E. rewrite elem_of_keys in E.
  destruct (m !! k) eqn:F; [|reflexivity]. exfalso. apply E. now exists v.
Qed.

Lemma removePeer_closed_mono (q : jsstring) (s : State) (id : nat) :
  (exists pc, heap (plat s) !! id = Some pc /\ pc_isClosed pc = true) ->
  exists pc, heap (plat (removePeer q s)) !! id = Some pc
             /\ pc_isClosed pc = true.
Proof.
  intros (pc & H & Hc). rewrite removePeer_heap.
  destruct (peerConns (vars s) !! q) as [j|]; [|eauto].
  destruct (decide (j = id)) as [->|Hne].
  - rewrite lookup_alter_eq, H. cbn. eauto.
  - rewrite lookup_alter_ne by exact Hne. eauto.
Qed.

Lemma foldl_removePeer_closed_mono (ps : list jsstring) (s : State)
    (id : nat) :
  (exists pc, heap (plat s) !! id = Some pc /\ pc_isClosed pc = true) ->
  exists pc,
    heap (plat (foldl (fun acc p => removePeer p acc) s ps)) !! id = Some pc
    /\ pc_isClosed pc = true.
Proof.
  revert s. induction ps as [|p ps IH]; intros s H; cbn [foldl]; [exact H|].
  apply IH. now apply removePeer_closed_mono.
Qed.

Lemma foldl_removePeer_closes (ps : list jsstring) (s : State)
    (p : jsstring) (id : nat) :
  p ∈ ps ->
  peerConns (vars s) !! p = Some id ->
  is_Some (heap (plat s) !! id) ->
  exists pc,
    heap (plat (foldl (fun acc p => removePeer p acc) s ps)) !! id = Some pc
    /\ pc_isClosed pc = true.
Proof.
  revert s. induction ps as [|q ps IH]; intros s Hin Hp [pc Hh];
    [now apply elem_of_nil in Hin|].
  cbn [foldl]. destruct (decide (p = q)) as [<-|Hne].
  - apply foldl_removePeer_closed_mono. rewrite removePeer_heap, Hp.
    rewrite lookup_alter_eq, Hh. cbn. eauto.
  - apply elem_of_cons in Hin as [?|Hin]; [congruence|].
    apply IH; [exact Hin| |].
    + rewrite removePeer_peerConns. now rewrite lookup_delete_ne.
    + rewrite removePeer_heap.
      destruct (peerConns (vars s) !! q) as [j|]; [|eauto].
      destruct (decide (j = id)) as [->|Hj].
      * rewrite lookup_alter_eq, Hh. cbn. eauto.
      * rewrite lookup_alter_ne by exact Hj. eauto.
Qed.

(** C5: [leaveCall] outside a call ([callRoom] null or empty) returns at
    once and changes nothing.  Inside a call it empties the mapping of
    connections, leaves every connection that was in it closed, drops the
    queues and monitors of those peers, stops every track of the camera
    stream and of the screen stream and forgets both streams, removes the
    own entry from the roster of the room, drops every listener on the
    roster reference and forgets the reference, resets the call room and
    empties the grid.  A second [leaveCall] right after the first changes
    nothing. *)
Theorem leaveCall_idempotent (s : State) :
  (inCall s = false -> leaveCall s = s)
  /\ (inCall s = true ->
      let s' := leaveCall s in
      peerConns (vars s') = ∅
      /\ (forall p id, peerConns (vars s) !! p = Some id ->
            is_Some (heap (plat s) !! id) ->
            exists pc, heap (plat s') !! id = Some pc
                       /\ pc_isClosed pc = true)
      /\ (forall p, is_Some (peerConns (vars s) !! p) ->
            iceQueues (vars s') !! p = None
            /\ audioAnalysers (vars s') !! p = None)
      /\ (forall t, t ∈ streamTracks (localStream (vars s))
                    \/ t ∈ streamTracks (screenStream (vars s)) ->
                    t ∈ stopped (plat s'))
      /\ localStream (vars s') = None
      /\ screenStream (vars s') = None
      /\ dbLog (plat s')
         = dbLog (plat s)
             ++ [DbRemove (participantPath (roomText (callRoom (vars s)))
                             (username s))]
      /\ (forall ref sb, participantsRef (vars s) = Some ref ->
            sb ∈ subs (plat s') -> sub_path sb <> ref)
      /\ participantsRef (vars s') = None
      /\ callRoom (vars s') = None
      /\ videoGrid (page s') = [])
  /\ leaveCall (leaveCall s) = leaveCall s.
Proof.
  assert (Hout : forall s0, inCall s0 = false -> leaveCall s0 = s0).
  { intros s0 H. unfold leaveCall. now rewrite H. }
  assert (Hin : forall s0, inCall s0 = true -> inCall (leaveCall s0) = false).
  { intros s0 H. destruct (leaveCall_fields s0 H) as (Hv & _).
    unfold inCall. now rewrite Hv. }
  split; [apply Hout|]. split.
  - intros H s'. subst s'.
    destruct (leaveCall_fields s H) as (Hv & Hh & Hst & Hdb & Hsub & Hg).
    set (ps := (map_to_list (peerConns (vars s))).*1) in *.
    set (s1 := foldl (fun acc p => removePeer p acc) s ps) in *.
    pose proof (foldl_removePeer_sameSession ps s) as Hs. fold s1 in Hs.
    destruct Hs as (_ & Hu & _ & Hls & Hss & Hcr & Hpr & Hstop & Hlog & Hsb & _).
    rewrite Hv, Hh, Hst, Hdb, Hsub, Hg.
    cbn [peerConns iceQueues audioAnalysers localStream screenStream
         participantsRef callRoom].
    split; [|split; [|split; [|split; [|split; [|split; [|split; [|split]]]]]]].
    + subst s1 ps. rewrite foldl_removePeer_peerConns.
      apply foldl_delete_keys.
    + intros p id Hp Hsome. subst s1.
      apply (foldl_removePeer_closes ps s p id); [|exact Hp|exact Hsome].
      subst ps. apply elem_of_keys. now exists id.
    + intros p Hp. subst s1.
      assert (Hnd : NoDup ps) by apply NoDup_fst_map_to_list.
      assert (Hown : forall q, q ∈ ps -> is_Some (peerConns (vars s) !! q))
        by (intros q Hq; now apply elem_of_keys).
      rewrite (foldl_removePeer_iceQueues ps s Hnd Hown),
        (foldl_removePeer_audioAnalysers ps s Hnd Hown),
        !foldl_delete_lookup.
      apply elem_of_keys in Hp. fold ps in Hp.
      now rewrite (bool_decide_eq_true_2 _ Hp).
    + intros t Ht. rewrite Hls, Hss, !elem_of_app. tauto.
    + reflexivity.
    + reflexivity.
    + now rewrite Hlog, Hcr, Hu.
    + intros ref sb Hr. rewrite Hpr, Hr.
      intros Hsb'. apply list_elem_of_In, List.filter_In in Hsb' as [_ Hf].
      apply negb_true_iff in Hf. now apply str_eqb_neq in Hf.
    + auto.
  - destruct (inCall s) eqn:H.
    + apply Hout. now apply Hin.
    + now rewrite !(Hout s H).
Qed.

(** *** Remote candidates *)

Lemma pc_added_app (pc : PeerConn) (cs : list PcCall) :
  pc_added (pc_logAll cs pc)
  = pc_added pc
      ++ omap (fun c => match c with AddIceCandidate x => Some x | _ => None end)
           cs.
Proof. unfold pc_added, pc_logAll. cbn [pc_calls]. apply omap_app. Qed.

Lemma pc_added_candidates (pc : PeerConn) (cs : list Candidate) :
  pc_added (pc_logAll (List.map AddIceCandidate cs) pc) = pc_added pc ++ cs.
Proof.
  rewrite pc_added_app. f_equal.
  induction cs as [|c cs IH]; [reflexivity|]. cbn. now rewrite IH.
Qed.

Lemma foldl_addIce (cs : list Candidate) (pc : PeerConn) :
  foldl (fun pc c => pc_log (AddIceCandidate c) pc) pc cs
  = pc_logAll (List.map AddIceCandidate cs) pc.
Proof.
  unfold pc_logAll. rewrite <- foldl_pc_log_calls.
  revert pc. induction cs as [|c cs IH]; intros pc; [reflexivity|].
  cbn [foldl List.map]. apply IH.
Qed.

Lemma listenerRuns_cons (l : Link) (c : Candidate) (cs : list Candidate)
    (s : State) :
  listenerRuns l (c :: cs) s = onRemoteIce l (Some c) s ≫= listenerRuns l cs.
Proof.
  unfold listenerRuns. cbn [foldl mbind option_bind].
  destruct (onRemoteIce l (Some c) s) as [s1|]; [reflexivity|].
  cbn. induction cs as [|c' cs IH]; [reflexivity|exact IH].
Qed.

(** Before the remote description is set, arrivals go to the queue of the
    peer, at its end, and nowhere else. *)
Lemma listenerRuns_queued (l : Link) (cs : list Candidate) (s : State)
    (pc : PeerConn) (q : list Candidate) :
  heap (plat s) !! l_pc l = Some pc ->
  pc_remoteDescription pc = None ->
  iceQueues (vars s) !! l_peer l = Some q ->
  exists s',
    listenerRuns l cs s = Some s'
    /\ plat s' = plat s
    /\ iceQueues (vars s') !! l_peer l = Some (q ++ cs)
    /\ (forall p, p <> l_peer l ->
          iceQueues (vars s') !! p = iceQueues (vars s) !! p).
Proof.
  revert s q. induction cs as [|c cs IH]; intros s q Hh Hr Hq.
  - exists s. rewrite app_nil_r. auto.
  - rewrite listenerRuns_cons. unfold onRemoteIce at 1.
    rewrite (getPc_Some _ _ _ Hh), Hr, Hq. cbn [mbind option_bind].
    edestruct (IH (on_vars (set_iceQueues
                              (<[l_peer l := q ++ [c]]> (iceQueues (vars s))))
                     s) (q ++ [c])) as (s' & E & Hp & Hq' & Ho).
    + exact Hh.
    + exact Hr.
    + cbn. apply lookup_insert_eq.
    + exists s'. split; [exact E|]. split; [exact Hp|].
      split; [now rewrite Hq', <- app_assoc|].
      intros p Hne. rewrite (Ho p Hne). cbn.
      now rewrite lookup_insert_ne.
Qed.

(** Once the remote description is set, arrivals go straight to the
    connection and the queues stay as they are. *)
Lemma listenerRuns_direct (l : Link) (cs : list Candidate) (s : State)
    (pc : PeerConn) :
  heap (plat s) !! l_pc l = Some pc ->
  is_Some (pc_remoteDescription pc) ->
  exists s',
    listenerRuns l cs s = Some s'
    /\ vars s' = vars s
    /\ heap (plat s') !! l_pc l
       = Some (pc_logAll (List.map AddIceCandidate cs) pc).
Proof.
  revert s pc. induction cs as [|c cs IH]; intros s pc Hh [d Hr].
  - exists s. split; [reflexivity|]. split; [reflexivity|].
    rewrite Hh. unfold pc_logAll. cbn. rewrite app_nil_r. now destruct pc.
  - rewrite listenerRuns_cons. unfold onRemoteIce at 1.
    rewrite (getPc_Some _ _ _ Hh), Hr. cbn [mbind option_bind].
    edestruct (IH (safeAddIce (l_pc l) c s) (pc_log (AddIceCandidate c) pc))
      as (s' & E & Hv & Hh').
    + unfold safeAddIce, updPc. cbn. now rewrite lookup_alter_eq, Hh.
    + exists d. exact Hr.
    + exists s'. split; [exact E|]. split; [exact Hv|].
      rewrite Hh'. unfold pc_logAll, pc_log. cbn. now rewrite <- app_assoc.
Qed.

Lemma flushIceQueue_spec (l : Link) (s : State) (pc : PeerConn)
    (q : list Candidate) :
  heap (plat s) !! l_pc l = Some pc ->
  iceQueues (vars s) !! l_peer l = Some q ->
  heap (plat (flushIceQueue l s)) !! l_pc l
    = Some (pc_logAll (List.map AddIceCandidate q) pc)
  /\ iceQueues (vars (flushIceQueue l s))
     = <[l_peer l := []]> (iceQueues (vars s)).
Proof.
  intros Hh Hq. unfold flushIceQueue, safeAddIce. rewrite Hq.
  cbn [default].
  rewrite (foldl_updPc Candidate (fun c => pc_log (AddIceCandidate c))).
  cbn. rewrite foldl_alter_lookup, Hh. cbn. now rewrite foldl_addIce.
Qed.

Lemma pc_added_log (c : PcCall) (pc : PeerConn) :
  pc_added (pc_log c pc)
  = pc_added pc ++ match c with AddIceCandidate x => [x] | _ => [] end.
Proof.
  unfold pc_added, pc_log. cbn [pc_calls]. rewrite omap_app.
  now destruct c.
Qed.

Lemma pc_added_setRemoteDescription (d : SDP) (pc : PeerConn) :
  pc_added (pc_setRemoteDescription d pc) = pc_added pc.
Proof.
  unfold pc_setRemoteDescription, pc_added, pc_log.
  destruct (pc_isClosed pc), (sdp_type d); cbn [pc_calls];
    rewrite omap_app; apply app_nil_r.
Qed.

Lemma pc_added_setLocalDescription (d : SDP) (pc : PeerConn) :
  pc_added (pc_setLocalDescription d pc) = pc_added pc.
Proof.
  unfold pc_setLocalDescription, pc_added, pc_log.
  destruct (pc_isClosed pc), (sdp_type d); cbn [pc_calls];
    rewrite omap_app; apply app_nil_r.
Qed.

Lemma pc_ready_setRemoteDescription (d : SDP) (pc : PeerConn) :
  pc_isClosed pc = false -> pc_ready (pc_setRemoteDescription d pc).
Proof.
  intros H. unfold pc_ready, pc_setRemoteDescription. rewrite H.
  destruct (sdp_type d); cbn; eauto.
Qed.

Lemma pc_ready_setLocalDescription (d : SDP) (pc : PeerConn) :
  pc_ready pc -> pc_ready (pc_setLocalDescription d pc).
Proof.
  intros [H [r Hr]]. unfold pc_ready, pc_setLocalDescription. rewrite H.
  unfold pc_remoteDescription in *.
  destruct (sdp_type d); cbn.
  - split; [reflexivity|]. rewrite Hr. eauto.
  - split; [reflexivity|].
    destruct (pc_pendingRemote pc); [eauto|]. rewrite Hr. eauto.
Qed.

Lemma pc_ready_logAll (cs : list PcCall) (pc : PeerConn) :
  pc_ready pc -> pc_ready (pc_logAll cs pc).
Proof. intros H. exact H. Qed.

Lemma pc_ready_log (c : PcCall) (pc : PeerConn) :
  pc_ready pc -> pc_ready (pc_log c pc).
Proof. intros H. exact H. Qed.

Lemma unset_remoteDescription (pc : PeerConn) :
  pc_remoteDescription pc = None -> pc_currentRemoteDescription pc = None.
Proof.
  unfold pc_remoteDescription. now destruct (pc_pendingRemote pc).
Qed.

(** The offer listener of the responder on an open connection without a
    remote description. *)
Lemma onOffer_spec (l : Link) (d : SDP) (s : State) (pc : PeerConn) :
  heap (plat s) !! l_pc l = Some pc ->
  pc_isClosed pc = false ->
  pc_remoteDescription pc = None ->
  vars (onOffer l (Some d) s) = vars s
  /\ heap (plat (onOffer l (Some d) s)) !! l_pc l
     = Some (pc_log CreateAnswer (pc_setRemoteDescription d pc)).
Proof.
  intros Hh Hc Hr. unfold onOffer.
  rewrite (getPc_Some _ _ _ Hh), (unset_remoteDescription _ Hr), Hc.
  unfold updPc. cbn. now rewrite !lookup_alter_eq, Hh.
Qed.

(** The rest of it, once the answer exists. *)
Lemma answerCreated_spec (l : Link) (a : SDP) (s : State) (pc : PeerConn)
    (q : list Candidate) :
  heap (plat s) !! l_pc l = Some pc ->
  pc_isClosed pc = false ->
  iceQueues (vars s) !! l_peer l = Some q ->
  heap (plat (answerCreated l a s)) !! l_pc l
    = Some (pc_logAll (List.map AddIceCandidate q)
              (pc_setLocalDescription a pc))
  /\ iceQueues (vars (answerCreated l a s))
     = <[l_peer l := []]> (iceQueues (vars s))
  /\ dbLog (plat (answerCreated l a s))
     = dbLog (plat s) ++ [DbSet (answerPath l) (VSdp a)].
Proof.
  intros Hh Hc Hq. unfold answerCreated.
  rewrite (getPc_Some _ _ _ Hh), Hc.
  set (s2 := dbWrite _ _).
  assert (Hh2 : heap (plat s2) !! l_pc l = Some (pc_setLocalDescription a pc))
    by (subst s2; unfold dbWrite, updPc; cbn; now rewrite lookup_alter_eq, Hh).
  assert (Hq2 : iceQueues (vars s2) !! l_peer l = Some q) by exact Hq.
  destruct (flushIceQueue_spec l s2 _ _ Hh2 Hq2) as [H1 H2].
  split; [exact H1|]. split; [exact H2|].
  unfold flushIceQueue, safeAddIce. rewrite Hq2.
  rewrite (foldl_updPc Candidate (fun c => pc_log (AddIceCandidate c))).
  reflexivity.
Qed.

(** The answer listener of the initiator on an open connection without a
    remote description. *)
Lemma onAnswer_spec (l : Link) (d : SDP) (s : State) (pc : PeerConn)
    (q : list Candidate) :
  heap (plat s) !! l_pc l = Some pc ->
  pc_isClosed pc = false ->
  pc_remoteDescription pc = None ->
  iceQueues (vars s) !! l_peer l = Some q ->
  heap (plat (onAnswer l (Some d) s)) !! l_pc l
    = Some (pc_logAll (List.map AddIceCandidate q)
              (pc_setRemoteDescription d pc))
  /\ iceQueues (vars (onAnswer l (Some d) s))
     = <[l_peer l := []]> (iceQueues (vars s)).
Proof.
  intros Hh Hc Hr Hq. unfold onAnswer.
  rewrite (getPc_Some _ _ _ Hh), (unset_remoteDescription _ Hr), Hc.
  set (s1 := updPc (l_pc l) (pc_setRemoteDescription d) s).
  assert (Hh1 : heap (plat s1) !! l_pc l
                = Some (pc_setRemoteDescription d pc))
    by (subst s1; unfold updPc; cbn; now rewrite lookup_alter_eq, Hh).
  assert (Hq1 : iceQueues (vars s1) !! l_peer l = Some q) by exact Hq.
  exact (flushIceQueue_spec l s1 _ _ Hh1 Hq1).
Qed.

(** One listener of remote candidates, alone on its path.  On an open
    connection whose remote description is not set yet, arriving
    candidates are appended to the queue of that peer, in order, and none
    reaches the connection; a null value is ignored.  On the responder
    side, candidates that arrive between the moment the offer is applied
    and the flush go straight to the connection; the flush then hands over
    the queued ones in their order of arrival, once each, and leaves the
    queue empty; later arrivals go straight to the connection.  On the
    initiator side the answer is applied and the queue flushed in one go,
    with the same result. *)
Lemma one_listener_buffers_fifo (l : Link) (s : State) (pc : PeerConn)
    (q0 pre mid post : list Candidate) (offer answer : SDP) :
  heap (plat s) !! l_pc l = Some pc ->
  pc_isClosed pc = false ->
  pc_remoteDescription pc = None ->
  iceQueues (vars s) !! l_peer l = Some q0 ->
  onRemoteIce l None s = Some s
  /\ exists s1,
       listenerRuns l pre s = Some s1
       /\ iceQueues (vars s1) !! l_peer l = Some (q0 ++ pre)
       /\ (forall p, p <> l_peer l ->
             iceQueues (vars s1) !! p = iceQueues (vars s) !! p)
       /\ pc_added (getPc (l_pc l) s1) = pc_added pc
       /\ (exists s2 s3,
             listenerRuns l mid (onOffer l (Some offer) s1) = Some s2
             /\ iceQueues (vars s2) !! l_peer l = Some (q0 ++ pre)
             /\ pc_added (getPc (l_pc l) s2) = pc_added pc ++ mid
             /\ listenerRuns l post (answerCreated l answer s2) = Some s3
             /\ iceQueues (vars s3) !! l_peer l = Some []
             /\ pc_added (getPc (l_pc l) s3)
                = pc_added pc ++ mid ++ (q0 ++ pre) ++ post)
       /\ (exists s4,
             listenerRuns l post (onAnswer l (Some answer) s1) = Some s4
             /\ iceQueues (vars s4) !! l_peer l = Some []
             /\ pc_added (getPc (l_pc l) s4)
                = pc_added pc ++ (q0 ++ pre) ++ post).
Proof.
  intros Hh Hc Hr Hq. split; [reflexivity|].
  destruct (listenerRuns_queued l pre s pc q0 Hh Hr Hq)
    as (s1 & E1 & Hp1 & Hq1 & Ho1).
  assert (Hh1 : heap (plat s1) !! l_pc l = Some pc) by now rewrite Hp1.
  exists s1. split; [exact E1|]. split; [exact Hq1|]. split; [exact Ho1|].
  split; [now rewrite (getPc_Some _ _ _ Hh1)|]. split.
  - (* responder *)
    destruct (onOffer_spec l offer s1 pc Hh1 Hc Hr) as [Hv Hho].
    set (pc1 := pc_log CreateAnswer (pc_setRemoteDescription offer pc)) in *.
    assert (R1 : pc_ready pc1)
      by (apply pc_ready_log; now apply pc_ready_setRemoteDescription).
    destruct (listenerRuns_direct l mid _ pc1 Hho (proj2 R1))
      as (s2 & E2 & Hv2 & Hh2).
    set (pc2 := pc_logAll (List.map AddIceCandidate mid) pc1) in *.
    assert (Hq2 : iceQueues (vars s2) !! l_peer l = Some (q0 ++ pre))
      by now rewrite Hv2, Hv.
    destruct (answerCreated_spec l answer s2 pc2 (q0 ++ pre) Hh2 (proj1 R1) Hq2)
      as (Hh3 & Hq3 & _).
    set (pc3 := pc_logAll (List.map AddIceCandidate (q0 ++ pre))
                  (pc_setLocalDescription answer pc2)) in *.
    assert (R3 : pc_ready pc3)
      by (apply pc_ready_logAll, pc_ready_setLocalDescription; exact R1).
    destruct (listenerRuns_direct l post _ pc3 Hh3 (proj2 R3))
      as (s3 & E3 & Hv3 & Hh4).
    exists s2, s3. split; [exact E2|]. split; [exact Hq2|].
    split.
    { rewrite (getPc_Some _ _ _ Hh2). subst pc2 pc1.
      now rewrite pc_added_candidates, pc_added_log,
        pc_added_setRemoteDescription, app_nil_r. }
    split; [exact E3|]. split.
    { rewrite Hv3, Hq3. apply lookup_insert_eq. }
    rewrite (getPc_Some _ _ _ Hh4). subst pc3 pc2 pc1.
    rewrite !pc_added_candidates, pc_added_setLocalDescription,
      pc_added_candidates, pc_added_log, pc_added_setRemoteDescription,
      app_nil_r.
    now rewrite <- !app_assoc.
  - (* initiator *)
    destruct (onAnswer_spec l answer s1 pc (q0 ++ pre) Hh1 Hc Hr Hq1)
      as [Hh5 Hq5].
    set (pc5 := pc_logAll (List.map AddIceCandidate (q0 ++ pre))
                  (pc_setRemoteDescription answer pc)) in *.
    assert (R5 : pc_ready pc5)
      by (apply pc_ready_logAll; now apply pc_ready_setRemoteDescription).
    destruct (listenerRuns_direct l post _ pc5 Hh5 (proj2 R5))
      as (s4 & E4 & Hv4 & Hh6).
    exists s4. split; [exact E4|]. split.
    { rewrite Hv4, Hq5. apply lookup_insert_eq. }
    rewrite (getPc_Some _ _ _ Hh6). subst pc5.
    rewrite !pc_added_candidates, pc_added_setRemoteDescription.
    now rewrite <- !app_assoc.
Qed.

(** On the first connection of [bob] to [alice]: two candidates arrive
    before the answer and one after it. *)
Example first_connection_buffers_fifo :
  exists s1 s4,
    listenerRuns aliceLink [cand1; cand2] bobWithAlice = Some s1
    /\ iceQueues (vars s1) !! lit "alice" = Some [cand1; cand2]
    /\ pc_added (getPc 0%nat s1) = []
    /\ listenerRuns aliceLink [cand4] (onAnswer aliceLink (Some demoAnswer) s1)
       = Some s4
    /\ iceQueues (vars s4) !! lit "alice" = Some []
    /\ pc_added (getPc 0%nat s4) = [cand1; cand2; cand4].
Proof.
  destruct (one_listener_buffers_fifo aliceLink bobWithAlice freshPc []
              [cand1; cand2] [cand3] [cand4] demoOffer demoAnswer)
    as (_ & s1 & E1 & Hq1 & _ & Ha1 & _ & s4 & E4 & Hq4 & Ha4).
  - vm_compute. reflexivity.
  - reflexivity.
  - reflexivity.
  - vm_compute. reflexivity.
  - exists s1, s4. repeat split; assumption.
Qed.

(** With one listener on the path, the store runs that listener. *)
Lemma iceArrival_single (path : jsstring) (l : Link) (c : Candidate)
    (s : State) :
  iceListenersAt path s = [l] ->
  iceArrival path c s = default s (onRemoteIce l (Some c) s).
Proof. intros H. unfold iceArrival. now rewrite H. Qed.

(** C3 fails on the code: [removePeer] leaves the listener of remote
    candidates of the removed connection installed, and the queue is found
    by the name of the peer.  [alice] leaves before she has answered and
    joins again; [bob] now has two listeners on her candidates, the one of
    the closed connection and the one of the new connection.  One
    candidate arrives before her answer: both listeners append it to the
    queue of the new connection, and when the answer is applied the flush
    hands it to the connection twice. *)
Theorem stale_listener_applies_twice :
  iceListenersAt (icePath aliceLink2) aliceBack = [aliceLink; aliceLink2]
  /\ answerListenersAt (answerPath aliceLink2) aliceBackCandidate
     = [aliceLink; aliceLink2]
  /\ peerConns (vars aliceBack) !! lit "alice" = Some 1%nat
  /\ pc_isClosed (getPc 0%nat aliceBack) = true
  /\ pc_isClosed (getPc 1%nat aliceBack) = false
  /\ pc_remoteDescription (getPc 1%nat aliceBack) = None
  /\ iceQueues (vars aliceBack) !! lit "alice" = Some []
  /\ iceQueues (vars aliceBackCandidate) !! lit "alice" = Some [cand1; cand1]
  /\ pc_added (getPc 1%nat aliceBackCandidate) = []
  /\ iceQueues (vars aliceBackAnswered) !! lit "alice" = Some []
  /\ pc_added (getPc 1%nat aliceBackAnswered) = [cand1; cand1].
Proof. vm_compute. repeat split. Qed.

(** *** Recovery after a failure *)

Lemma pc_restarts_log (c : PcCall) (pc : PeerConn) :
  pc_restarts (pc_log c pc)
  = (pc_restarts pc + match c with RestartIce => 1 | _ => 0 end)%nat.
Proof.
  unfold pc_restarts, pc_log. cbn [pc_calls].
  rewrite List.filter_app, length_app. now destruct c.
Qed.

Lemma pc_restarts_close (pc : PeerConn) :
  pc_restarts (pc_close pc) = pc_restarts pc.
Proof.
  unfold pc_restarts, pc_close. cbn [pc_calls].
  rewrite List.filter_app, length_app. cbn. lia.
Qed.

Lemma removePeer_restarts (p : jsstring) (s : State) (j : nat) :
  pc_restarts (getPc j (removePeer p s)) = pc_restarts (getPc j s).
Proof.
  unfold getPc. rewrite removePeer_heap.
  destruct (peerConns (vars s) !! p) as [id|]; [|reflexivity].
  destruct (decide (id = j)) as [->|Hne].
  - rewrite lookup_alter_eq. destruct (heap (plat s) !! j); [|reflexivity].
    apply pc_restarts_close.
  - now rewrite lookup_alter_ne.
Qed.

Lemma watchAudioLevel_heap (p : jsstring) (ok : bool) (s : State) :
  heap (plat (watchAudioLevel p ok s)) = heap (plat s).
Proof.
  unfold watchAudioLevel. destruct (truthyAt _ _); [reflexivity|].
  now destruct ok.
Qed.

(** The responder side calls [restartIce] in no connection state. *)
Lemma responder_never_restarts (l : Link) (st : ConnState) (ok : bool)
    (s : State) (j : nat) :
  l_iAmInitiator l = false ->
  pc_restarts (getPc j (onconnectionstatechange l st ok s))
  = pc_restarts (getPc j s).
Proof.
  intros Hr. unfold onconnectionstatechange, updateTileConnState. rewrite Hr.
  destruct st; cbv beta iota zeta; cbn [andb]; try reflexivity.
  - unfold getPc. now rewrite watchAudioLevel_heap.
  - now rewrite removePeer_restarts.
Qed.

(** On the initiator side every transition to [failed] of an open
    connection calls [restartIce] once and asks for an offer flagged as a
    restart: the handler keeps no record of an earlier attempt. *)
Lemma initiator_restarts_on_each_failure (l : Link) (ok : bool) (s : State)
    (pc : PeerConn) :
  l_iAmInitiator l = true ->
  heap (plat s) !! l_pc l = Some pc ->
  pc_isClosed pc = false ->
  heap (plat (onconnectionstatechange l CsFailed ok s)) !! l_pc l
  = Some (pc_logAll [RestartIce; CreateOffer true] pc).
Proof.
  intros Hi Hh Hc. unfold onconnectionstatechange, updateTileConnState.
  cbv beta iota zeta. rewrite Hi, (getPc_Some _ _ _ Hh), Hc. cbn [andb negb].
  unfold updPc. cbn. rewrite !lookup_alter_eq, Hh. cbn.
  unfold pc_log, pc_logAll. cbn. now rewrite <- app_assoc.
Qed.

(** C1 fails on the code: [bob], initiator towards [alice], sees the
    connection fail, restarts ICE and republishes an offer; when the
    connection fails a second time the handler restarts ICE again and a
    further offer is republished to the same path.  The comment in the
    handler announces a single restart. *)
Theorem second_failure_restarts_again :
  l_iAmInitiator aliceLink = true
  /\ pc_restarts (getPc 0%nat bobWithAlice) = 0%nat
  /\ pc_restarts (getPc 0%nat afterFirstFailure) = 1%nat
  /\ offerWrites (offerPath aliceLink) (dbLog (plat afterFirstFailure)) = 2%nat
  /\ pc_restarts (getPc 0%nat afterSecondFailure) = 2%nat
  /\ offerWrites (offerPath aliceLink) (dbLog (plat afterSecondFailure)) = 3%nat.
Proof. vm_compute. repeat split. Qed.

(** *** Reachable states are well formed *)

Lemma str_eqb_sym (x y : jsstring) : str_eqb x y = str_eqb y x.
Proof.
  destruct (str_eqb x y) eqn:E.
  - apply str_eqb_eq in E. subst. symmetry. apply str_eqb_refl.
  - destruct (str_eqb y x) eqn:F; [|reflexivity].
    apply str_eqb_eq in F. subst. now rewrite str_eqb_refl in E.
Qed.

Lemma tileId_inj (a b : jsstring) : tileId a = tileId b -> a = b.
Proof. unfold tileId. apply app_inv_head. Qed.

Lemma hasTile_app (p : jsstring) (g h : list Tile) :
  hasTile p (g ++ h) = hasTile p g || hasTile p h.
Proof. unfold hasTile. apply existsb_app. Qed.

Lemma uniqueTiles_snoc (g : list Tile) (t : Tile) :
  uniqueTiles g = true ->
  existsb (fun u => str_eqb (tile_id u) (tile_id t)) g = false ->
  uniqueTiles (g ++ [t]) = true.
Proof.
  induction g as [|t0 g IH]; [reflexivity|].
  cbn [uniqueTiles existsb app]. intros Hu He.
  apply andb_true_iff in Hu as [Hn Hu]. apply negb_true_iff in Hn.
  apply orb_false_iff in He as [H0 He].
  rewrite existsb_app, Hn. cbn [existsb].
  rewrite str_eqb_sym, H0. cbn. now apply IH.
Qed.

Lemma existsb_removeTile (f : Tile -> bool) (q : jsstring) (g : list Tile) :
  existsb f g = false -> existsb f (removeTile q g) = false.
Proof.
  induction g as [|t g IH]; [reflexivity|]. cbn [existsb removeTile].
  intros H. apply orb_false_iff in H as [Ht Hg].
  destruct (isTile q t); [exact Hg|]. cbn [existsb]. rewrite Ht. now apply IH.
Qed.

Lemma uniqueTiles_removeTile (q : jsstring) (g : list Tile) :
  uniqueTiles g = true -> uniqueTiles (removeTile q g) = true.
Proof.
  induction g as [|t g IH]; [reflexivity|]. cbn [uniqueTiles removeTile].
  intros H. apply andb_true_iff in H as [Hn Hu].
  destruct (isTile q t); [exact Hu|]. cbn [uniqueTiles].
  apply negb_true_iff in Hn.
  rewrite (existsb_removeTile _ q g Hn). cbn. now apply IH.
Qed.

Lemma hasTile_removeTile_ne (p q : jsstring) (g : list Tile) :
  p <> q -> hasTile p (removeTile q g) = hasTile p g.
Proof.
  intros Hne. induction g as [|t g IH]; [reflexivity|].
  cbn [removeTile hasTile existsb]. destruct (isTile q t) eqn:Hq.
  - assert (Hp : isTile p t = false).
    { unfold isTile in *. apply str_eqb_eq in Hq. apply str_eqb_neq.
      rewrite Hq. intros E. apply Hne. symmetry. now apply tileId_inj. }
    now rewrite Hp.
  - cbn [hasTile existsb]. f_equal. exact IH.
Qed.

Lemma existsb_updTile (h : Tile -> bool) (q : jsstring) (f : Tile -> Tile)
    (g : list Tile) :
  (forall t, h (f t) = h t) -> existsb h (updTile q f g) = existsb h g.
Proof.
  intros Hf. induction g as [|t g IH]; [reflexivity|]. cbn [updTile].
  destruct (isTile q t); cbn [existsb]; [now rewrite Hf|now rewrite IH].
Qed.

Lemma uniqueTiles_updTile (q : jsstring) (f : Tile -> Tile) (g : list Tile) :
  (forall t, tile_id (f t) = tile_id t) ->
  uniqueTiles (updTile q f g) = uniqueTiles g.
Proof.
  intros Hf. induction g as [|t g IH]; [reflexivity|]. cbn [updTile].
  destruct (isTile q t); cbn [uniqueTiles].
  - now rewrite Hf.
  - rewrite IH. f_equal. f_equal. apply existsb_updTile.
    intros u. now rewrite Hf.
Qed.

Lemma hasTile_updTile (p q : jsstring) (f : Tile -> Tile) (g : list Tile) :
  (forall t, tile_id (f t) = tile_id t) ->
  hasTile p (updTile q f g) = hasTile p g.
Proof.
  intros Hf. apply existsb_updTile. intros t. unfold isTile. now rewrite Hf.
Qed.

Lemma addTile_wellFormed (id : jsstring) (t : Tile) (g : list Tile) :
  tile_id t = tileId id ->
  uniqueTiles g = true ->
  let g' := if hasTile id g then g else g ++ [t] in
  uniqueTiles g' = true
  /\ hasTile id g' = true
  /\ (forall p, hasTile p g = true -> hasTile p g' = true).
Proof.
  intros Ht Hu g'. subst g'. destruct (hasTile id g) eqn:E; [auto|].
  split; [|split].
  - apply uniqueTiles_snoc; [exact Hu|]. rewrite Ht. exact E.
  - rewrite hasTile_app. cbn. unfold isTile. rewrite Ht, str_eqb_refl.
    now rewrite !orb_true_r.
  - intros p Hp. now rewrite hasTile_app, Hp.
Qed.

Lemma addPeerTile_videoGrid (p : jsstring) (s : State) :
  videoGrid (page (addPeerTile p s))
  = if hasTile p (videoGrid (page s)) then videoGrid (page s)
    else videoGrid (page s) ++ [mkTile (tileId p) (Some LdConnecting) false].
Proof. unfold addPeerTile. now destruct (hasTile _ _). Qed.

Lemma connectToPeer_videoGrid (peer room : jsstring) (init : bool)
    (s : State) :
  truthyAt (peerConns (vars s)) peer = false ->
  videoGrid (page (connectToPeer peer room init s).1)
  = if hasTile peer (videoGrid (page s)) then videoGrid (page s)
    else videoGrid (page s)
           ++ [mkTile (tileId peer) (Some LdConnecting) false].
Proof.
  intros H. unfold connectToPeer. rewrite H. rewrite addPeerTile_vars.
  cbn [on_vars on_plat vars set_iceQueues set_peerConns localStream].
  destruct (localStream (vars s)) as [ls|].
  - rewrite (foldl_updPc nat (fun t => pc_log (AddTrack t))).
    destruct init; cbn; now rewrite addPeerTile_videoGrid.
  - cbn. now rewrite addPeerTile_videoGrid.
Qed.

Lemma foldl_alter_is_Some (A : Type) (f : A -> PeerConn -> PeerConn)
    (id j : nat) (xs : list A) (h : gmap nat PeerConn) :
  is_Some (h !! j) ->
  is_Some (foldl (fun h x => alter (f x) id h) h xs !! j).
Proof.
  revert h. induction xs as [|x xs IH]; intros h Hh; [exact Hh|].
  cbn [foldl]. apply IH. destruct (decide (id = j)) as [->|Hne].
  - rewrite lookup_alter_eq. destruct Hh as [v ->]. cbn. eauto.
  - now rewrite lookup_alter_ne.
Qed.

Lemma connectToPeer_heap (peer room : jsstring) (init : bool) (s : State)
    (j : nat) :
  truthyAt (peerConns (vars s)) peer = false ->
  is_Some (heap (plat s) !! j) \/ j = nextObj (plat s) ->
  is_Some (heap (plat (connectToPeer peer room init s).1) !! j).
Proof.
  intros H Hj. unfold connectToPeer. rewrite H. rewrite addPeerTile_vars.
  cbn [on_vars on_plat vars set_iceQueues set_peerConns localStream].
  assert (Hi : is_Some (<[nextObj (plat s) := newPc]> (heap (plat s)) !! j)).
  { destruct Hj as [Hj| ->].
    - destruct (decide (nextObj (plat s) = j)) as [->|Hne].
      + rewrite lookup_insert_eq. eauto.
      + now rewrite lookup_insert_ne.
    - rewrite lookup_insert_eq. eauto. }
  pose proof (fun xs h => foldl_alter_is_Some nat
                (fun t => pc_log (AddTrack t)) (nextObj (plat s)) j xs h) as Hf.
  destruct (localStream (vars s)) as [ls|].
  - rewrite (foldl_updPc nat (fun t => pc_log (AddTrack t))).
    rewrite addPeerTile_plat. cbn [on_plat plat set_heap set_nextObj heap].
    destruct init; cbn.
    + destruct (decide (nextObj (plat s) = j)) as [E|Hne].
      * rewrite <- E in *. rewrite lookup_alter_eq.
        destruct (Hf (ms_tracks ls) _ Hi) as [v ->]. cbn. eauto.
      * rewrite lookup_alter_ne by exact Hne. now apply Hf.
    + now apply Hf.
  - cbn. rewrite addPeerTile_plat. exact Hi.
Qed.

Lemma wellFormed_ext (s s' : State) :
  wellFormed s ->
  peerConns (vars s') = peerConns (vars s) ->
  (forall j, is_Some (heap (plat s) !! j) -> is_Some (heap (plat s') !! j)) ->
  uniqueTiles (videoGrid (page s')) = true ->
  (forall p, hasTile p (videoGrid (page s)) = true ->
             hasTile p (videoGrid (page s')) = true) ->
  wellFormed s'.
Proof.
  intros [Hu Hp] Hpc Hh Hu' Ht. split; [exact Hu'|].
  intros p id H. rewrite Hpc in H. destruct (Hp p id H) as [H1 H2]. auto.
Qed.

Lemma removePeer_wellFormed (p : jsstring) (s : State) :
  wellFormed s -> wellFormed (removePeer p s).
Proof.
  destruct (removePeerThrows p s) eqn:T;
    [now rewrite removePeer_throws by exact T|].
  intros [Hu Hp]. split.
  - rewrite removePeer_videoGrid by exact T. now apply uniqueTiles_removeTile.
  - intros q id. rewrite removePeer_peerConns, removePeer_heap,
      removePeer_videoGrid by exact T.
    destruct (decide (q = p)) as [->|Hne];
      [rewrite lookup_delete_eq; discriminate|].
    rewrite lookup_delete_ne by congruence. intros H.
    destruct (Hp q id H) as [[pc Hh] Ht]. split.
    + destruct (peerConns (vars s) !! p) as [j|]; [|eauto].
      destruct (decide (j = id)) as [->|Hj].
      * rewrite lookup_alter_eq, Hh. cbn. eauto.
      * rewrite lookup_alter_ne by exact Hj. eauto.
    + now rewrite hasTile_removeTile_ne.
Qed.

Lemma foldl_removePeer_wellFormed (ps : list jsstring) (s : State) :
  wellFormed s -> wellFormed (foldl (fun acc p => removePeer p acc) s ps).
Proof.
  revert s. induction ps as [|p ps IH]; intros s H; [exact H|].
  cbn [foldl]. apply IH. now apply removePeer_wellFormed.
Qed.

Lemma startJoin_wellFormed (media : MediaStream + jsstring) (s : State) :
  wellFormed s -> wellFormed (startJoin media s).
Proof.
  intros H. unfold startJoin.
  destruct (negb (db s) || negb (truthy (username s)));
    [exact H|]. destruct media as [st|msg]; [|exact H].
  destruct H as [Hu Hp].
  destruct (addTile_wellFormed (lit "__local__")
              (mkTile (tileId (lit "__local__")) None true)
              (videoGrid (page s)) eq_refl Hu) as (H1 & _ & H3).
  unfold addVideoTile. cbn [on_vars on_page page videoGrid].
  destruct (hasTile (lit "__local__") (videoGrid (page s))) eqn:E;
    (split; [exact H1|]); intros p id Hpid; destruct (Hp p id Hpid);
    split; auto; apply H3; assumption.
Qed.

Lemma onChildAdded_wellFormed (key : jsstring) (s : State) :
  wellFormed s -> wellFormed (onChildAdded key s).1.
Proof.
  intros H. unfold onChildAdded.
  destruct (str_eqb key (username s)); cbn [orb]; [exact H|].
  destruct (truthyAt (peerConns (vars s)) key) eqn:E; [exact H|].
  destruct H as [Hu Hp].
  destruct (addTile_wellFormed key
              (mkTile (tileId key) (Some LdConnecting) false)
              (videoGrid (page s)) eq_refl Hu) as (H1 & H2 & H3).
  split.
  - now rewrite connectToPeer_videoGrid.
  - intros p id. rewrite connectToPeer_peerConns, connectToPeer_videoGrid
      by exact E.
    destruct (decide (p = key)) as [->|Hne].
    + rewrite lookup_insert_eq. intros [= <-]. split; [|exact H2].
      apply connectToPeer_heap; auto.
    + rewrite lookup_insert_ne by congruence. intros Hpid.
      destruct (Hp p id Hpid). split; [|now apply H3].
      apply connectToPeer_heap; auto.
Qed.

Lemma watchAudioLevel_page (p : jsstring) (ok : bool) (s : State) :
  page (watchAudioLevel p ok s) = page s.
Proof.
  unfold watchAudioLevel. destruct (truthyAt _ _); [reflexivity|].
  now destruct ok.
Qed.

Lemma onconnectionstatechange_wellFormed (l : Link) (st : ConnState)
    (ok : bool) (s : State) :
  wellFormed s -> wellFormed (onconnectionstatechange l st ok s).
Proof.
  intros H. unfold onconnectionstatechange, updateTileConnState.
  destruct st; cbv beta iota zeta; try exact H.
  - (* connected *)
    apply (wellFormed_ext s); [exact H| | | |].
    + unfold watchAudioLevel. destruct (truthyAt _ _); [reflexivity|].
      now destruct ok.
    + intros j Hj. now rewrite watchAudioLevel_heap.
    + rewrite watchAudioLevel_page. cbn [page on_page videoGrid set_videoGrid].
      rewrite uniqueTiles_updTile by reflexivity. apply H.
    + intros p Hp. rewrite watchAudioLevel_page.
      cbn [page on_page videoGrid set_videoGrid].
      now rewrite hasTile_updTile.
  - (* disconnected *)
    apply (wellFormed_ext s); [exact H|reflexivity|auto| |].
    + cbn [page on_page videoGrid set_videoGrid].
      rewrite uniqueTiles_updTile by reflexivity. apply H.
    + intros p Hp. cbn [page on_page videoGrid set_videoGrid].
      now rewrite hasTile_updTile.
  - (* failed *)
    destruct (_ && _); [|exact H].
    apply (wellFormed_ext s); [exact H|reflexivity| |apply H|auto].
    intros j [pc Hj]. unfold updPc. cbn.
    destruct (decide (l_pc l = j)) as [->|Hne].
    + rewrite !lookup_alter_eq, Hj. cbn. eauto.
    + rewrite !lookup_alter_ne by exact Hne. eauto.
  - (* closed *)
    now apply removePeer_wellFormed.
Qed.

Lemma leaveCall_wellFormed (s : State) : wellFormed s -> wellFormed (leaveCall s).
Proof.
  intros H. destruct (inCall s) eqn:E.
  - destruct (leaveCall_fields s E) as (Hv & _ & _ & _ & _ & Hg).
    split; [now rewrite Hg|].
    intros p id. rewrite Hv. cbn [peerConns].
    rewrite foldl_removePeer_peerConns, foldl_delete_keys, lookup_empty.
    discriminate.
  - unfold leaveCall. now rewrite E.
Qed.

Lemma step_wellFormed (e : Event) (s : State) :
  wellFormed s -> wellFormed (step e s).
Proof.
  destruct e; cbn [step].
  - apply startJoin_wellFormed.
  - apply onChildAdded_wellFormed.
  - apply removePeer_wellFormed.
  - apply onconnectionstatechange_wellFormed.
  - apply leaveCall_wellFormed.
Qed.

(** Every state reached from a fresh login through joins, roster events,
    connection-state events and leaves is well formed: each identity of the
    mapping has its connection object and exactly one tile. *)
Lemma run_wellFormed (es : list Event) (s : State) :
  wellFormed s -> wellFormed (run es s).
Proof.
  unfold run. revert s. induction es as [|e es IH]; intros s H; [exact H|].
  cbn [foldl]. apply IH. now apply step_wellFormed.
Qed.

Lemma loggedIn_wellFormed (user : jsstring) : wellFormed (loggedIn user).
Proof. split; [reflexivity|]. intros p id H. discriminate. Qed.

(** C6: in a well-formed state (every reachable state is one), for a peer
    [P] that has a connection, [removePeer(P)] closes that connection and
    no other, drops [P] from the mapping of connections, from the candidate
    queues and from the audio monitors (stopping the monitor's timer and
    closing its audio context when there was one), leaves the entries of
    every other peer alone, and removes one tile, after which no tile of
    [P] is left; run again right away it changes nothing. *)
Theorem removePeer_once (P : jsstring) (s : State) (id : nat) :
  wellFormed s ->
  peerConns (vars s) !! P = Some id ->
  let s' := removePeer P s in
  (exists pc, heap (plat s) !! id = Some pc
              /\ heap (plat s') !! id = Some (pc_close pc)
              /\ pc_isClosed (pc_close pc) = true)
  /\ (forall j, j <> id -> heap (plat s') !! j = heap (plat s) !! j)
  /\ peerConns (vars s') !! P = None
  /\ iceQueues (vars s') !! P = None
  /\ audioAnalysers (vars s') !! P = None
  /\ (forall q, q <> P ->
        peerConns (vars s') !! q = peerConns (vars s) !! q
        /\ iceQueues (vars s') !! q = iceQueues (vars s) !! q
        /\ audioAnalysers (vars s') !! q = audioAnalysers (vars s) !! q)
  /\ (forall a, audioAnalysers (vars s) !! P = Some a ->
        clearedIntervals (plat s') = clearedIntervals (plat s) ++ [an_interval a]
        /\ closedCtx (plat s') = closedCtx (plat s) ++ [an_ctx a])
  /\ S (length (videoGrid (page s'))) = length (videoGrid (page s))
  /\ hasTile P (videoGrid (page s')) = false
  /\ removePeer P s' = s'.
Proof.
  intros [Hu Hw] Hp s'. destruct (Hw P id Hp) as [[pc Hh] Ht].
  destruct (removePeer_effects P s id pc Hp Hh Ht Hu)
    as (H1 & H2 & H3 & H4 & H5 & H6 & H7 & H8 & H9 & H10).
  split; [exists pc; auto|]. auto 12.
Qed.

(** The theorem at work: [bob] joins, [alice] appears in the roster, and
    [bob] removes her. *)
Lemma removePeer_once_witness :
  let s := run [EvJoin (inl camera); EvChildAdded (lit "alice")]
             (loggedIn (lit "bob")) in
  let s' := removePeer (lit "alice") s in
  heap (plat s') !! 0%nat = Some (pc_close freshPc)
  /\ peerConns (vars s') !! lit "alice" = None
  /\ S (length (videoGrid (page s'))) = length (videoGrid (page s))
  /\ hasTile (lit "alice") (videoGrid (page s')) = false
  /\ removePeer (lit "alice") s' = s'.
Proof.
  intros s.
  destruct (removePeer_once (lit "alice") s 0%nat)
    as ((pc & Hh & H1 & _) & _ & H3 & _ & _ & _ & _ & H8 & H9 & H10).
  - apply run_wellFormed, loggedIn_wellFormed.
  - vm_compute. reflexivity.
  - assert (E : pc = freshPc).
    { assert (F : heap (plat s) !! 0%nat = Some freshPc)
        by (vm_compute; reflexivity).
      rewrite F in Hh. now injection Hh. }
    subst pc. cbv zeta.
    split; [exact H1|]. split; [exact H3|]. split; [exact H8|].
    split; [exact H9|exact H10].
Defined.

End VideoSpec.

(* ===================================================================== *)
(** ** Channel names and the room list *)
(* ===================================================================== *)

Module RoomsSpec.
Import JS JSFacts Rooms.

(** *** Names *)

Lemma dashify_chars (s : jsstring) :
  List.Forall (fun c => room_char c = true) (dashify s).
Proof.
  unfold dashify. induction s as [|c s IH]; cbn [List.map]; constructor; auto.
  destruct (room_char c) eqn:E; [exact E|reflexivity].
Qed.

Lemma collapse_chars (P : N -> Prop) (s : jsstring) :
  List.Forall P s -> List.Forall P (collapse s).
Proof.
  induction 1 as [|c s Hc Hs IH]; cbn [collapse]; [constructor|].
  destruct (_ && _); [exact IH|]. now constructor.
Qed.

Lemma collapse_head (s : jsstring) :
  startsWithHyphen (collapse s) = startsWithHyphen s.
Proof.
  induction s as [|c s IH]; [reflexivity|]. cbn [collapse].
  fold (startsWithHyphen s).
  destruct (c =? 45) eqn:Ec, (startsWithHyphen s) eqn:Es; cbn [andb].
  - rewrite IH. cbn. now rewrite Ec.
  - cbn. now rewrite Ec.
  - cbn. now rewrite Ec.
  - cbn. now rewrite Ec.
Qed.

Lemma collapse_noDouble (s : jsstring) : noDoubleHyphen (collapse s) = true.
Proof.
  induction s as [|c s IH]; [reflexivity|]. cbn [collapse].
  fold (startsWithHyphen s).
  destruct ((c =? 45) && startsWithHyphen s) eqn:E; [exact IH|].
  cbn [noDoubleHyphen]. fold (startsWithHyphen (collapse s)).
  now rewrite collapse_head, E, IH.
Qed.

Lemma noDouble_prefix (a b : jsstring) :
  noDoubleHyphen (a ++ b) = true -> noDoubleHyphen a = true.
Proof.
  induction a as [|c a IH]; [reflexivity|]. cbn [app noDoubleHyphen].
  intros H. apply andb_true_iff in H as [H1 H2]. rewrite (IH H2), andb_true_r.
  destruct a as [|d a]; [now rewrite andb_false_r|exact H1].
Qed.

Lemma noDouble_snoc_hyphen (p : jsstring) :
  noDoubleHyphen (p ++ [45]) = true -> endsWithHyphen p = false.
Proof.
  unfold endsWithHyphen. induction p as [|c p IH]; [reflexivity|].
  cbn [app noDoubleHyphen]. intros H. apply andb_true_iff in H as [H1 H2].
  specialize (IH H2). cbn [rev].
  destruct p as [|d p].
  - cbn in *. apply negb_true_iff in H1. now rewrite andb_true_r in H1.
  - cbn [rev] in *. destruct (rev p ++ [d]) eqn:E.
    + now destruct (rev p).
    + exact IH.
Qed.

Lemma dropLeading_suffix (s : jsstring) :
  dropLeading s = s \/ s = 45 :: dropLeading s.
Proof.
  destruct s as [|c s]; [now left|]. cbn. destruct (c =? 45) eqn:E.
  - right. apply N.eqb_eq in E. now subst.
  - now left.
Qed.

Lemma dropLeading_not_hyphen (s : jsstring) :
  dropLeading s = s -> startsWithHyphen s = false.
Proof.
  destruct s as [|c s]; [reflexivity|]. cbn. destruct (c =? 45); [|reflexivity].
  intros E. apply (f_equal (@length N)) in E. cbn in E. lia.
Qed.

Lemma dropTrailing_prefix (s : jsstring) :
  (dropTrailing s = s /\ endsWithHyphen s = false)
  \/ s = dropTrailing s ++ [45].
Proof.
  unfold dropTrailing, endsWithHyphen.
  destruct (dropLeading_suffix (rev s)) as [E|E].
  - left. rewrite E, rev_involutive. split; [reflexivity|].
    now apply dropLeading_not_hyphen.
  - right. rewrite <- (rev_involutive s) at 1. rewrite E. reflexivity.
Qed.

Lemma stripEnds_noDouble (s : jsstring) :
  noDoubleHyphen s = true -> noDoubleHyphen (stripEnds s) = true.
Proof.
  intros H. unfold stripEnds.
  assert (H1 : noDoubleHyphen (dropLeading s) = true).
  { destruct (dropLeading_suffix s) as [E|E]; [now rewrite E|].
    rewrite E in H. cbn [noDoubleHyphen] in H.
    now apply andb_true_iff in H as [_ H]. }
  destruct (dropTrailing_prefix (dropLeading s)) as [[E _]|E];
    [now rewrite E|].
  rewrite E in H1. now apply noDouble_prefix in H1.
Qed.

Lemma stripEnds_chars (P : N -> Prop) (s : jsstring) :
  List.Forall P s -> List.Forall P (stripEnds s).
Proof.
  intros H. unfold stripEnds.
  assert (H1 : List.Forall P (dropLeading s)).
  { destruct (dropLeading_suffix s) as [E|E]; [now rewrite E|].
    rewrite E in H. now inversion H. }
  destruct (dropTrailing_prefix (dropLeading s)) as [[E _]|E];
    [now rewrite E|].
  rewrite E in H1. now apply Forall_app in H1 as [H1 _].
Qed.

Lemma stripEnds_start (s : jsstring) :
  noDoubleHyphen s = true -> startsWithHyphen (stripEnds s) = false.
Proof.
  intros H. unfold stripEnds.
  assert (H1 : startsWithHyphen (dropLeading s) = false).
  { destruct (dropLeading_suffix s) as [E|E].
    - rewrite E. now apply dropLeading_not_hyphen.
    - rewrite E in H. cbn [noDoubleHyphen] in H.
      apply andb_true_iff in H as [H _]. apply negb_true_iff in H.
      exact H. }
  destruct (dropTrailing_prefix (dropLeading s)) as [[E _]|E];
    [now rewrite E|].
  destruct (dropTrailing (dropLeading s)) as [|c t]; [reflexivity|].
  rewrite E in H1. exact H1.
Qed.

Lemma stripEnds_end (s : jsstring) :
  noDoubleHyphen s = true -> endsWithHyphen (stripEnds s) = false.
Proof.
  intros H. pose proof (stripEnds_noDouble s H) as H2. unfold stripEnds in *.
  assert (H1 : noDoubleHyphen (dropLeading s) = true).
  { destruct (dropLeading_suffix s) as [E|E]; [now rewrite E|].
    rewrite E in H. cbn [noDoubleHyphen] in H.
    now apply andb_true_iff in H as [_ H]. }
  destruct (dropTrailing_prefix (dropLeading s)) as [[E He]|E].
  - now rewrite E.
  - rewrite E in H1. now apply noDouble_snoc_hyphen.
Qed.

(** X1: whatever is typed, and whatever [toLowerCase] does to it, the
    channel name [createRoom] derives has at most 30 code units, all of
    them lower-case ASCII letters, digits or hyphens, does not start with a
    hyphen and has no two hyphens in a row; it can end with a hyphen only
    when it was cut at 30. *)
Theorem roomName_wellformed (toLowerCase : jsstring -> jsstring)
    (raw : jsstring) :
  let name := roomName toLowerCase raw in
  (length name <= 30)%nat
  /\ List.Forall (fun c => room_char c = true) name
  /\ startsWithHyphen name = false
  /\ noDoubleHyphen name = true
  /\ (endsWithHyphen name = true -> length name = 30%nat).
Proof.
  intros name. subst name. unfold roomName, slice0.
  set (x := collapse (dashify (toLowerCase (trim raw)))).
  assert (Hx : noDoubleHyphen x = true) by apply collapse_noDouble.
  assert (Hc : List.Forall (fun c => room_char c = true) x)
    by apply collapse_chars, dashify_chars.
  set (y := stripEnds x).
  assert (Hy : noDoubleHyphen y = true) by now apply stripEnds_noDouble.
  split; [apply firstn_le_length|].
  split; [apply Forall_take; now apply stripEnds_chars|].
  split.
  { pose proof (stripEnds_start x Hx) as Hs. fold y in Hs.
    destruct y as [|c t]; [reflexivity|exact Hs]. }
  split.
  { apply (noDouble_prefix _ (skipn 30 y)). now rewrite firstn_skipn. }
  intros He. destruct (Nat.le_gt_cases (length y) 30) as [Hl|Hl].
  - rewrite firstn_all2 in He by exact Hl.
    pose proof (stripEnds_end x Hx) as Hn. fold y in Hn. congruence.
  - rewrite length_firstn. lia.
Qed.

(** *** The room list *)

Lemma includes_spec (n : jsstring) (rs : list jsstring) :
  includes n rs = true <-> n ∈ rs.
Proof.
  unfold includes. rewrite existsb_exists, list_elem_of_In. split.
  - intros (x & Hx & E). apply str_eqb_eq in E. now subst.
  - intros H. exists n. split; [exact H|apply str_eqb_refl].
Qed.

Lemma includes_false (n : jsstring) (rs : list jsstring) :
  includes n rs = false <-> n ∉ rs.
Proof.
  rewrite <- includes_spec. destruct (includes n rs); split; congruence.
Qed.

Lemma default_rooms_NoDup : NoDup Gun.DEFAULT_ROOMS.
Proof. apply (bool_decide_unpack _). vm_compute. exact I. Qed.

Lemma roomsOk_default : roomsOk Gun.DEFAULT_ROOMS.
Proof.
  split; [exists []; now rewrite app_nil_r|apply default_rooms_NoDup].
Qed.

Lemma roomsOk_push (rs : list jsstring) (n : jsstring) :
  roomsOk rs -> n ∉ rs -> roomsOk (rs ++ [n]).
Proof.
  intros [[cs ->] Hn] Hin. split.
  - exists (cs ++ [n]). now rewrite app_assoc.
  - apply NoDup_app. split; [exact Hn|]. split.
    + intros x Hx Hx'. apply list_elem_of_singleton in Hx'. now subst.
    + apply NoDup_singleton.
Qed.

Lemma pushMissing_roomsOk (saved rs : list jsstring) :
  roomsOk rs -> roomsOk (pushMissing saved rs).
Proof.
  unfold pushMissing. revert rs.
  induction saved as [|r saved IH]; intros rs H; [exact H|].
  cbn [foldl]. apply IH. destruct (includes r rs) eqn:E; [exact H|].
  apply roomsOk_push; [exact H|now apply includes_false].
Qed.

Lemma pushMissing_fresh (cs acc : list jsstring) :
  NoDup (acc ++ cs) -> pushMissing cs acc = acc ++ cs.
Proof.
  unfold pushMissing. revert acc.
  induction cs as [|c cs IH]; intros acc H; cbn [foldl];
    [now rewrite app_nil_r|].
  assert (Hc : includes c acc = false).
  { apply includes_false. apply NoDup_app in H as (_ & H & _).
    intros Hin. apply (H c Hin). apply list_elem_of_here. }
  rewrite Hc, IH; [now rewrite <- app_assoc|].
  now rewrite <- app_assoc.
Qed.

Lemma customRooms_split (cs : list jsstring) :
  NoDup (Gun.DEFAULT_ROOMS ++ cs) ->
  customRooms (Gun.DEFAULT_ROOMS ++ cs) = cs.
Proof.
  intros H. unfold customRooms. rewrite List.filter_app.
  assert (H1 : List.filter (fun r => negb (includes r Gun.DEFAULT_ROOMS))
                 Gun.DEFAULT_ROOMS = []) by reflexivity.
  rewrite H1. change ([] ++ ?x) with x.
  apply NoDup_app in H as (_ & H & _). clear H1.
  induction cs as [|c cs IH]; [reflexivity|]. cbn [List.filter].
  assert (Hc : includes c Gun.DEFAULT_ROOMS = false).
  { apply includes_false. intros Hin. apply (H c Hin), list_elem_of_here. }
  rewrite Hc. cbn [negb]. f_equal. apply IH.
  intros x Hx Hx'. apply (H x Hx). now apply list_elem_of_further.
Qed.

Lemma joinRoom_rooms (n : jsstring) (a : Gun.State) :
  Gun.rooms (Gun.joinRoom n a) = Gun.rooms a.
Proof. unfold Gun.joinRoom. now destruct (str_eqb _ _). Qed.

Lemma joinRoom_currentRoom (n : jsstring) (a : Gun.State) :
  Gun.currentRoom (Gun.joinRoom n a) = n.
Proof.
  unfold Gun.joinRoom. destruct (str_eqb _ _) eqn:E; [|reflexivity].
  apply str_eqb_eq in E. now symmetry.
Qed.

(** The cases of [createRoom]. *)
Lemma createRoom_cases (toLowerCase : jsstring -> jsstring)
    (raw : jsstring) (s : State) :
  let name := roomName toLowerCase raw in
  let s' := createRoom toLowerCase raw s in
  (name = [] ->
     app s' = app s /\ cs_rooms s' = cs_rooms s
     /\ alerts s' = alerts s ++ [lit "Invalid channel name."])
  /\ (name <> [] ->
        Gun.currentRoom (app s') = name
        /\ name ∈ Gun.rooms (app s')
        /\ alerts s' = alerts s
        /\ (name ∈ Gun.rooms (app s) ->
              Gun.rooms (app s') = Gun.rooms (app s)
              /\ cs_rooms s' = cs_rooms s)
        /\ (name ∉ Gun.rooms (app s) ->
              Gun.rooms (app s') = Gun.rooms (app s) ++ [name]
              /\ cs_rooms s' = Saved (customRooms (Gun.rooms (app s) ++ [name]))))
  /\ (roomsOk (Gun.rooms (app s)) -> roomsOk (Gun.rooms (app s'))).
Proof.
  intros name s'. subst s'. unfold createRoom. fold name.
  destruct (truthy name) eqn:Ht; cbn [negb].
  - apply truthy_true in Ht.
    destruct (includes name (Gun.rooms (app s))) eqn:Hi.
    + apply includes_spec in Hi. cbn [on_app app cs_rooms alerts].
      rewrite joinRoom_rooms, joinRoom_currentRoom.
      split; [congruence|]. split; [|auto].
      intros _. split; [reflexivity|]. split; [exact Hi|].
      split; [reflexivity|]. split; [auto|]. intros Hn. now destruct Hn.
    + apply includes_false in Hi.
      cbn [on_app app cs_rooms alerts saveCustomRooms].
      rewrite joinRoom_rooms, joinRoom_currentRoom.
      split; [congruence|]. split.
      * intros _. split; [reflexivity|]. split.
        { cbn. apply elem_of_app. right. apply list_elem_of_here. }
        split; [reflexivity|]. split; [intros Hn; now destruct Hi|].
        intros _. split; reflexivity.
      * intros Hok. cbn. now apply roomsOk_push.
  - apply truthy_false in Ht. cbn [app cs_rooms alerts].
    split; [auto|]. split; [congruence|auto].
Qed.

(** X2: [createRoom] with an input that leaves no name only shows the
    alert.  Otherwise the name becomes the current room and is in the room
    list; the alerts stay as they were; a name already listed leaves the
    list and the stored list untouched, a new one is appended at the end
    and the custom rooms are stored.  A list made of the default rooms
    followed by custom ones without repetition stays such a list. *)
Theorem createRoom_effects (toLowerCase : jsstring -> jsstring)
    (raw : jsstring) (s : State) :
  let name := roomName toLowerCase raw in
  let s' := createRoom toLowerCase raw s in
  (name = [] ->
     app s' = app s /\ cs_rooms s' = cs_rooms s
     /\ alerts s' = alerts s ++ [lit "Invalid channel name."])
  /\ (name <> [] ->
        Gun.currentRoom (app s') = name
        /\ name ∈ Gun.rooms (app s')
        /\ alerts s' = alerts s
        /\ (name ∈ Gun.rooms (app s) ->
              Gun.rooms (app s') = Gun.rooms (app s)
              /\ cs_rooms s' = cs_rooms s)
        /\ (name ∉ Gun.rooms (app s) ->
              Gun.rooms (app s') = Gun.rooms (app s) ++ [name]
              /\ cs_rooms s' = Saved (customRooms (Gun.rooms (app s) ++ [name]))))
  /\ (roomsOk (Gun.rooms (app s)) -> roomsOk (Gun.rooms (app s'))).
Proof. apply createRoom_cases. Qed.

(** X3: loading keeps the room list in order, for every entry of
    [localStorage] under [cs_rooms] that is nothing, text that does not
    parse to an array, or an array of strings (names repeated or equal to
    default rooms included): after [boot] the list is the default rooms
    followed by custom ones, no name twice; without a usable entry it is
    the default list, and with an array of strings its members are the
    default rooms and the stored names.  Arrays that hold values other than
    strings, which the script never stores, are not covered. *)
Theorem boot_roomsOk (stored : Stored) :
  roomsOk (Gun.rooms (app (boot stored)))
  /\ (stored = Absent \/ stored = Corrupt ->
      Gun.rooms (app (boot stored)) = Gun.DEFAULT_ROOMS)
  /\ (forall l r, stored = Saved l ->
        (r ∈ Gun.rooms (app (boot stored)) <-> r ∈ Gun.DEFAULT_ROOMS \/ r ∈ l)).
Proof.
  unfold boot, loadCustomRooms, fresh. cbn [cs_rooms].
  split; [|split].
  - destruct stored as [| |l]; cbn; try apply roomsOk_default.
    apply pushMissing_roomsOk, roomsOk_default.
  - intros [-> | ->]; reflexivity.
  - intros l r ->. cbn [on_app app set_rooms Gun.rooms Gun.init].
    generalize Gun.DEFAULT_ROOMS as rs. unfold pushMissing.
    induction l as [|x l IH]; intros rs; cbn [foldl].
    + rewrite elem_of_nil. tauto.
    + rewrite IH, elem_of_cons. destruct (includes x rs) eqn:E.
      * apply includes_spec in E. split; [tauto|].
        intros [H|[->|H]]; auto.
      * rewrite elem_of_app, list_elem_of_singleton. tauto.
Qed.

(** X4: a room list survives a reload.  When the list is the default rooms
    followed by custom ones without repetition and [createRoom] adds a new
    name, booting again from what was stored gives the same rooms in the
    same order. *)
Theorem reload_restores_rooms (toLowerCase : jsstring -> jsstring)
    (raw : jsstring) (s : State) :
  roomsOk (Gun.rooms (app s)) ->
  roomName toLowerCase raw <> [] ->
  roomName toLowerCase raw ∉ Gun.rooms (app s) ->
  let s' := createRoom toLowerCase raw s in
  Gun.rooms (app (boot (cs_rooms s'))) = Gun.rooms (app s').
Proof.
  intros Hok Hn Hnew s'.
  destruct (createRoom_cases toLowerCase raw s) as (_ & H & Hk).
  destruct (H Hn) as (_ & _ & _ & _ & H2). destruct (H2 Hnew) as [Hr Hs].
  fold s' in Hr, Hs, Hk. specialize (Hk Hok).
  rewrite Hs, Hr. rewrite Hr in Hk. destruct Hk as [[cs Hcs] Hnd].
  unfold boot, loadCustomRooms, fresh. cbn [cs_rooms on_app app].
  cbn [set_rooms Gun.rooms Gun.init].
  rewrite Hcs in *. rewrite customRooms_split by exact Hnd.
  now apply pushMissing_fresh.
Qed.

(** The theorem at work: [dev-ops] exists, [Q & A!] is added, and a reload
    shows general, random, tech, gaming, music, dev-ops, q-a. *)
Lemma reload_restores_rooms_witness :
  let s' := createRoom asciiLower (lit " Q & A! ") withDevOps in
  Gun.rooms (app (boot (cs_rooms s'))) = Gun.rooms (app s').
Proof.
  apply (reload_restores_rooms asciiLower (lit " Q & A! ") withDevOps).
  - split; [exists [lit "dev-ops"]; reflexivity|].
    apply (bool_decide_unpack _). vm_compute. exact I.
  - vm_compute. discriminate.
  - apply includes_false. vm_compute. reflexivity.
Defined.

Example roomName_examples :
  roomName asciiLower (lit " Q & A! ") = lit "q-a"
  /\ roomName asciiLower (lit "Dev Ops") = lit "dev-ops"
  /\ roomName asciiLower (lit "--x__y--") = lit "x-y"
  /\ roomName asciiLower (lit " !!! ") = []
  /\ roomName asciiLower (lit "abcdefghijklmnopqrstuvwxyz012 456")
     = lit "abcdefghijklmnopqrstuvwxyz012-"
  /\ Gun.rooms (app (createRoom asciiLower (lit " Q & A! ") withDevOps))
     = Gun.DEFAULT_ROOMS ++ [lit "dev-ops"; lit "q-a"].
Proof. vm_compute. repeat split. Qed.

End RoomsSpec.

(* ===================================================================== *)
(** ** Avatar colours *)
(* ===================================================================== *)

Module AvatarSpec.
Import JS Avatar.
Local Open Scope Z_scope.

Lemma toInt32_range (x : Z) : -2147483648 <= toInt32 x < 2147483648.
Proof.
  unfold toInt32.
  pose proof (Z.mod_pos_bound (x + 2147483648) 4294967296 eq_refl). lia.
Qed.

Lemma toInt32_small (x : Z) :
  -2147483648 <= x < 2147483648 -> toInt32 x = x.
Proof.
  intros H. unfold toInt32. rewrite Z.mod_small by lia. lia.
Qed.

Lemma hashName_range (name : jsstring) :
  -2147483648 <= hashName name < 2147483648.
Proof.
  unfold hashName.
  assert (G : forall h, -2147483648 <= h < 2147483648 ->
              -2147483648
              <= foldl (fun h c => toInt32 (h * 31 + Z.of_N c)) h name
              < 2147483648).
  { induction name as [|c name IH]; intros h Hh; [exact Hh|].
    cbn [foldl]. apply IH, toInt32_range. }
  apply G. lia.
Qed.

(** X5: every name, the empty one and those whose hash wraps to a negative
    number included, gets one of the eight classes [av-0] ... [av-7]; the
    running hash never leaves the signed 32-bit range. *)
Theorem avatarClass_in_palette (name : jsstring) :
  0 <= avatarIndex name < 8
  /\ -2147483648 <= hashName name < 2147483648
  /\ avatarClass name ∈ avatarClasses
  /\ avatarClass [] = lit "av-0".
Proof.
  assert (Hi : 0 <= avatarIndex name < 8)
    by (unfold avatarIndex, AV_COLOURS; apply Z.mod_pos_bound; lia).
  split; [exact Hi|]. split; [apply hashName_range|]. split; [|reflexivity].
  unfold avatarClass, avatarClasses.
  assert (E : avatarIndex name = 0 \/ avatarIndex name = 1
              \/ avatarIndex name = 2 \/ avatarIndex name = 3
              \/ avatarIndex name = 4 \/ avatarIndex name = 5
              \/ avatarIndex name = 6 \/ avatarIndex name = 7) by lia.
  destruct E as [E|[E|[E|[E|[E|[E|[E|E]]]]]]]; rewrite E;
    apply list_elem_of_In; cbn; tauto.
Qed.

Example avatarClass_examples :
  avatarClass (lit "bob") = lit "av-5"
  /\ hashName (lit "a long user name 1234") = -457804153
  /\ avatarClass (lit "a long user name 1234") = lit "av-1".
Proof. vm_compute. repeat split. Qed.

End AvatarSpec.

(* ===================================================================== *)
(** ** The hexadecimal form of the digest *)
(* ===================================================================== *)

Module DigestSpec.
Import JS Digest.

Lemma hexDigit_char (d : N) : d < 16 -> isHexChar (hexDigit d) = true.
Proof.
  intros H. unfold hexDigit, isHexChar.
  destruct (d <? 10) eqn:E.
  - apply N.ltb_lt in E. apply orb_true_iff. left.
    apply andb_true_iff. split; apply N.leb_le; lia.
  - apply N.ltb_ge in E. apply orb_true_iff. right.
    apply andb_true_iff. split; apply N.leb_le; lia.
Qed.

Lemma hexDigit_inj (a b : N) :
  a < 16 -> b < 16 -> hexDigit a = hexDigit b -> a = b.
Proof.
  unfold hexDigit. intros Ha Hb.
  destruct (a <? 10) eqn:Ea, (b <? 10) eqn:Eb;
    try apply N.ltb_lt in Ea; try apply N.ltb_lt in Eb;
    try apply N.ltb_ge in Ea; try apply N.ltb_ge in Eb; lia.
Qed.

Lemma byte_hex (b : N) :
  isByte b ->
  padStart2 (toString16 b) = [hexDigit (b / 16); hexDigit (b mod 16)].
Proof.
  unfold isByte, padStart2, toString16. intros H.
  destruct (b <? 16) eqn:E; [|reflexivity].
  apply N.ltb_lt in E. cbn [length Nat.sub List.repeat app].
  rewrite N.div_small, N.mod_small by exact E. reflexivity.
Qed.

Lemma byte_digits (b : N) : isByte b -> b / 16 < 16 /\ b mod 16 < 16.
Proof.
  unfold isByte. intros H. split.
  - apply N.Div0.div_lt_upper_bound. lia.
  - apply N.mod_lt. lia.
Qed.

Lemma hex_cons (b : N) (bs : list N) :
  isByte b ->
  hex (b :: bs) = hexDigit (b / 16) :: hexDigit (b mod 16) :: hex bs.
Proof.
  intros H. unfold hex. cbn [List.map List.concat].
  now rewrite byte_hex.
Qed.

(** X6: on bytes, the hexadecimal form has two characters per byte (64 for
    the 32 bytes of SHA-256), all of them digits or the letters [a] to
    [f], bytes below 16 being padded with a zero; and two digests have the
    same form only when they are the same bytes, so comparing stored and
    computed [keyHash] strings compares the digests. *)
Theorem hex_faithful (bs bs' : list N) :
  List.Forall isByte bs ->
  List.Forall isByte bs' ->
  length (hex bs) = (2 * length bs)%nat
  /\ List.Forall (fun c => isHexChar c = true) (hex bs)
  /\ (hex bs = hex bs' <-> bs = bs').
Proof.
  intros H H'. split; [|split].
  - induction H as [|b bs Hb Hbs IH]; [reflexivity|].
    rewrite hex_cons by exact Hb. cbn [length]. lia.
  - induction H as [|b bs Hb Hbs IH]; [constructor|].
    rewrite hex_cons by exact Hb.
    destruct (byte_digits b Hb). repeat constructor; auto using hexDigit_char.
  - split; [|now intros ->].
    revert bs' H'. induction H as [|b bs Hb Hbs IH]; intros bs' H' E.
    + destruct H' as [|b' bs' Hb' _]; [reflexivity|].
      rewrite hex_cons in E by exact Hb'. discriminate.
    + destruct H' as [|b' bs' Hb' Hbs']; rewrite hex_cons in E by exact Hb.
      * discriminate.
      * rewrite hex_cons in E by exact Hb'.
        injection E as E1 E2 E3.
        destruct (byte_digits b Hb), (byte_digits b' Hb').
        apply hexDigit_inj in E1, E2; try assumption.
        f_equal; [|now apply IH].
        rewrite (N.div_mod b 16), (N.div_mod b' 16) by lia. now rewrite E1, E2.
Qed.

(** The theorem at work on two three-byte strings. *)
Lemma hex_faithful_witness :
  length (hex [0; 10; 255]) = 6%nat
  /\ hex [0; 10; 255] = lit "000aff"
  /\ (hex [0; 10; 255] = hex [0; 10; 254] <-> [0; 10; 255] = [0; 10; 254]).
Proof.
  destruct (hex_faithful [0; 10; 255] [0; 10; 254]) as (H1 & _ & H3).
  - repeat constructor.
  - repeat constructor.
  - split; [exact H1|]. split; [reflexivity|exact H3].
Defined.

End DigestSpec.

(* ===================================================================== *)
(** ** Ordering and grouping of messages *)
(* ===================================================================== *)

Module MessagesSpec.
Import JS JSFacts Messages.
Local Open Scope Z_scope.

(** *** Sorting *)

Section Sorting.
Context {A : Type} (ts : A -> Z).

Lemma insertTs_perm (x : A) (l : list A) : Permutation (insertTs ts x l) (x :: l).
Proof.
  induction l as [|y l IH]; cbn [insertTs]; [reflexivity|].
  destruct (ts x <=? ts y); [reflexivity|].
  rewrite IH. apply perm_swap.
Qed.

Lemma sortTs_perm (l : list A) : Permutation (sortTs ts l) l.
Proof.
  unfold sortTs. induction l as [|x l IH]; cbn [foldr]; [reflexivity|].
  now rewrite insertTs_perm, IH.
Qed.

Lemma insertTs_sorted (x : A) (l : list A) :
  Sorted (fun a b => ts a <= ts b) l ->
  Sorted (fun a b => ts a <= ts b) (insertTs ts x l).
Proof.
  induction 1 as [|y l Hs IH Hh]; cbn [insertTs].
  - repeat constructor.
  - destruct (ts x <=? ts y) eqn:E.
    + apply Z.leb_le in E. repeat constructor; assumption.
    + apply Z.leb_gt in E. constructor; [exact IH|].
      destruct l as [|z l]; cbn [insertTs].
      * constructor. lia.
      * destruct (ts x <=? ts z); constructor; [lia|].
        now inversion Hh.
Qed.

Lemma sortTs_sorted (l : list A) :
  Sorted (fun a b => ts a <= ts b) (sortTs ts l).
Proof.
  unfold sortTs. induction l as [|x l IH]; cbn [foldr]; [constructor|].
  now apply insertTs_sorted.
Qed.

Lemma insertTs_stable (t : Z) (x : A) (l : list A) :
  List.filter (fun y => ts y =? t) (insertTs ts x l)
  = List.filter (fun y => ts y =? t) (x :: l).
Proof.
  induction l as [|y l IH]; cbn [insertTs]; [reflexivity|].
  destruct (ts x <=? ts y) eqn:E; [reflexivity|].
  apply Z.leb_gt in E. cbn [List.filter] in *. rewrite IH.
  destruct (ts y =? t) eqn:Ey; [|reflexivity].
  apply Z.eqb_eq in Ey.
  assert (Ex : (ts x =? t) = false) by (apply Z.eqb_neq; lia).
  now rewrite Ex.
Qed.

Lemma sortTs_stable (t : Z) (l : list A) :
  List.filter (fun y => ts y =? t) (sortTs ts l)
  = List.filter (fun y => ts y =? t) l.
Proof.
  unfold sortTs. induction l as [|x l IH]; cbn [foldr]; [reflexivity|].
  rewrite insertTs_stable. cbn [List.filter]. now rewrite IH.
Qed.

Lemma insertTs_snoc (y x : A) (s : list A) :
  ts y <= ts x -> insertTs ts y (s ++ [x]) = insertTs ts y s ++ [x].
Proof.
  intros H. induction s as [|z s IH]; simpl.
  - apply Z.leb_le in H. now rewrite H.
  - destruct (ts y <=? ts z); [reflexivity|]. now rewrite IH.
Qed.

Lemma sortTs_snoc (x : A) (l : list A) :
  (forall y, y ∈ l -> ts y <= ts x) ->
  sortTs ts (l ++ [x]) = sortTs ts l ++ [x].
Proof.
  unfold sortTs. intros H. rewrite foldr_app. cbn [foldr insertTs].
  induction l as [|y l IH]; cbn [foldr]; [reflexivity|].
  rewrite IH.
  - apply insertTs_snoc, H, list_elem_of_here.
  - intros z Hz. apply H. now apply list_elem_of_further.
Qed.

Lemma filter_split_perm (p : A -> bool) (l : list A) :
  Permutation (List.filter p l ++ List.filter (fun x => negb (p x)) l) l.
Proof.
  induction l as [|x l IH]; [reflexivity|]. cbn [List.filter].
  destruct (p x); cbn [negb app].
  - now constructor.
  - rewrite <- Permutation_middle. now constructor.
Qed.

Lemma filter_none (p : A -> bool) (l : list A) :
  (forall x, In x l -> p x = false) -> List.filter p l = [].
Proof.
  induction l as [|x l IH]; [reflexivity|]. intros H. cbn [List.filter].
  rewrite (H x) by now left. apply IH. intros y Hy. apply H. now right.
Qed.

Lemma filter_all (p : A -> bool) (l : list A) :
  (forall x, In x l -> p x = true) -> List.filter p l = l.
Proof.
  induction l as [|x l IH]; [reflexivity|]. intros H. cbn [List.filter].
  rewrite (H x) by now left. f_equal. apply IH. intros y Hy. apply H. now right.
Qed.

End Sorting.

(** *** The values of a bucket *)

Lemma objectValues_perm (b : Bucket) :
  Permutation (objectValues b) (List.map snd b).
Proof.
  unfold objectValues. rewrite <- map_app. apply Permutation_map.
  rewrite (sortTs_perm indexOf). apply filter_split_perm.
Qed.

(** Without a key that is an array index, the values come in the order in
    which the bucket received their keys. *)
Lemma objectValues_plain (b : Bucket) :
  (forall e, In e b -> arrayIndex (fst e) = None) ->
  objectValues b = List.map snd b.
Proof.
  intros H. unfold objectValues.
  rewrite (filter_none isIndex b), (filter_all (fun e => negb (isIndex e)) b).
  - reflexivity.
  - intros e He. unfold isIndex. now rewrite (H e He).
  - intros e He. unfold isIndex. now rewrite (H e He).
Qed.

Lemma authoredPrefix_all (l : list Node) :
  (forall n, In n l -> isAuthored n = true) ->
  List.map Authored (authoredPrefix l) = l.
Proof.
  induction l as [|n l IH]; [reflexivity|]. intros H.
  assert (Hn : isAuthored n = true) by (apply H; now left).
  destruct n as [m|t z]; [|discriminate]. cbn [authoredPrefix List.map].
  f_equal. apply IH. intros x Hx. apply H. now right.
Qed.

Lemma authoredPrefix_map (l : list Msg) :
  authoredPrefix (List.map Authored l) = l.
Proof. induction l as [|m l IH]; [reflexivity|]. cbn. now rewrite IH. Qed.

Lemma authoredPrefix_In (m : Msg) (l : list Node) :
  In m (authoredPrefix l) -> In (Authored m) l.
Proof.
  induction l as [|n l IH]; [intros []|]. destruct n as [m'|t z]; [|intros []].
  cbn [authoredPrefix]. intros [->|H]; [now left|right; auto].
Qed.

Lemma valid_spec (n : Node) :
  valid n = true <-> n_text n <> [] /\ n_ts n <> 0.
Proof.
  unfold valid. rewrite andb_true_iff, truthy_true, negb_true_iff, Z.eqb_neq.
  reflexivity.
Qed.

(** *** Rows *)

Section Rows.
Variable fmtDate : Z -> Z -> jsstring.

Lemma msgsOf_rowsFrom (now : Z) (a : option jsstring) (t : Z)
    (d : option jsstring) (l : list Node) :
  msgsOf (rowsFrom fmtDate now a t d l) = authoredPrefix l.
Proof.
  revert a t d. induction l as [|n l IH]; intros a t d; [reflexivity|].
  cbn [rowsFrom]. destruct n as [m|x z]; cbn [authoredPrefix n_ts].
  - unfold msgsOf. rewrite omap_app.
    destruct (otherDay d (fmtDate now (m_ts m))); cbn; f_equal; apply IH.
  - destruct (otherDay d (fmtDate now z)); reflexivity.
Qed.

Lemma msgsOf_rowsOrPlaceholder (now : Z) (l : list Node) :
  msgsOf (rowsOrPlaceholder fmtDate now l) = authoredPrefix l.
Proof.
  destruct l as [|n l]; [reflexivity|]. apply msgsOf_rowsFrom.
Qed.

(** X7: what [renderMessages] shows.  Without a valid node the pane holds
    the placeholder alone.  Otherwise the render goes through the valid
    nodes of the bucket (non-empty text, non-zero time stamp), each once,
    in ascending order of time stamp, nodes with the same time stamp in
    the order of [Object.values]: the keys that are array indices first,
    by index, then the other keys in the order in which the bucket
    received them, which is the order of all values when no key is an
    array index.  The message rows are these nodes in that order, up to
    the first node without author, where [makeMsgRow] throws and the
    render ends; when every valid node has an author, the rows are all of
    them.  The clock of the render has no part in which rows are shown. *)
Theorem renderMessages_sorted (now : Z) (bucket : Bucket) :
  let shown := msgsOf (renderMessages fmtDate now bucket) in
  let candidates := List.filter valid (objectValues bucket) in
  let sorted := sortTs n_ts candidates in
  (candidates = [] -> renderMessages fmtDate now bucket = [noMessages])
  /\ Permutation (objectValues bucket) (List.map snd bucket)
  /\ ((forall e, In e bucket -> arrayIndex (fst e) = None) ->
      objectValues bucket = List.map snd bucket)
  /\ Permutation sorted candidates
  /\ Sorted (fun a b => n_ts a <= n_ts b) sorted
  /\ (forall t, List.filter (fun n => n_ts n =? t) sorted
                = List.filter (fun n => n_ts n =? t) candidates)
  /\ shown = authoredPrefix sorted
  /\ ((forall n, In n candidates -> isAuthored n = true) ->
      List.map Authored shown = sorted)
  /\ (forall m, m ∈ shown -> m_text m <> [] /\ m_ts m <> 0).
Proof.
  intros shown candidates sorted.
  assert (Es : shown = authoredPrefix sorted).
  { subst shown. unfold renderMessages. fold candidates. fold sorted.
    apply msgsOf_rowsOrPlaceholder. }
  split; [unfold renderMessages; fold candidates; intros ->; reflexivity|].
  split; [apply objectValues_perm|]. split; [apply objectValues_plain|].
  split; [apply sortTs_perm|]. split; [apply sortTs_sorted|].
  split; [intros t; apply sortTs_stable|]. split; [exact Es|].
  split.
  - intros H. rewrite Es. apply authoredPrefix_all. intros n Hn.
    apply H. now apply (Permutation_in n (sortTs_perm n_ts candidates)).
  - intros m Hm. rewrite Es in Hm.
    apply list_elem_of_In, authoredPrefix_In in Hm.
    apply (Permutation_in _ (sortTs_perm n_ts candidates)) in Hm.
    subst candidates. apply List.filter_In in Hm as [_ Hv].
    now apply valid_spec in Hv.
Qed.

Lemma wellGrouped_rowsFrom (now : Z) (p : Msg) (l : list Msg) :
  wellGrouped (fmtDate now) (Some p)
    (rowsFrom fmtDate now (Some (m_author p)) (m_ts p)
       (Some (fmtDate now (m_ts p))) (List.map Authored l)).
Proof.
  revert p. induction l as [|m l IH]; intros p; [exact I|].
  cbn [List.map rowsFrom otherDay n_ts].
  destruct (str_eqb (fmtDate now (m_ts m)) (fmtDate now (m_ts p))) eqn:E;
    cbn [negb app wellGrouped sameAuthor].
  - apply str_eqb_eq in E. split; [|apply IH].
    exists p. split; [reflexivity|]. split; [now symmetry|].
    rewrite andb_true_iff, str_eqb_eq, Z.ltb_lt. reflexivity.
  - apply str_eqb_neq in E. rewrite andb_false_l.
    split; [reflexivity|]. split; [reflexivity|]. split; [|apply IH].
    intros q [= <-]. congruence.
Qed.

(** X8: the layout of the rows.  For any sequence of messages, and at any
    reading of the clock, the loop of [renderMessages] and
    [renderAllMessages] starts with a day divider, puts a divider exactly
    where the day label changes, never groups the first message of a day,
    and groups any other message exactly when it has the author of the
    message before it and comes less than 300 000 ms after it. *)
Theorem rows_wellGrouped (now : Z) (l : list Msg) :
  wellGrouped (fmtDate now) None
    (rowsFrom fmtDate now None 0 None (List.map Authored l))
  /\ (forall m l', l = m :: l' ->
        exists rest, rowsFrom fmtDate now None 0 None (List.map Authored l)
                     = DayDivider (fmtDate now (m_ts m))
                         :: MsgRow m false :: rest).
Proof.
  split.
  - destruct l as [|m l]; [exact I|].
    cbn [List.map rowsFrom otherDay app wellGrouped n_ts].
    rewrite andb_false_l.
    split; [reflexivity|]. split; [reflexivity|].
    split; [discriminate|apply wellGrouped_rowsFrom].
  - intros m l' ->. cbn [List.map rowsFrom otherDay app n_ts].
    rewrite andb_false_l. eauto.
Qed.

End Rows.

(** *** The pane of the Gun variant *)

Section Pane.
Variable fmtDate : Z -> Z -> jsstring.

Lemma reach_plain (room : jsstring) (msgs : gmap jsstring Bucket) :
  inherited room = false ->
  exists msgs',
    reach room msgs = Some msgs'
    /\ default [] (msgs' !! room) = default [] (msgs !! room)
    /\ forall r, r <> room -> msgs' !! r = msgs !! r.
Proof.
  intros H. unfold reach. destruct (msgs !! room) as [b|] eqn:E.
  - exists msgs. rewrite E. auto.
  - rewrite H. exists (<[room := []]> msgs). split; [reflexivity|].
    split; [now rewrite lookup_insert_eq|].
    intros r Hr. now rewrite lookup_insert_ne.
Qed.

Lemma joinRoom_shows (t : Z) (room : jsstring) (c : Chat) :
  room <> Gun.currentRoom (app c) ->
  inherited room = false ->
  exists c', joinRoom fmtDate t room c = Some c'
             /\ showsCurrentRoom fmtDate t c'.
Proof.
  intros H Hp. unfold joinRoom.
  apply str_eqb_neq in H. rewrite H.
  destruct (reach_plain room (messages c) Hp) as (msgs & -> & _ & _).
  eexists. split; [reflexivity|].
  unfold showsCurrentRoom, bucketOf. cbn [app container messages].
  unfold Gun.joinRoom. rewrite H. reflexivity.
Qed.

Lemma chatStep_shows (t : Z) (e : ChatEvent) (c : Chat) :
  inherited (eventRoom e) = false ->
  showsCurrentRoom fmtDate t c ->
  exists c', chatStep fmtDate e c = Some c'
             /\ (showsCurrentRoom fmtDate t c'
                 \/ showsCurrentRoom fmtDate (eventTime e) c').
Proof.
  intros Hp H. destruct e as [now room key data|now room];
    cbn [chatStep eventRoom eventTime] in *.
  - unfold onMessage. destruct data as [n|]; [|eauto].
    destruct (valid n); cbn [negb]; [|eauto].
    destruct (reach_plain room (messages c) Hp) as (msgs & -> & Hb & Ho).
    eexists. split; [reflexivity|].
    unfold showsCurrentRoom, bucketOf in *. cbn [app container messages].
    destruct (str_eqb room (Gun.currentRoom (app c))) eqn:E.
    + apply str_eqb_eq in E. subst room. now right.
    + apply str_eqb_neq in E. left.
      rewrite lookup_insert_ne by exact E.
      rewrite Ho by congruence. exact H.
  - destruct (str_eqb room (Gun.currentRoom (app c))) eqn:E.
    + unfold joinRoom. rewrite E. eauto.
    + apply str_eqb_neq in E.
      destruct (joinRoom_shows now room c E Hp) as (c' & -> & Hs). eauto.
Qed.

Lemma chatRun_shows (es : list ChatEvent) (t : Z) (c : Chat) :
  Forall (fun e => inherited (eventRoom e) = false) es ->
  showsCurrentRoom fmtDate t c ->
  exists c' t',
    chatRun fmtDate es c = Some c'
    /\ (t' = t \/ In t' (List.map eventTime es))
    /\ showsCurrentRoom fmtDate t' c'.
Proof.
  intros Hes. revert t c.
  induction Hes as [|e es He Hes IH]; intros t c H; cbn [chatRun List.map].
  - exists c, t. auto.
  - destruct (chatStep_shows t e c He H) as (c1 & -> & [H1|H1]).
    + destruct (IH t c1 H1) as (c' & t' & Hr & Ht & Hs).
      exists c', t'. split; [exact Hr|]. split; [|exact Hs].
      cbn [In]. destruct Ht; auto.
    + destruct (IH (eventTime e) c1 H1) as (c' & t' & Hr & Ht & Hs).
      exists c', t'. split; [exact Hr|]. split; [|exact Hs].
      cbn [In]. destruct Ht; auto.
Qed.

(** X9: once a room has been entered, the pane of the Gun variant shows
    the cache of the current room, for rooms whose name is not one that
    every object inherits ([constructor], which [createRoom] lets
    through, is outside the model): after any sequence of incoming nodes
    (for this room or another, valid or not, with or without author) and
    room switches, the handlers have all run and the container is what
    [renderMessages] makes of the bucket of the current room at the
    clock of one of them, the last that rendered.  Whatever that clock,
    the message rows are the valid nodes of the bucket by time stamp, up
    to the first one without author.  Null nodes and nodes without text
    or time stamp change nothing. *)
Theorem pane_shows_current_room (t0 : Z) (room : jsstring) (c : Chat)
    (es : list ChatEvent) :
  room <> Gun.currentRoom (app c) ->
  inherited room = false ->
  Forall (fun e => inherited (eventRoom e) = false) es ->
  (exists c0 c' t,
     joinRoom fmtDate t0 room c = Some c0
     /\ chatRun fmtDate es c0 = Some c'
     /\ (t = t0 \/ In t (List.map eventTime es))
     /\ showsCurrentRoom fmtDate t c'
     /\ msgsOf (container c')
        = authoredPrefix
            (sortTs n_ts
               (List.filter valid
                  (objectValues (bucketOf (Gun.currentRoom (app c')) c')))))
  /\ (forall t r k, onMessage fmtDate t r k None c = Some c)
  /\ (forall t r k n,
        valid n = false -> onMessage fmtDate t r k (Some n) c = Some c).
Proof.
  intros H Hp Hes. split; [|split].
  - destruct (joinRoom_shows t0 room c H Hp) as (c0 & Hj & H0).
    destruct (chatRun_shows es t0 c0 Hes H0) as (c' & t & Hr & Ht & Hs).
    exists c0, c', t. split; [exact Hj|]. split; [exact Hr|].
    split; [exact Ht|]. split; [exact Hs|].
    rewrite Hs. unfold renderMessages. apply msgsOf_rowsOrPlaceholder.
  - reflexivity.
  - intros t r k n Hv. unfold onMessage. now rewrite Hv.
Qed.

End Pane.

(** The theorem at work: the visitor enters [general]; a message arrives,
    then a node without author for the same room, then a message for
    another room.  The pane holds the day divider and nothing else: the
    node without author has the lowest time stamp and stops the render at
    its row. *)
Lemma pane_shows_current_room_witness :
  exists c',
    chatRun relDay
      [EvMessage 70000 (lit "general") (lit "k1") (Some (Authored hello));
       EvMessage 71000 (lit "general") (lit "k0") (Some stray);
       EvMessage 72000 (lit "random") (lit "k9") (Some (Authored reply))]
      (mkChat (Gun.joinRoom (lit "general") Gun.init)
         (<[lit "general" := []]> ∅) [noMessages] false)
    = Some c'
    /\ msgsOf (container c') = []
    /\ container c' = [DayDivider (lit "Today")].
Proof.
  destruct (pane_shows_current_room relDay 60000 (lit "general") emptyChat
              [EvMessage 70000 (lit "general") (lit "k1")
                 (Some (Authored hello));
               EvMessage 71000 (lit "general") (lit "k0") (Some stray);
               EvMessage 72000 (lit "random") (lit "k9")
                 (Some (Authored reply))])
    as ((c0 & c' & t & Hj & Hr & _ & Hs & Hm) & _).
  - vm_compute. discriminate.
  - reflexivity.
  - repeat constructor.
  - injection Hj as <-. exists c'. split; [exact Hr|].
    vm_compute in Hr. injection Hr as <-. split; reflexivity.
Defined.

(** *** Incremental rendering in the Firebase variant *)

Section Incremental.
Variable fmtDate : Z -> Z -> jsstring.

Lemma rowsFrom_no_placeholder (now : Z) (a : option jsstring) (t : Z)
    (d : option jsstring) (l : list Node) :
  removePlaceholder (rowsFrom fmtDate now a t d l)
  = rowsFrom fmtDate now a t d l.
Proof.
  revert a t d. induction l as [|n l IH]; intros a t d; [reflexivity|].
  cbn [rowsFrom]. destruct n as [m|x z]; cbn [n_ts].
  - destruct (otherDay d (fmtDate now (m_ts m))); simpl; now rewrite IH.
  - destruct (otherDay d (fmtDate now z)); reflexivity.
Qed.

Lemma removePlaceholder_rendered (now : Z) (l : list Node) :
  removePlaceholder (rowsOrPlaceholder fmtDate now l)
  = rowsFrom fmtDate now None 0 None l.
Proof.
  destruct l as [|n l]; [reflexivity|]. apply rowsFrom_no_placeholder.
Qed.

(** Two readings of the clock that give the time stamps of a list the
    same day labels give the same rows. *)
Lemma rowsFrom_ext (t0 t1 : Z) (a : option jsstring) (t : Z)
    (d : option jsstring) (l : list Node) :
  (forall n, In n l -> fmtDate t0 (n_ts n) = fmtDate t1 (n_ts n)) ->
  rowsFrom fmtDate t0 a t d l = rowsFrom fmtDate t1 a t d l.
Proof.
  revert a t d. induction l as [|n l IH]; intros a t d H; [reflexivity|].
  cbn [rowsFrom]. rewrite (H n) by now left.
  destruct n as [m|x z]; [|reflexivity].
  rewrite IH; [reflexivity|]. intros n Hn. apply H. now right.
Qed.

Lemma rowsOrPlaceholder_ext (t0 t1 : Z) (l : list Node) :
  (forall n, In n l -> fmtDate t0 (n_ts n) = fmtDate t1 (n_ts n)) ->
  rowsOrPlaceholder fmtDate t0 l = rowsOrPlaceholder fmtDate t1 l.
Proof.
  intros H. destruct l as [|n l]; [reflexivity|]. now apply rowsFrom_ext.
Qed.

Lemma rowsFrom_cons (now : Z) (a : option jsstring) (t : Z)
    (d : option jsstring) (x : Msg) (l : list Node) :
  rowsFrom fmtDate now a t d (Authored x :: l)
  = rowsFrom fmtDate now a t d [Authored x]
      ++ rowsFrom fmtDate now (Some (m_author x)) (m_ts x)
           (Some (fmtDate now (m_ts x))) l.
Proof. cbn [rowsFrom n_ts]. now rewrite <- app_assoc. Qed.

(** The state of the loop after the nodes [l], all with an author. *)
Lemma rowsFrom_snoc (now : Z) (a : option jsstring) (t : Z)
    (d : option jsstring) (l : list Node) (n : Node) :
  (forall x, In x l -> isAuthored x = true) ->
  rowsFrom fmtDate now a t d (l ++ [n])
  = rowsFrom fmtDate now a t d l
      ++ match last l with
         | Some p =>
             rowsFrom fmtDate now (n_author p) (n_ts p)
               (Some (fmtDate now (n_ts p))) [n]
         | None => rowsFrom fmtDate now a t d [n]
         end.
Proof.
  revert a t d. induction l as [|x l IH]; intros a t d H; [reflexivity|].
  assert (Hx : isAuthored x = true) by (apply H; now left).
  destruct x as [x|? ?]; [|discriminate].
  change ((Authored x :: l) ++ [n]) with (Authored x :: (l ++ [n])).
  rewrite rowsFrom_cons, IH, (rowsFrom_cons now a t d x l), app_assoc
    by (intros y Hy; apply H; now right).
  f_equal. destruct l as [|y l]; [reflexivity|].
  change (last (Authored x :: y :: l)) with (last (y :: l)).
  destruct (last (y :: l)) eqn:E; [reflexivity|].
  apply last_None in E. discriminate.
Qed.

Lemma hasKey_perm (key : jsstring) (b b' : Bucket) :
  Permutation b b' -> hasKey key b = hasKey key b'.
Proof.
  unfold hasKey. induction 1; cbn [existsb].
  - reflexivity.
  - now f_equal.
  - rewrite !orb_assoc. f_equal. apply orb_comm.
  - congruence.
Qed.

Lemma bucketSet_fresh (key : jsstring) (n : Node) (b : Bucket) :
  hasKey key b = false -> bucketSet key n b = b ++ [(key, n)].
Proof.
  unfold hasKey. induction b as [|[k v] b IH]; [reflexivity|].
  cbn [existsb fst bucketSet app]. intros H.
  apply orb_false_iff in H as [H1 H2]. rewrite H1. now rewrite IH.
Qed.

Lemma entryBefore_fresh (key : jsstring) (n : Node) (b : Bucket)
    (prev : option Node) :
  hasKey key b = false ->
  entryBefore key prev (b ++ [(key, n)])
  = match last (List.map snd b) with Some p => Some p | None => prev end.
Proof.
  unfold hasKey. revert prev. induction b as [|[k v] b IH]; intros prev H.
  - cbn. now rewrite str_eqb_refl.
  - cbn [existsb fst] in H. apply orb_false_iff in H as [H1 H2].
    change (((k, v) :: b) ++ [(key, n)]) with ((k, v) :: (b ++ [(key, n)])).
    cbn [entryBefore]. rewrite H1, (IH _ H2).
    change (List.map snd ((k, v) :: b)) with (v :: List.map snd b).
    destruct (List.map snd b) as [|y l]; [reflexivity|].
    change (last (v :: y :: l)) with (last (y :: l)).
    destruct (last (y :: l)) eqn:E; [reflexivity|].
    apply last_None in E. discriminate.
Qed.

Lemma sameAuthor_spec (o : option jsstring) (a : jsstring) :
  sameAuthor o a = true <-> o = Some a.
Proof.
  destruct o as [b|]; cbn [sameAuthor]; [|split; discriminate].
  rewrite str_eqb_eq. split; [now intros ->|now intros [= ->]].
Qed.

(** What the full render adds for a message that sorts last, and what
    [appendMessage] adds, both at the same reading of the clock. *)
Lemma render_after_append (now : Z) (key : jsstring) (m : Msg)
    (cache : Bucket) :
  hasKey key cache = false ->
  (forall e, e ∈ cache -> n_ts (snd e) <= m_ts m) ->
  (forall e, e ∈ cache -> isAuthored (snd e) = true) ->
  let cache' := bucketSet key (Authored m) cache in
  let old := List.map snd (sortedMessages cache) in
  let day := fmtDate now (m_ts m) in
  let fresh :=
    otherDay (option_map (fun p => fmtDate now (n_ts p)) (last old)) day in
  let near :=
    match last old with
    | Some p => sameAuthor (n_author p) (m_author m)
                && (m_ts m - n_ts p <? GROUP_WINDOW)
    | None => false
    end in
  renderAllMessages fmtDate now cache'
  = rowsFrom fmtDate now None 0 None old
      ++ (if fresh then [DayDivider day] else [])
      ++ [MsgRow m (near && negb fresh)]
  /\ appendMessage fmtDate now key (Authored m) cache'
       (renderAllMessages fmtDate now cache)
     = rowsFrom fmtDate now None 0 None old
         ++ (if fresh then [DayDivider day] else [])
         ++ [MsgRow m near].
Proof.
  intros Hk Hts Hau cache' old day fresh near.
  assert (Ec : cache' = cache ++ [(key, Authored m)])
    by now apply bucketSet_fresh.
  assert (Es : sortedMessages cache'
               = sortedMessages cache ++ [(key, Authored m)]).
  { rewrite Ec. unfold sortedMessages.
    apply (sortTs_snoc (fun e : jsstring * Node => n_ts (snd e))).
    exact Hts. }
  assert (Ho : forall x, In x old -> isAuthored x = true).
  { intros x Hx. subst old. apply in_map_iff in Hx as (e & <- & He).
    apply Hau, list_elem_of_In.
    exact (Permutation_in e (sortTs_perm _ cache) He). }
  split.
  - unfold renderAllMessages. rewrite Es, map_app. cbn [List.map snd].
    fold old. unfold rowsOrPlaceholder.
    destruct (old ++ [Authored m]) eqn:E; [now destruct old|]. rewrite <- E.
    rewrite rowsFrom_snoc by exact Ho. f_equal. subst fresh near day.
    destruct (last old) as [p|]; cbn [rowsFrom option_map otherDay n_ts].
    + destruct (str_eqb (fmtDate now (m_ts m)) (fmtDate now (n_ts p)));
        cbn [negb app sameAuthor].
      * now rewrite andb_true_r.
      * now rewrite andb_false_r.
    + reflexivity.
  - unfold appendMessage, renderAllMessages. fold old.
    rewrite removePlaceholder_rendered, Es.
    rewrite entryBefore_fresh.
    2:{ rewrite (hasKey_perm key _ cache); [exact Hk|].
        apply sortTs_perm. }
    fold old. subst fresh near day. cbn [n_ts]. now destruct (last old).
Qed.

(** X10: incremental and full rendering in the Firebase variant.  A
    message with a new key arrives whose time stamp is not below any
    cached one; every cached node has an author; and the clock has not
    passed a day boundary since the pane was rendered, in that the cached
    time stamps get the same day labels at the clock of the arrival as at
    the clock of that render.  Then appending the message to the pane
    gives exactly the pane a full render of the new cache at the clock of
    the arrival would give, except in one case: the message has the
    author of the latest one, comes less than five minutes after it, and
    falls on another day; then the appended row is grouped under the new
    day divider while a full render leaves it ungrouped. *)
Theorem append_agrees_with_render (t0 t1 : Z) (key : jsstring) (m : Msg)
    (cache : Bucket) :
  hasKey key cache = false ->
  (forall e, e ∈ cache -> n_ts (snd e) <= m_ts m) ->
  (forall e, e ∈ cache -> isAuthored (snd e) = true) ->
  (forall e, e ∈ cache ->
     fmtDate t0 (n_ts (snd e)) = fmtDate t1 (n_ts (snd e))) ->
  let cache' := bucketSet key (Authored m) cache in
  let appended :=
    appendMessage fmtDate t1 key (Authored m) cache'
      (renderAllMessages fmtDate t0 cache) in
  (appended = renderAllMessages fmtDate t1 cache'
   <-> ~ acrossMidnight (fmtDate t1) cache m)
  /\ msgsOf appended = msgsOf (renderAllMessages fmtDate t1 cache')
  /\ (acrossMidnight (fmtDate t1) cache m ->
      exists rows,
        appended
        = rows ++ [DayDivider (fmtDate t1 (m_ts m)); MsgRow m true]
        /\ renderAllMessages fmtDate t1 cache'
           = rows ++ [DayDivider (fmtDate t1 (m_ts m)); MsgRow m false]).
Proof.
  intros Hk Hts Hau Hlab cache' appended.
  assert (E01 : renderAllMessages fmtDate t0 cache
                = renderAllMessages fmtDate t1 cache).
  { unfold renderAllMessages. apply rowsOrPlaceholder_ext.
    intros n Hn. apply in_map_iff in Hn as (e & <- & He).
    apply Hlab, list_elem_of_In.
    exact (Permutation_in e (sortTs_perm _ cache) He). }
  subst appended. rewrite E01.
  destruct (render_after_append t1 key m cache Hk Hts Hau) as [Hf Ha].
  fold cache' in Hf, Ha.
  set (old := List.map snd (sortedMessages cache)) in *.
  unfold acrossMidnight. fold old.
  rewrite Hf, Ha. clear Hf Ha.
  split; [|split].
  - destruct (last old) as [p|] eqn:El; cbn [option_map otherDay].
    + destruct (str_eqb (fmtDate t1 (m_ts m)) (fmtDate t1 (n_ts p))) eqn:Ed;
        cbn [negb].
      * rewrite andb_true_r. apply str_eqb_eq in Ed. split; [|reflexivity].
        intros _ (q & [= <-] & _ & _ & Hd). congruence.
      * rewrite andb_false_r. apply str_eqb_neq in Ed.
        destruct (sameAuthor (n_author p) (m_author m)
                  && (m_ts m - n_ts p <? GROUP_WINDOW)) eqn:En.
        -- split.
           ++ intros E. apply app_inv_head in E. discriminate.
           ++ intros Hn. exfalso. apply Hn. exists p.
              apply andb_true_iff in En as [E1 E2].
              apply sameAuthor_spec in E1. apply Z.ltb_lt in E2.
              repeat split; auto.
        -- split; [|reflexivity].
           intros _ (q & [= <-] & Hq & Hgap & _).
           apply andb_false_iff in En as [E1|E2].
           ++ apply sameAuthor_spec in Hq. congruence.
           ++ apply Z.ltb_ge in E2. lia.
    + split; [|reflexivity]. intros _ (q & Hq & _). discriminate.
  - unfold msgsOf. rewrite !omap_app.
    destruct (otherDay _ _); reflexivity.
  - intros (p & El & Hq & Hgap & Hd). rewrite El.
    cbn [option_map otherDay].
    assert (Ed : str_eqb (fmtDate t1 (m_ts m)) (fmtDate t1 (n_ts p)) = false)
      by (apply str_eqb_neq; congruence).
    assert (En : sameAuthor (n_author p) (m_author m)
                 && (m_ts m - n_ts p <? GROUP_WINDOW) = true).
    { apply andb_true_iff.
      split; [now apply sameAuthor_spec|now apply Z.ltb_lt]. }
    rewrite Ed, En. cbn [negb andb app]. eauto.
Qed.

End Incremental.

(** The theorem at work: the cache holds two messages of [alice], rendered
    at 70 s, and the reply of [bob] arrives at 80 s. *)
Lemma append_agrees_with_render_witness :
  appendMessage relDay 80000 (lit "k3") (Authored reply)
    (bucketSet (lit "k3") (Authored reply) twoMessages)
    (renderAllMessages relDay 70000 twoMessages)
  = [DayDivider (lit "Today"); MsgRow hello false; MsgRow again true;
     MsgRow reply false].
Proof.
  destruct (append_agrees_with_render relDay 70000 80000 (lit "k3") reply
              twoMessages)
    as ([_ H] & _).
  - reflexivity.
  - intros e He. apply list_elem_of_In in He.
    destruct He as [<-|[<-|[]]]; vm_compute; discriminate.
  - intros e He. apply list_elem_of_In in He.
    destruct He as [<-|[<-|[]]]; reflexivity.
  - intros e He. apply list_elem_of_In in He.
    destruct He as [<-|[<-|[]]]; reflexivity.
  - rewrite H; [reflexivity|].
    intros (p & Hp & _ & _ & Hd). apply Hd.
    injection Hp as <-. reflexivity.
Defined.

(** The two conditions of X10 cannot be dropped.  After midnight the rows
    rendered the day before keep the label they got then, while a full
    render labels them anew: the message of the next morning is appended
    under a second [Today].  And a node without author stops the full
    render at its place, while the rows appended before it arrived stay
    in the pane. *)
Example append_after_midnight_keeps_old_labels :
  let late := mkMsg (lit "morning") (lit "bob") (DAY + 1000) in
  let cache' := bucketSet (lit "k3") (Authored late) twoMessages in
  appendMessage relDay (DAY + 2000) (lit "k3") (Authored late) cache'
    (renderAllMessages relDay 70000 twoMessages)
  = [DayDivider (lit "Today"); MsgRow hello false; MsgRow again true;
     DayDivider (lit "Today"); MsgRow late false]
  /\ renderAllMessages relDay (DAY + 2000) cache'
     = [DayDivider (lit "Yesterday"); MsgRow hello false; MsgRow again true;
        DayDivider (lit "Today"); MsgRow late false].
Proof. vm_compute. split; reflexivity. Qed.

Example append_after_anonymous_node :
  let st0 := (twoMessages, renderAllMessages relDay 70000 twoMessages) in
  let st1 := onChildAdded relDay 75000 (lit "k0") (Some stray) st0 in
  let st2 := onChildAdded relDay 80000 (lit "k3") (Some (Authored reply)) st1 in
  snd st1
  = [DayDivider (lit "Today"); MsgRow hello false; MsgRow again true;
     DayDivider (lit "Today")]
  /\ snd st2
     = [DayDivider (lit "Today"); MsgRow hello false; MsgRow again true;
        DayDivider (lit "Today"); MsgRow reply false]
  /\ renderAllMessages relDay 80000 (fst st2) = [DayDivider (lit "Today")].
Proof. vm_compute. repeat split. Qed.

End MessagesSpec.

(* ===================================================================== *)
(** ** Message text never becomes markup *)
(* ===================================================================== *)

Module MarkupSpec.
Import JS JSFacts Markup.

Lemma escChar_safe (c : N) :
  List.Forall (fun x => x <> 60 /\ x <> 62) (escChar c).
Proof.
  unfold escChar.
  destruct (c =? 38) eqn:E1; [repeat constructor; discriminate|].
  destruct (c =? 60) eqn:E2; [repeat constructor; discriminate|].
  destruct (c =? 62) eqn:E3; [repeat constructor; discriminate|].
  destruct (c =? 160) eqn:E4; [repeat constructor; discriminate|].
  apply N.eqb_neq in E2, E3. repeat constructor; assumption.
Qed.

Lemma esc_safe (s : jsstring) :
  List.Forall (fun x => x <> 60 /\ x <> 62) (esc s).
Proof.
  unfold esc. induction s as [|c s IH]; [constructor|].
  cbn [List.map List.concat]. apply Forall_app. split; [apply escChar_safe|exact IH].
Qed.

Lemma esc_plain (s : jsstring) :
  List.Forall (fun c => c <> 38 /\ c <> 60 /\ c <> 62 /\ c <> 160) s ->
  esc s = s.
Proof.
  unfold esc. induction 1 as [|c s (H1 & H2 & H3 & H4) _ IH]; [reflexivity|].
  cbn [List.map List.concat]. rewrite IH. unfold escChar.
  apply N.eqb_neq in H1, H2, H3, H4. now rewrite H1, H2, H3, H4.
Qed.

Lemma startsWith_spec (p s : jsstring) :
  startsWith p s = true -> s = p ++ skipn (length p) s.
Proof.
  revert s. induction p as [|a p IH]; intros s H; [reflexivity|].
  destruct s as [|b s]; [discriminate|]. cbn [startsWith] in H.
  apply andb_true_iff in H as [E H]. apply N.eqb_eq in E. subst b.
  cbn [length skipn app]. f_equal. now apply IH.
Qed.

Lemma takeWhile_prefix (f : N -> bool) (s : jsstring) :
  firstn (length (takeWhile f s)) s = takeWhile f s
  /\ List.Forall (fun c => f c = true) (takeWhile f s).
Proof.
  induction s as [|c s [IH1 IH2]]; [split; [reflexivity|constructor]|].
  cbn [takeWhile]. destruct (f c) eqn:E.
  - cbn [length firstn]. split; [now rewrite IH1|now constructor].
  - split; [reflexivity|constructor].
Qed.

Lemma scheme_chars :
  List.Forall (fun c => urlChar c = true) (lit "http://")
  /\ List.Forall (fun c => urlChar c = true) (lit "https://").
Proof. split; repeat constructor. Qed.

Lemma matchUrl_spec (s : jsstring) (n : nat) :
  matchUrl s = Some n -> (n <= length s)%nat /\ linkOk (firstn n s).
Proof.
  unfold matchUrl.
  assert (G : forall scheme, startsWith scheme s = true ->
              List.Forall (fun c => urlChar c = true) scheme ->
              (scheme = lit "http://" \/ scheme = lit "https://") ->
              match length (takeWhile urlChar (skipn (length scheme) s)) with
              | O => None
              | S k => Some (length scheme + S k)%nat
              end = Some n ->
              (n <= length s)%nat /\ linkOk (firstn n s)).
  { intros scheme Hs Hc Hor Hn. apply startsWith_spec in Hs.
    set (rest := skipn (length scheme) s) in *.
    destruct (takeWhile_prefix urlChar rest) as [Hp Hf].
    destruct (length (takeWhile urlChar rest)) as [|k] eqn:El; [discriminate|].
    injection Hn as <-.
    assert (Hb : firstn (length scheme + S k) s
                 = scheme ++ takeWhile urlChar rest).
    { rewrite Hs at 1. rewrite firstn_app_2. now rewrite Hp. }
    split.
    - rewrite Hs at 1. rewrite length_app.
      assert (length (firstn (S k) rest) = S k)
        by (rewrite Hp; exact El).
      rewrite length_firstn in H. lia.
    - exists scheme, (takeWhile urlChar rest). split; [exact Hb|].
      split; [exact Hor|]. split.
      + intros E. rewrite E in El. discriminate.
      + rewrite Hb. apply Forall_app. split; assumption. }
  destruct scheme_chars as [C1 C2].
  destruct (startsWith (lit "http://") s) eqn:E1.
  - apply (G (lit "http://") E1 C1). now left.
  - destruct (startsWith (lit "https://") s) eqn:E2; [|discriminate].
    apply (G (lit "https://") E2 C2). now right.
Qed.

Lemma scan_plain (s : jsstring) (k : nat) :
  (k <= length s)%nat -> plain (scan s k) = skipn k s.
Proof.
  unfold plain. revert k. induction s as [|c s IH]; intros k Hk.
  - now destruct k.
  - cbn [scan]. destruct k as [|k].
    + destruct (matchUrl (c :: s)) as [[|n]|] eqn:E.
      * cbn [List.map List.concat plainSeg skipn]. rewrite IH by (cbn; lia).
        reflexivity.
      * apply matchUrl_spec in E as [Hn _]. cbn [length] in Hn.
        cbn [List.map List.concat plainSeg]. rewrite IH by lia.
        change (skipn n s) with (skipn (S n) (c :: s)).
        apply firstn_skipn.
      * cbn [List.map List.concat plainSeg skipn]. rewrite IH by (cbn; lia).
        reflexivity.
    + cbn [length] in Hk. cbn [skipn]. apply IH. lia.
Qed.

Lemma scan_segOk (s : jsstring) (k : nat) :
  List.Forall (fun x => x <> 60 /\ x <> 62) s ->
  List.Forall segOk (scan s k).
Proof.
  intros H. revert k. induction H as [|c s Hc Hs IH]; intros k; [constructor|].
  cbn [scan]. destruct k as [|k]; [|apply IH].
  destruct (matchUrl (c :: s)) as [[|n]|] eqn:E.
  - constructor; [exact Hc|apply IH].
  - apply matchUrl_spec in E as [_ Hl]. constructor; [exact Hl|apply IH].
  - constructor; [exact Hc|apply IH].
Qed.

(** X11: message text cannot inject markup.  [esc] leaves no [<] and no
    [>] in its result, and text without [&], [<], [>] and no-break space
    is returned as it is.  [linkify] applied to escaped text only wraps:
    its result is made of copied characters and anchors, such that
    taking each anchor back to its address gives the escaped text again;
    every character it copies is neither [<] nor [>]; and every address it
    wraps starts with [http://] or [https://], has at least one character
    after that, and contains no white space, [&], double quote, [<] or
    [>], so that it cannot leave the [href] attribute. *)
Theorem linkify_esc_safe (text : jsstring) :
  List.Forall (fun x => x <> 60 /\ x <> 62) (esc text)
  /\ (List.Forall (fun c => c <> 38 /\ c <> 60 /\ c <> 62 /\ c <> 160) text ->
      esc text = text)
  /\ exists pieces,
       linkify (esc text) = List.concat (List.map renderSeg pieces)
       /\ plain pieces = esc text
       /\ List.Forall segOk pieces.
Proof.
  split; [apply esc_safe|]. split; [apply esc_plain|].
  exists (scan (esc text) 0). split; [reflexivity|]. split.
  - apply (scan_plain (esc text) 0). lia.
  - apply scan_segOk, esc_safe.
Qed.

Example linkify_examples :
  esc (lit "<b>a & b</b>") = lit "&lt;b&gt;a &amp; b&lt;/b&gt;"
  /\ scan (lit "see https://x.org/a?b=1 now") 0
     = [Text 115; Text 101; Text 101; Text 32; Link (lit "https://x.org/a?b=1");
        Text 32; Text 110; Text 111; Text 119]
  /\ scan (lit "http://") 0 = List.map Text (lit "http://")
  /\ scan (esc (lit "http://a.b/?x=1&y=2")) 0
     = Link (lit "http://a.b/?x=1") :: List.map Text (lit "&amp;y=2")
  /\ scan (lit "HTTP://a.b") 0 = List.map Text (lit "HTTP://a.b").
Proof. vm_compute. repeat split. Qed.

End MarkupSpec.

(* ===================================================================== *)
(** ** The grid, the counter and the negotiation over a whole call *)
(* ===================================================================== *)

Module CallSpec.
Import JS JSFacts Video VideoSpec Call.

(** *** Connection objects only move forward *)

Lemma keepsRemote_refl (pc : PeerConn) : keepsRemote pc pc.
Proof. intros H. exact H. Qed.

Lemma keepsRemote_log (c : PcCall) (pc : PeerConn) :
  keepsRemote pc (pc_log c pc).
Proof. intros H. exact H. Qed.

Lemma keepsRemote_close (pc : PeerConn) : keepsRemote pc (pc_close pc).
Proof. intros H. exact H. Qed.

Lemma keepsRemote_setRemoteDescription (d : SDP) (pc : PeerConn) :
  keepsRemote pc (pc_setRemoteDescription d pc).
Proof.
  intros H. unfold pc_setRemoteDescription.
  destruct (pc_isClosed pc); [exact H|].
  destruct (sdp_type d); cbn; [exact H|eauto].
Qed.

Lemma keepsRemote_setLocalDescription (d : SDP) (pc : PeerConn) :
  keepsRemote pc (pc_setLocalDescription d pc).
Proof.
  intros H. unfold pc_setLocalDescription.
  destruct (pc_isClosed pc); [exact H|].
  destruct (sdp_type d); cbn; [exact H|].
  destruct (pc_pendingRemote pc); [eauto|exact H].
Qed.

Lemma heapGrows_refl (s : State) : heapGrows s s.
Proof.
  split; [lia|]. intros j.
  destruct (heap (plat s) !! j); [apply keepsRemote_refl|exact I].
Qed.

Lemma heapGrows_trans (s1 s2 s3 : State) :
  heapGrows s1 s2 -> heapGrows s2 s3 -> heapGrows s1 s3.
Proof.
  intros [N1 H1] [N2 H2]. split; [lia|]. intros j.
  specialize (H1 j). specialize (H2 j). unfold keepsRemote in *.
  destruct (heap (plat s1) !! j), (heap (plat s2) !! j),
    (heap (plat s3) !! j); try tauto; try lia.
Qed.

Lemma heapGrows_same (s s' : State) :
  heap (plat s') = heap (plat s) ->
  (nextObj (plat s) <= nextObj (plat s'))%nat ->
  heapGrows s s'.
Proof.
  intros Hh Hn. split; [exact Hn|]. intros j. rewrite Hh.
  destruct (heap (plat s) !! j); [apply keepsRemote_refl|exact I].
Qed.

Lemma heapGrows_updPc (id : nat) (f : PeerConn -> PeerConn) (s : State) :
  (forall pc, keepsRemote pc (f pc)) -> heapGrows s (updPc id f s).
Proof.
  intros Hf. split; [cbn; lia|]. intros j. unfold updPc. cbn.
  destruct (decide (id = j)) as [->|Hne].
  - rewrite lookup_alter_eq. destruct (heap (plat s) !! j); cbn; auto.
  - rewrite lookup_alter_ne by exact Hne.
    destruct (heap (plat s) !! j); [apply keepsRemote_refl|exact I].
Qed.

(** *** Callbacks of the signalling leave roster and grid alone *)

Ltac quiet_fields := split; [|split; [|split; [|split]]].

Lemma quiet_refl (s : State) : quiet s s.
Proof. quiet_fields; try reflexivity. apply heapGrows_refl. Qed.

Lemma quiet_trans (s1 s2 s3 : State) : quiet s1 s2 -> quiet s2 s3 -> quiet s1 s3.
Proof.
  intros (A1 & B1 & C1 & D1 & E1) (A2 & B2 & C2 & D2 & E2).
  quiet_fields; try congruence. exact (heapGrows_trans _ _ _ E1 E2).
Qed.

Lemma quiet_updPc (id : nat) (f : PeerConn -> PeerConn) (s : State) :
  (forall pc, keepsRemote pc (f pc)) -> quiet s (updPc id f s).
Proof.
  intros Hf. quiet_fields; try reflexivity. now apply heapGrows_updPc.
Qed.

Lemma quiet_dbWrite (o : DbOp) (s : State) : quiet s (dbWrite o s).
Proof.
  quiet_fields; try reflexivity.
  apply heapGrows_same; [reflexivity|cbn; lia].
Qed.

Lemma quiet_subscribe (p : jsstring) (e : SubEvent) (h : Handler)
    (s : State) :
  quiet s (subscribe p e h s).
Proof.
  quiet_fields; try reflexivity.
  apply heapGrows_same; [reflexivity|cbn; lia].
Qed.

Lemma quiet_iceQueues (m : gmap jsstring (list Candidate)) (s : State) :
  quiet s (on_vars (set_iceQueues m) s).
Proof.
  quiet_fields; try reflexivity.
  apply heapGrows_same; [reflexivity|cbn; lia].
Qed.

Lemma quiet_safeAddIce (id : nat) (c : Candidate) (s : State) :
  quiet s (safeAddIce id c s).
Proof. apply quiet_updPc. intros pc. apply keepsRemote_log. Qed.

Lemma quiet_flushIceQueue (l : Link) (s : State) : quiet s (flushIceQueue l s).
Proof.
  unfold flushIceQueue.
  destruct (iceQueues (vars s) !! l_peer l) as [q|];
    [|destruct (inherited (l_peer l));
      [apply quiet_refl|apply quiet_iceQueues]].
  apply (quiet_trans s (foldl (fun acc c => safeAddIce (l_pc l) c acc) s q));
    [|apply quiet_iceQueues].
  induction q as [|c q IH] in s |- *; [apply quiet_refl|].
  cbn [foldl]. apply (quiet_trans s (safeAddIce (l_pc l) c s));
    [apply quiet_safeAddIce|apply IH].
Qed.

Lemma quiet_onIceCandidate (l : Link) (c : option Candidate) (s : State) :
  quiet s (onIceCandidate l c s).
Proof. destruct c; [apply quiet_dbWrite|apply quiet_refl]. Qed.

Lemma quiet_onRemoteIce (l : Link) (c : option Candidate) (s : State) :
  quiet s (default s (onRemoteIce l c s)).
Proof.
  unfold onRemoteIce. destruct c as [c|]; [|apply quiet_refl].
  destruct (pc_remoteDescription _); [apply quiet_safeAddIce|].
  destruct (iceQueues _ !! _); [apply quiet_iceQueues|apply quiet_refl].
Qed.

Lemma quiet_offerCreated (l : Link) (o : SDP) (s : State) :
  quiet s (offerCreated l o s).
Proof.
  pose proof (quiet_updPc (l_pc l) (pc_setLocalDescription o) s
                (keepsRemote_setLocalDescription o)) as H.
  unfold offerCreated. destruct (pc_isClosed _); [exact H|].
  eapply quiet_trans; [exact H|].
  eapply quiet_trans; [apply quiet_dbWrite|apply quiet_subscribe].
Qed.

Lemma quiet_onAnswer (l : Link) (val : option SDP) (s : State) :
  quiet s (onAnswer l val s).
Proof.
  unfold onAnswer. destruct val as [d|]; [|apply quiet_refl].
  destruct (pc_currentRemoteDescription _); [apply quiet_refl|].
  pose proof (quiet_updPc (l_pc l) (pc_setRemoteDescription d) s
                (keepsRemote_setRemoteDescription d)) as H.
  destruct (pc_isClosed _); [exact H|].
  eapply quiet_trans; [exact H|apply quiet_flushIceQueue].
Qed.

Lemma quiet_onOffer (l : Link) (val : option SDP) (s : State) :
  quiet s (onOffer l val s).
Proof.
  unfold onOffer. destruct val as [d|]; [|apply quiet_refl].
  destruct (pc_currentRemoteDescription _); [apply quiet_refl|].
  pose proof (quiet_updPc (l_pc l) (pc_setRemoteDescription d) s
                (keepsRemote_setRemoteDescription d)) as H.
  destruct (pc_isClosed _); [exact H|].
  eapply quiet_trans; [exact H|].
  apply quiet_updPc. intros pc. apply keepsRemote_log.
Qed.

Lemma quiet_answerCreated (l : Link) (a : SDP) (s : State) :
  quiet s (answerCreated l a s).
Proof.
  pose proof (quiet_updPc (l_pc l) (pc_setLocalDescription a) s
                (keepsRemote_setLocalDescription a)) as H.
  unfold answerCreated. destruct (pc_isClosed _); [exact H|].
  eapply quiet_trans; [exact H|].
  eapply quiet_trans; [apply quiet_dbWrite|apply quiet_flushIceQueue].
Qed.

Lemma quiet_restartOfferCreated (l : Link) (o : SDP) (s : State) :
  quiet s (restartOfferCreated l o s).
Proof.
  unfold restartOfferCreated.
  eapply quiet_trans; [|apply quiet_dbWrite].
  apply quiet_updPc, keepsRemote_setLocalDescription.
Qed.

(** *** The grid over a call *)

Lemma In_removeTile (q : jsstring) (t : Tile) (g : list Tile) :
  In t (removeTile q g) -> In t g.
Proof.
  induction g as [|u g IH]; [auto|]. cbn [removeTile].
  destruct (isTile q u); cbn [In]; tauto.
Qed.

Lemma In_hasTile (p : jsstring) (t : Tile) (g : list Tile) :
  In t g -> tile_id t = tileId p -> hasTile p g = true.
Proof.
  intros Ht Hi. unfold hasTile. apply existsb_exists. exists t.
  split; [exact Ht|]. unfold isTile. rewrite Hi. apply str_eqb_refl.
Qed.

Lemma In_updTile (q : jsstring) (f : Tile -> Tile) (t : Tile) (g : list Tile) :
  (forall u, tile_id (f u) = tile_id u) ->
  In t (updTile q f g) -> exists u, In u g /\ tile_id t = tile_id u.
Proof.
  intros Hf. induction g as [|u g IH]; [intros []|]. cbn [updTile].
  destruct (isTile q u); cbn [In].
  - intros [<-|Ht]; [exists u; auto|exists t; auto].
  - intros [<-|Ht]; [exists u; auto|].
    destruct (IH Ht) as (v & Hv & E). exists v. auto.
Qed.

Lemma length_updTile (q : jsstring) (f : Tile -> Tile) (g : list Tile) :
  length (updTile q f g) = length g.
Proof.
  induction g as [|u g IH]; [reflexivity|]. cbn [updTile].
  destruct (isTile q u); cbn [length]; congruence.
Qed.

Lemma ownedTile_ext (s s' : State) (t t' : Tile) :
  tile_id t' = tile_id t ->
  (forall p, is_Some (peerConns (vars s) !! p) ->
             is_Some (peerConns (vars s') !! p)) ->
  ownedTile s t -> ownedTile s' t'.
Proof.
  intros Hi Hp [L|(p & Hq & E)]; [left; congruence|].
  right. exists p. split; [auto|congruence].
Qed.

Lemma heapGrows_is_Some (s s' : State) (j : nat) :
  heapGrows s s' ->
  is_Some (heap (plat s) !! j) -> is_Some (heap (plat s') !! j).
Proof.
  intros [_ E] [pc Hj]. specialize (E j). rewrite Hj in E.
  destruct (heap (plat s') !! j); [eauto|contradiction].
Qed.

(** The frame: same roster, same call, the grid changed tile by tile
    without touching an id. *)
Lemma gridInv_updTile (s s' : State) (q : jsstring) (f : Tile -> Tile) :
  (forall u, tile_id (f u) = tile_id u) ->
  peerConns (vars s') = peerConns (vars s) ->
  callRoom (vars s') = callRoom (vars s) ->
  heapGrows s s' ->
  videoGrid (page s') = updTile q f (videoGrid (page s)) ->
  callCount (page s') = callCount (page s) ->
  gridInv s -> gridInv s'.
Proof.
  intros Hf A B E C D (W & O & K). split; [|split].
  - apply (wellFormed_ext s); [exact W|exact A| | |].
    + intros j. now apply heapGrows_is_Some.
    + rewrite C, uniqueTiles_updTile by exact Hf. apply W.
    + intros p Hp. now rewrite C, hasTile_updTile.
  - intros t. rewrite C. intros Ht.
    destruct (In_updTile q f t _ Hf Ht) as (u & Hu & Ei).
    apply (ownedTile_ext s s' u t Ei); [now rewrite A|auto].
  - unfold counterInv, inCall in *. rewrite B, C, D, length_updTile.
    destruct K as [K|[K1 K2]]; [now left|right].
    split; [now rewrite K1|exact K2].
Qed.

Lemma gridInv_quiet (s s' : State) : quiet s s' -> gridInv s -> gridInv s'.
Proof.
  intros (A & B & C & D & E) (W & O & K). split; [|split].
  - apply (wellFormed_ext s); [exact W|exact A| | |].
    + intros j. now apply heapGrows_is_Some.
    + rewrite C. apply W.
    + intros p. now rewrite C.
  - intros t. rewrite C. intros Ht.
    apply (ownedTile_ext s s' t t eq_refl); [now rewrite A|auto].
  - unfold counterInv, inCall in *. now rewrite B, C, D.
Qed.

Lemma gridInv_startJoin (media : MediaStream + jsstring) (s : State) :
  gridInv s -> gridInv (startJoin media s).
Proof.
  intros (W & O & K). split; [now apply startJoin_wellFormed|].
  unfold startJoin.
  destruct (negb (db s) || negb (truthy (username s)));
    [split; [exact O|exact K]|].
  destruct media as [st|msg]; [|split; [exact O|exact K]].
  unfold addVideoTile. cbn [on_vars on_page page videoGrid].
  destruct (hasTile (lit "__local__") (videoGrid (page s))) eqn:E.
  - split; [exact O|]. left.
    destruct K as [K|[K _]]; [exact K|]. rewrite K in E. discriminate.
  - split; [|left; reflexivity].
    intros t Ht. cbn in Ht. apply in_app_iff in Ht as [Ht|[<-|[]]].
    + exact (O t Ht).
    + left. reflexivity.
Qed.

Lemma addPeerTile_page (p : jsstring) (s s0 : State) :
  page s = page s0 -> page (addPeerTile p s) = page (addPeerTile p s0).
Proof.
  intros E. unfold addPeerTile, updateCount. rewrite E.
  destruct (hasTile p (videoGrid (page s0))); [exact E|].
  cbn. now rewrite E.
Qed.

Lemma connectToPeer_page (peer room : jsstring) (init : bool) (s : State) :
  truthyAt (peerConns (vars s)) peer = false ->
  page (connectToPeer peer room init s).1 = page (addPeerTile peer s).
Proof.
  intros H. unfold connectToPeer. rewrite H. rewrite addPeerTile_vars.
  cbn [on_vars on_plat vars set_iceQueues set_peerConns localStream].
  destruct (localStream (vars s)) as [ls|].
  - rewrite (foldl_updPc nat (fun t => pc_log (AddTrack t))).
    destruct init; cbn; now apply addPeerTile_page.
  - cbn. now apply addPeerTile_page.
Qed.

Lemma connectToPeer_callRoom (peer room : jsstring) (init : bool) (s : State) :
  callRoom (vars (connectToPeer peer room init s).1) = callRoom (vars s).
Proof.
  unfold connectToPeer. destruct (truthyAt _ _); [reflexivity|].
  rewrite addPeerTile_vars.
  cbn [on_vars on_plat vars set_iceQueues set_peerConns localStream].
  destruct (localStream (vars s)) as [ls|].
  - rewrite (foldl_updPc nat (fun t => pc_log (AddTrack t))).
    destruct init; cbn; now rewrite addPeerTile_vars.
  - cbn. now rewrite addPeerTile_vars.
Qed.

Lemma gridInv_onChildAdded (key : jsstring) (s : State) :
  gridInv s -> gridInv (onChildAdded key s).1.
Proof.
  intros (W & O & K). split; [now apply onChildAdded_wellFormed|].
  unfold onChildAdded.
  destruct (str_eqb key (username s)); cbn [orb]; [split; [exact O|exact K]|].
  destruct (truthyAt (peerConns (vars s)) key) eqn:E;
    [split; [exact O|exact K]|].
  set (s' := (connectToPeer _ _ _ s).1).
  assert (Hp : page s' = page (addPeerTile key s))
    by (apply connectToPeer_page; exact E).
  assert (Hm : peerConns (vars s')
               = <[key := nextObj (plat s)]> (peerConns (vars s)))
    by (apply connectToPeer_peerConns; exact E).
  assert (Hmono : forall p, is_Some (peerConns (vars s) !! p) ->
                            is_Some (peerConns (vars s') !! p)).
  { intros p Hq. rewrite Hm. destruct (decide (key = p)) as [->|Hne].
    - rewrite lookup_insert_eq. eauto.
    - now rewrite lookup_insert_ne. }
  unfold counterInv. rewrite Hp. unfold addPeerTile, updateCount.
  destruct (hasTile key (videoGrid (page s))) eqn:Ht.
  - split.
    + intros t Hin. apply (ownedTile_ext s s' t t eq_refl Hmono). auto.
    + left. destruct K as [K|[K _]]; [exact K|].
      rewrite K in Ht. discriminate.
  - split; [|left; reflexivity].
    intros t Hin. cbn in Hin. apply in_app_iff in Hin as [Hin|[<-|[]]].
    + apply (ownedTile_ext s s' t t eq_refl Hmono). auto.
    + right. exists key. split; [|reflexivity].
      rewrite Hm, lookup_insert_eq. eauto.
Qed.

Lemma gridInv_removePeer (q : jsstring) (s : State) :
  gridInv s -> gridInv (removePeer q s).
Proof.
  intros (W & O & K). split; [now apply removePeer_wellFormed|].
  destruct (removePeerThrows q s) eqn:T;
    [rewrite (removePeer_throws q s T); split; [exact O|exact K]|].
  split.
  - intros t. rewrite removePeer_videoGrid by exact T. intros Ht.
    destruct (O t (In_removeTile _ _ _ Ht)) as [L|(p & Hp & Ei)];
      [now left|].
    right. exists p. split; [|exact Ei].
    rewrite removePeer_peerConns. destruct (decide (p = q)) as [->|Hne].
    + pose proof (In_hasTile q t _ Ht Ei) as Hq.
      rewrite removeTile_unique in Hq by apply W. discriminate.
    + rewrite lookup_delete_ne by congruence. exact Hp.
  - left. now rewrite removePeer_callCount, removePeer_videoGrid by exact T.
Qed.

Lemma watchAudioLevel_view (p : jsstring) (ok : bool) (s : State) :
  peerConns (vars (watchAudioLevel p ok s)) = peerConns (vars s)
  /\ callRoom (vars (watchAudioLevel p ok s)) = callRoom (vars s)
  /\ (nextObj (plat s) <= nextObj (plat (watchAudioLevel p ok s)))%nat.
Proof.
  unfold watchAudioLevel.
  destruct (truthyAt _ _); [repeat split; lia|].
  destruct ok; cbn; repeat split; lia.
Qed.

Lemma heapGrows_watchAudioLevel (p : jsstring) (ok : bool) (s : State) :
  heapGrows s (watchAudioLevel p ok s).
Proof.
  apply heapGrows_same; [apply watchAudioLevel_heap|].
  apply watchAudioLevel_view.
Qed.

Lemma removePeer_nextObj (p : jsstring) (s : State) :
  nextObj (plat (removePeer p s)) = nextObj (plat s).
Proof.
  unfold removePeer. destruct (removePeerThrows p s); [reflexivity|].
  destruct (peerConns (vars s) !! p) eqn:E; cbn;
    destruct (audioAnalysers (vars s) !! p); reflexivity.
Qed.

Lemma heapGrows_removePeer (p : jsstring) (s : State) :
  heapGrows s (removePeer p s).
Proof.
  split; [rewrite removePeer_nextObj; lia|]. intros j.
  rewrite removePeer_heap.
  destruct (peerConns (vars s) !! p) as [id|].
  - destruct (decide (id = j)) as [->|Hne].
    + rewrite lookup_alter_eq. destruct (heap (plat s) !! j); cbn;
        [apply keepsRemote_close|exact I].
    + rewrite lookup_alter_ne by exact Hne.
      destruct (heap (plat s) !! j); [apply keepsRemote_refl|exact I].
  - destruct (heap (plat s) !! j); [apply keepsRemote_refl|exact I].
Qed.

Lemma quiet_restart (id : nat) (s : State) :
  quiet s (updPc id (pc_log (CreateOffer true)) (updPc id (pc_log RestartIce) s)).
Proof.
  eapply quiet_trans; apply quiet_updPc; intros pc; apply keepsRemote_log.
Qed.

Lemma gridInv_onconnectionstatechange (l : Link) (st : ConnState) (ok : bool)
    (s : State) :
  gridInv s -> gridInv (onconnectionstatechange l st ok s).
Proof.
  intros H. unfold onconnectionstatechange, updateTileConnState.
  destruct st; cbv beta iota zeta; try exact H.
  - (* connected *)
    set (s1 := on_page _ s).
    destruct (watchAudioLevel_view (l_peer l) ok s1) as (A & B & N).
    apply (gridInv_updTile s _ (l_peer l)
             (fun t => mkTile (tile_id t) None (tile_video t)));
      [reflexivity|exact A|exact B| | | |exact H].
    + apply heapGrows_same;
        [exact (watchAudioLevel_heap (l_peer l) ok s1)|exact N].
    + now rewrite watchAudioLevel_page.
    + now rewrite watchAudioLevel_page.
  - (* disconnected *)
    apply (gridInv_updTile s _ (l_peer l)
             (fun t => mkTile (tile_id t) (Some LdReconnecting) (tile_video t)));
      [reflexivity|reflexivity|reflexivity| |reflexivity|reflexivity|exact H].
    apply heapGrows_same; [reflexivity|cbn; lia].
  - (* failed *)
    destruct (_ && _); [|exact H].
    exact (gridInv_quiet _ _ (quiet_restart _ _) H).
  - (* closed *)
    now apply gridInv_removePeer.
Qed.

Lemma gridInv_leaveCall (s : State) : gridInv s -> gridInv (leaveCall s).
Proof.
  intros H. destruct (inCall s) eqn:E; [|unfold leaveCall; now rewrite E].
  destruct (leaveCall_fields s E) as (Hv & _ & _ & _ & _ & Hg).
  split; [apply leaveCall_wellFormed, H|]. split.
  - intros t. rewrite Hg. intros [].
  - right. split; [exact Hg|]. unfold inCall. now rewrite Hv.
Qed.

Lemma gridInv_onTrack (l : Link) (s : State) : gridInv s -> gridInv (onTrack l s).
Proof.
  apply (gridInv_updTile s _ (l_peer l) (fun t => mkTile (tile_id t) None true));
    try reflexivity.
  apply heapGrows_same; [reflexivity|cbn; lia].
Qed.

Lemma gridInv_deliver (c : Callback) (s : State) :
  gridInv s -> gridInv (deliver c s).
Proof.
  destruct c as [e|l|l c|l c|l o|l v|l v|l a|l o]; cbn [deliver].
  - destruct e; cbn [step].
    + apply gridInv_startJoin.
    + apply gridInv_onChildAdded.
    + apply gridInv_removePeer.
    + apply gridInv_onconnectionstatechange.
    + apply gridInv_leaveCall.
  - apply gridInv_onTrack.
  - apply gridInv_quiet, quiet_onIceCandidate.
  - apply gridInv_quiet, quiet_onRemoteIce.
  - apply gridInv_quiet, quiet_offerCreated.
  - apply gridInv_quiet, quiet_onAnswer.
  - apply gridInv_quiet, quiet_onOffer.
  - apply gridInv_quiet, quiet_answerCreated.
  - apply gridInv_quiet, quiet_restartOfferCreated.
Qed.

Lemma gridInv_deliverAll (cs : list Callback) (s : State) :
  gridInv s -> gridInv (deliverAll cs s).
Proof.
  unfold deliverAll. revert s.
  induction cs as [|c cs IH]; intros s H; [exact H|].
  cbn [foldl]. apply IH. now apply gridInv_deliver.
Qed.

Lemma gridInv_loggedIn (user : jsstring) : gridInv (loggedIn user).
Proof.
  split; [apply loggedIn_wellFormed|]. split; [intros t []|left; reflexivity].
Qed.

(** X12: the grid shows the call.  After a login, whatever roster events
    and connection callbacks run, in whatever order: no two tiles carry the
    same id; every peer of the mapping of connections has a tile; every
    tile is the local one or belongs to a peer of the mapping; and while a
    call is on, the participant counter shows the number of tiles. *)
Theorem grid_shows_the_call (user : jsstring) (cbs : list Callback) :
  let s := deliverAll cbs (loggedIn user) in
  let grid := videoGrid (page s) in
  uniqueTiles grid = true
  /\ (forall p, is_Some (peerConns (vars s) !! p) -> hasTile p grid = true)
  /\ (forall t, In t grid -> ownedTile s t)
  /\ (inCall s = true -> callCount (page s) = length grid).
Proof.
  intros s grid.
  destruct (gridInv_deliverAll cbs _ (gridInv_loggedIn user))
    as ((U & W) & O & K).
  fold s in U, W, O, K. split; [exact U|]. split.
  - intros p [id Hp]. now destruct (W p id Hp).
  - split; [exact O|]. intros Hc.
    destruct K as [K|[_ K]]; [exact K|]. rewrite K in Hc. discriminate.
Qed.

(** After leaving, the counter keeps the value it had: the grid is
    cleared without a recount. *)
Example counter_after_leaving :
  let s := deliverAll [OnRoster (EvJoin (inl camera));
                       OnRoster (EvChildAdded (lit "alice"));
                       OnRoster EvLeave] (loggedIn (lit "bob")) in
  videoGrid (page s) = [] /\ callCount (page s) = 1%nat /\ inCall s = false.
Proof. vm_compute. repeat split. Qed.

(** *** A connection negotiates once *)

Lemma heapGrows_keeps (s s' : State) :
  heapGrows s s' -> freshIds s -> freshIds s' /\ keepsAll s s'.
Proof.
  intros [N E] A. split.
  - intros k [pc' Hk]. pose proof (E k) as Ek. rewrite Hk in Ek.
    destruct (heap (plat s) !! k) eqn:F; [|lia].
    assert (k < nextObj (plat s))%nat by (apply A; eauto). lia.
  - intros j pc Hj. pose proof (E j) as Ej. rewrite Hj in Ej.
    destruct (heap (plat s') !! j) as [pc'|]; [eauto|contradiction].
Qed.

Lemma heapGrows_startJoin (media : MediaStream + jsstring) (s : State) :
  heapGrows s (startJoin media s).
Proof.
  unfold startJoin.
  destruct (negb (db s) || negb (truthy (username s)));
    [apply heapGrows_same; [reflexivity|cbn; lia]|].
  destruct media as [st|msg]; [|apply heapGrows_same; [reflexivity|cbn; lia]].
  unfold addVideoTile. cbn [on_vars on_page page videoGrid].
  destruct (hasTile (lit "__local__") (videoGrid (page s)));
    (apply heapGrows_same; [reflexivity|cbn; lia]).
Qed.

Lemma heapGrows_foldl_removePeer (ps : list jsstring) (s : State) :
  heapGrows s (foldl (fun acc p => removePeer p acc) s ps).
Proof.
  revert s. induction ps as [|p ps IH]; intros s; [apply heapGrows_refl|].
  cbn [foldl]. eapply heapGrows_trans; [apply heapGrows_removePeer|apply IH].
Qed.

Lemma leaveCall_nextObj (s : State) :
  inCall s = true ->
  let s1 := foldl (fun acc p => removePeer p acc) s
              (map_to_list (peerConns (vars s))).*1 in
  nextObj (plat (leaveCall s)) = nextObj (plat s1).
Proof.
  intros H s1. unfold leaveCall. rewrite H. cbn [negb]. fold s1.
  clearbody s1.
  destruct (participantsRef (vars s1)) eqn:Hr;
    cbn [vars plat page heap stopped dbLog subs videoGrid localStream
         screenStream participantsRef callRoom username db currentRoom
         nextObj clearedIntervals closedCtx peerConns iceQueues isMuted
         isCamOff isSharing audioAnalysers on_vars on_plat on_page dbWrite
         add_stopped add_dbOp set_subs];
    rewrite Hr; reflexivity.
Qed.

Lemma heapGrows_leaveCall (s : State) : heapGrows s (leaveCall s).
Proof.
  destruct (inCall s) eqn:E;
    [|unfold leaveCall; rewrite E; apply heapGrows_refl].
  destruct (leaveCall_fields s E) as (_ & Hh & _).
  pose proof (leaveCall_nextObj s E) as Hn. cbv zeta in Hh, Hn.
  eapply heapGrows_trans; [apply heapGrows_foldl_removePeer|].
  apply heapGrows_same; [exact Hh|rewrite Hn; lia].
Qed.

Lemma heapGrows_onconnectionstatechange (l : Link) (st : ConnState)
    (ok : bool) (s : State) :
  heapGrows s (onconnectionstatechange l st ok s).
Proof.
  unfold onconnectionstatechange, updateTileConnState.
  destruct st; cbv beta iota zeta; try apply heapGrows_refl.
  - set (s1 := on_page _ s).
    apply (heapGrows_trans s s1); [|apply heapGrows_watchAudioLevel].
    apply heapGrows_same; [reflexivity|cbn; lia].
  - apply heapGrows_same; [reflexivity|cbn; lia].
  - destruct (_ && _); [|apply heapGrows_refl]. apply quiet_restart.
  - apply heapGrows_removePeer.
Qed.

Lemma connectToPeer_alloc (peer room : jsstring) (init : bool) (s : State) :
  truthyAt (peerConns (vars s)) peer = false ->
  nextObj (plat (connectToPeer peer room init s).1) = S (nextObj (plat s))
  /\ forall k, k <> nextObj (plat s) ->
       heap (plat (connectToPeer peer room init s).1) !! k
       = heap (plat s) !! k.
Proof.
  intros H. unfold connectToPeer. rewrite H. rewrite addPeerTile_vars.
  cbn [on_vars on_plat vars set_iceQueues set_peerConns localStream].
  destruct (localStream (vars s)) as [ls|].
  - rewrite (foldl_updPc nat (fun t => pc_log (AddTrack t))).
    rewrite addPeerTile_plat. cbn [on_plat plat set_heap set_nextObj heap].
    destruct init; cbn; rewrite ?addPeerTile_plat; cbn;
      (split; [reflexivity|]); intros k Hk.
    + rewrite lookup_alter_ne by congruence.
      rewrite foldl_alter_lookup_ne by congruence.
      now rewrite lookup_insert_ne by congruence.
    + rewrite foldl_alter_lookup_ne by congruence.
      now rewrite lookup_insert_ne by congruence.
  - cbn. rewrite ?addPeerTile_plat. cbn. split; [reflexivity|].
    intros k Hk. now rewrite lookup_insert_ne by congruence.
Qed.

Lemma onChildAdded_keeps (key : jsstring) (s : State) :
  freshIds s ->
  freshIds (onChildAdded key s).1 /\ keepsAll s (onChildAdded key s).1.
Proof.
  intros A. unfold onChildAdded.
  destruct (str_eqb key (username s)); cbn [orb];
    [exact (heapGrows_keeps s s (heapGrows_refl s) A)|].
  destruct (truthyAt (peerConns (vars s)) key) eqn:E;
    [exact (heapGrows_keeps s s (heapGrows_refl s) A)|].
  destruct (connectToPeer_alloc key (roomText (callRoom (vars s)))
              (amInitiator (username s) key) s E) as [Hn Hk].
  split.
  - intros k Hs. rewrite Hn.
    destruct (decide (k = nextObj (plat s))) as [->|Hne]; [lia|].
    rewrite Hk in Hs by exact Hne. specialize (A k Hs). lia.
  - intros j pc Hj. exists pc. split; [|apply keepsRemote_refl].
    rewrite Hk; [exact Hj|].
    assert (j < nextObj (plat s))%nat by (apply A; eauto). lia.
Qed.

Lemma deliver_keeps (c : Callback) (s : State) :
  freshIds s -> freshIds (deliver c s) /\ keepsAll s (deliver c s).
Proof.
  destruct c as [e|l|l c|l c|l o|l v|l v|l a|l o]; cbn [deliver].
  - destruct e; cbn [step].
    + apply heapGrows_keeps, heapGrows_startJoin.
    + apply onChildAdded_keeps.
    + apply heapGrows_keeps, heapGrows_removePeer.
    + apply heapGrows_keeps, heapGrows_onconnectionstatechange.
    + apply heapGrows_keeps, heapGrows_leaveCall.
  - apply heapGrows_keeps, heapGrows_same; [reflexivity|cbn; lia].
  - apply heapGrows_keeps, quiet_onIceCandidate.
  - apply heapGrows_keeps, quiet_onRemoteIce.
  - apply heapGrows_keeps, quiet_offerCreated.
  - apply heapGrows_keeps, quiet_onAnswer.
  - apply heapGrows_keeps, quiet_onOffer.
  - apply heapGrows_keeps, quiet_answerCreated.
  - apply heapGrows_keeps, quiet_restartOfferCreated.
Qed.

Lemma deliverAll_keeps (cs : list Callback) (s : State) :
  freshIds s -> freshIds (deliverAll cs s) /\ keepsAll s (deliverAll cs s).
Proof.
  unfold deliverAll. revert s.
  induction cs as [|c cs IH]; intros s A.
  - split; [exact A|]. intros j pc Hj. exists pc.
    split; [exact Hj|apply keepsRemote_refl].
  - cbn [foldl]. destruct (deliver_keeps c s A) as [A1 K1].
    destruct (IH _ A1) as [A2 K2]. split; [exact A2|].
    intros j pc Hj. destruct (K1 j pc Hj) as (pc1 & H1 & R1).
    destruct (K2 j pc1 H1) as (pc2 & H2 & R2).
    exists pc2. split; [exact H2|]. intros H. auto.
Qed.

Lemma freshIds_loggedIn (user : jsstring) : freshIds (loggedIn user).
Proof. intros k [pc H]. discriminate. Qed.

(** X13: a connection negotiates once.  Once a connection has a
    negotiated remote description ([currentRemoteDescription]), it keeps
    one whatever runs afterwards, and both listeners of the exchange
    return at their guard: an offer published later, such as the one of an
    ICE restart, is not answered, and a later answer is not applied. *)
Theorem negotiates_once (user : jsstring) (before after : list Callback)
    (l : Link) (pc : PeerConn) :
  let s0 := deliverAll before (loggedIn user) in
  heap (plat s0) !! l_pc l = Some pc ->
  is_Some (pc_currentRemoteDescription pc) ->
  let s := deliverAll after s0 in
  (exists pc', heap (plat s) !! l_pc l = Some pc'
               /\ is_Some (pc_currentRemoteDescription pc'))
  /\ (forall val, onOffer l val s = s)
  /\ (forall val, onAnswer l val s = s).
Proof.
  intros s0 Hh Hc s.
  destruct (deliverAll_keeps before _ (freshIds_loggedIn user)) as [A0 _].
  destruct (deliverAll_keeps after _ A0) as [_ K].
  destruct (K _ _ Hh) as (pc' & Hh' & R). fold s0 s in Hh'.
  pose proof (R Hc) as [d Hd].
  split; [exists pc'; split; [exact Hh'|eauto]|].
  split; intros [v|]; try reflexivity.
  - unfold onOffer. now rewrite (getPc_Some _ _ _ Hh'), Hd.
  - unfold onAnswer. now rewrite (getPc_Some _ _ _ Hh'), Hd.
Qed.

(** The theorem at work: [bob] has the answer of [alice]; the connection
    fails and [bob] publishes the offer of an ICE restart; a further answer
    is not applied. *)
Lemma negotiates_once_witness :
  let s := deliverAll [OnRoster (EvConnState aliceLink CsFailed true);
                       OnRestartOffer aliceLink restartOffer1]
             (deliverAll bobNegotiated (loggedIn (lit "bob"))) in
  (forall val, onOffer aliceLink val s = s)
  /\ (forall val, onAnswer aliceLink val s = s).
Proof.
  intros s.
  destruct (negotiates_once (lit "bob") bobNegotiated
              [OnRoster (EvConnState aliceLink CsFailed true);
               OnRestartOffer aliceLink restartOffer1]
              aliceLink
              (getPc 0 (deliverAll bobNegotiated (loggedIn (lit "bob")))))
    as (_ & H1 & H2).
  - vm_compute. reflexivity.
  - vm_compute. eauto.
  - split; [exact H1|exact H2].
Defined.

(** *** A candidate that arrives after its peer was removed *)

Lemma connectToPeer_iceQueues (peer room : jsstring) (init : bool)
    (s : State) :
  truthyAt (peerConns (vars s)) peer = false ->
  iceQueues (vars (connectToPeer peer room init s).1)
  = <[peer := []]> (iceQueues (vars s)).
Proof.
  intros H. unfold connectToPeer. rewrite H. rewrite addPeerTile_vars.
  cbn [on_vars on_plat vars set_iceQueues set_peerConns localStream].
  destruct (localStream (vars s)) as [ls|].
  - rewrite (foldl_updPc nat (fun t => pc_log (AddTrack t))).
    destruct init; cbn; now rewrite addPeerTile_vars.
  - cbn. now rewrite addPeerTile_vars.
Qed.

(** X14: [removePeer] closes the connection of the peer and deletes its
    queue, and detaches no listener: the listener of the remote candidates
    of the closed connection stays installed.  A candidate that arrives
    right after the removal is not queued: when the connection had a remote
    description the candidate is handed to the closed connection, and
    nothing else changes; when it had none, the listener stops on the
    [TypeError] of pushing to the deleted queue.  This lasts only as long
    as the peer has no new connection: once the peer is back in the roster,
    [connectToPeer] gives it a new connection and a new, empty queue under
    the same name, and a candidate that reaches the listener of the closed
    connection, which never had a remote description, is appended to the
    queue of the new connection. *)
Theorem late_candidate_after_removal (l : Link) (c : Candidate) (s : State)
    (pc : PeerConn) :
  peerConns (vars s) !! l_peer l = Some (l_pc l) ->
  heap (plat s) !! l_pc l = Some pc ->
  let s' := removePeer (l_peer l) s in
  subs (plat s') = subs (plat s)
  /\ iceQueues (vars s') !! l_peer l = None
  /\ (pc_remoteDescription pc = None -> onRemoteIce l (Some c) s' = None)
  /\ (is_Some (pc_remoteDescription pc) ->
      onRemoteIce l (Some c) s' = Some (safeAddIce (l_pc l) c s')
      /\ vars (safeAddIce (l_pc l) c s') = vars s'
      /\ page (safeAddIce (l_pc l) c s') = page s'
      /\ heap (plat (safeAddIce (l_pc l) c s')) !! l_pc l
         = Some (pc_log (AddIceCandidate c) (pc_close pc))
      /\ pc_isClosed (pc_log (AddIceCandidate c) (pc_close pc)) = true)
  /\ (pc_remoteDescription pc = None ->
      inherited (l_peer l) = false ->
      l_peer l <> username s ->
      (l_pc l < nextObj (plat s))%nat ->
      let s2 := (onChildAdded (l_peer l) s').1 in
      peerConns (vars s2) !! l_peer l = Some (nextObj (plat s))
      /\ iceQueues (vars s2) !! l_peer l = Some []
      /\ onRemoteIce l (Some c) s2
         = Some (on_vars (set_iceQueues
                            (<[l_peer l := [c]]> (iceQueues (vars s2)))) s2)).
Proof.
  intros Hp Hh s'.
  assert (T : removePeerThrows (l_peer l) s = false)
    by (apply removePeerThrows_own; eauto).
  assert (Hq : iceQueues (vars s') !! l_peer l = None)
    by (subst s'; now rewrite removePeer_iceQueues, lookup_delete_eq).
  assert (Hh' : heap (plat s') !! l_pc l = Some (pc_close pc))
    by (subst s'; now rewrite removePeer_heap, Hp, lookup_alter_eq, Hh).
  assert (Hc : peerConns (vars s') !! l_peer l = None)
    by (subst s'; now rewrite removePeer_peerConns, lookup_delete_eq).
  assert (Hn : nextObj (plat s') = nextObj (plat s))
    by (subst s'; apply removePeer_nextObj).
  destruct (removePeer_sameSession (l_peer l) s)
    as (_ & Hu & _ & _ & _ & _ & _ & _ & _ & Hs & _).
  fold s' in Hu, Hs. clearbody s'.
  split; [exact Hs|]. split; [exact Hq|]. split; [|split].
  - intros Hr. unfold onRemoteIce. rewrite (getPc_Some _ _ _ Hh').
    change (pc_remoteDescription (pc_close pc)) with (pc_remoteDescription pc).
    now rewrite Hr, Hq.
  - intros [d Hd]. unfold onRemoteIce. rewrite (getPc_Some _ _ _ Hh').
    change (pc_remoteDescription (pc_close pc)) with (pc_remoteDescription pc).
    rewrite Hd. split; [reflexivity|].
    split; [reflexivity|]. split; [reflexivity|]. split; [|reflexivity].
    unfold safeAddIce, updPc. cbn. now rewrite lookup_alter_eq, Hh'.
  - intros Hr Hi Hne Hlt s2.
    assert (G : truthyAt (peerConns (vars s')) (l_peer l) = false)
      by (apply truthyAt_false; split; [exact Hc|exact Hi]).
    assert (E2 : s2 = (connectToPeer (l_peer l) (roomText (callRoom (vars s')))
                         (amInitiator (username s') (l_peer l)) s').1).
    { subst s2. unfold onChildAdded. rewrite G, Hu.
      apply str_eqb_neq in Hne. now rewrite Hne. }
    clearbody s2. subst s2.
    destruct (connectToPeer_alloc (l_peer l) (roomText (callRoom (vars s')))
                (amInitiator (username s') (l_peer l)) s' G) as [_ Hk].
    rewrite connectToPeer_peerConns, connectToPeer_iceQueues by exact G.
    rewrite !lookup_insert_eq, Hn. split; [reflexivity|].
    split; [reflexivity|]. unfold onRemoteIce.
    assert (Hh2 : heap (plat (connectToPeer (l_peer l)
                                (roomText (callRoom (vars s')))
                                (amInitiator (username s') (l_peer l)) s').1)
                  !! l_pc l = Some (pc_close pc))
      by (rewrite Hk by lia; exact Hh').
    rewrite (getPc_Some _ _ _ Hh2).
    change (pc_remoteDescription (pc_close pc)) with (pc_remoteDescription pc).
    rewrite Hr, connectToPeer_iceQueues by exact G.
    now rewrite lookup_insert_eq.
Qed.

(** The theorem at work.  [bob] removes [alice] before any description
    arrived: a candidate of hers that comes in then stops the listener.
    [alice] comes back: a candidate that reaches the listener of her first
    connection lands in the queue of her second one. *)
Lemma late_candidate_after_removal_witness :
  let s' := removePeer (lit "alice") bobWithAlice in
  let s2 := (onChildAdded (lit "alice") s').1 in
  onRemoteIce aliceLink (Some cand1) s' = None
  /\ peerConns (vars s2) !! lit "alice" = Some 1%nat
  /\ onRemoteIce aliceLink (Some cand1) s2
     = Some (on_vars (set_iceQueues
                        (<[lit "alice" := [cand1]]> (iceQueues (vars s2)))) s2).
Proof.
  intros s' s2.
  destruct (late_candidate_after_removal aliceLink cand1 bobWithAlice freshPc)
    as (_ & _ & H2 & _ & H4).
  - vm_compute. reflexivity.
  - vm_compute. reflexivity.
  - split; [apply H2; reflexivity|].
    destruct H4 as (A & _ & B).
    + reflexivity.
    + vm_compute. reflexivity.
    + intros E. vm_compute in E. discriminate.
    + vm_compute. lia.
    + split; [exact A|exact B].
Defined.

End CallSpec.

(* ===================================================================== *)
(** ** What is sent is shown *)
(* ===================================================================== *)

Module SendSpec.
Import JS JSFacts Messages Send.

Section Echo.
Variable fmtDate : Z -> Z -> jsstring.

Lemma bucketSet_In (key : jsstring) (n : Node) (b : Bucket) :
  In (key, n) (bucketSet key n b).
Proof.
  induction b as [|[k v] b IH]; [now left|]. cbn [bucketSet].
  destruct (str_eqb k key) eqn:E.
  - apply str_eqb_eq in E. subst k. now left.
  - now right.
Qed.

Lemma bucketSet_from (key : jsstring) (n : Node) (b : Bucket)
    (e : jsstring * Node) :
  In e (bucketSet key n b) -> e = (key, n) \/ In e b.
Proof.
  induction b as [|[k v] b IH]; cbn [bucketSet].
  - intros [<-|[]]. now left.
  - destruct (str_eqb k key) eqn:E.
    + apply str_eqb_eq in E. subst k. intros [<-|H]; [now left|].
      right. now right.
    + intros [<-|H]; [right; now left|].
      destruct (IH H) as [->|H']; [now left|right; now right].
Qed.

Lemma renderMessages_shows (now : Z) (key : jsstring) (m : Msg) (b : Bucket) :
  key <> PROTO ->
  valid (Authored m) = true ->
  (forall k n, In (k, n) b -> valid n = true -> isAuthored n = true) ->
  In m (msgsOf (renderMessages fmtDate now (objSet key (Authored m) b))).
Proof.
  intros Hk Hv Hau. unfold renderMessages, objSet.
  apply str_eqb_neq in Hk. rewrite Hk.
  rewrite MessagesSpec.msgsOf_rowsOrPlaceholder.
  set (b' := bucketSet key (Authored m) b).
  set (cands := List.filter valid (objectValues b')).
  assert (Hin : forall n, In n cands -> exists k, In (k, n) b').
  { intros n Hn. apply List.filter_In in Hn as [Hn _].
    apply (Permutation_in n (MessagesSpec.objectValues_perm b')) in Hn.
    apply in_map_iff in Hn as ([k n'] & <- & He). now exists k. }
  assert (Hall : forall n, In n (sortTs n_ts cands) -> isAuthored n = true).
  { intros n Hn.
    apply (Permutation_in n (MessagesSpec.sortTs_perm n_ts cands)) in Hn.
    destruct (Hin n Hn) as [k He].
    apply List.filter_In in Hn as [_ Hvn].
    apply bucketSet_from in He as [[= _ ->]|He]; [reflexivity|].
    exact (Hau k n He Hvn). }
  assert (Hm : In (Authored m) (sortTs n_ts cands)).
  { apply (Permutation_in _
             (Permutation_sym (MessagesSpec.sortTs_perm n_ts cands))).
    apply List.filter_In. split; [|exact Hv].
    apply (Permutation_in _
             (Permutation_sym (MessagesSpec.objectValues_perm b'))).
    apply (in_map snd _ (key, Authored m)), bucketSet_In. }
  rewrite <- (MessagesSpec.authoredPrefix_all _ Hall) in Hm.
  apply in_map_iff in Hm as (m' & [= ->] & Hm). exact Hm.
Qed.

(** X15: sending.  In both variants nothing is written and the input
    field keeps its value when the text is blank after trimming or no room
    is entered (and, in the Firebase variant, when the database is not
    set up).  Otherwise the field is emptied and one node goes to the
    current room, with the trimmed text, the session username as author
    and the time given; in the Gun variant its key is the clock in base
    36 followed by the random suffix.  When that node comes back through
    the listener of the room, with a time that is not zero and at any
    later reading of the clock, the pane shows it.  In the Gun variant it
    is among the rows of the new render, provided the name of the room is
    not one that every object inherits and every valid node of the bucket
    has an author (a node without author stops the render at its row).
    In the Firebase variant, for a handler whose cache is a [Map], it is
    the last row appended. *)
Theorem sent_message_is_shown (now : Z) (rand keyFb input : jsstring)
    (c : Chat) (f : Firebase.State) (st : Bucket * list Row) :
  let room := Gun.currentRoom (app c) in
  let key := toString36 now ++ rand in
  let m := mkMsg (trim input) (Gun.username (app c)) now in
  let mf := mkMsg (trim input) (Firebase.username f) now in
  (trim input = [] \/ room = [] ->
   sendMessage now rand input (app c) = mkOutcome input false None)
  /\ (trim input = [] \/ Firebase.currentRoom f = [] \/ Firebase.db f = false ->
      sendMessageFb now keyFb input f = mkOutcome input false None)
  /\ (trim input <> [] -> room <> [] ->
      sendMessage now rand input (app c)
        = mkOutcome [] false (Some (mkSent room key m))
      /\ (now <> 0%Z ->
          inherited room = false ->
          (forall k n, In (k, n) (bucketOf room c) -> valid n = true ->
                       isAuthored n = true) ->
          forall t, exists c',
            onMessage fmtDate t room key (Some (Authored m)) c = Some c'
            /\ In m (msgsOf (container c'))))
  /\ (trim input <> [] -> Firebase.currentRoom f <> [] ->
      Firebase.db f = true ->
      sendMessageFb now keyFb input f
        = mkOutcome [] true (Some (mkSent (Firebase.currentRoom f) keyFb mf))
      /\ (now <> 0%Z ->
          forall t, exists rows g,
            snd (onChildAdded fmtDate t keyFb (Some (Authored mf)) st)
            = rows ++ [MsgRow mf g]
            /\ In (keyFb, Authored mf)
                 (fst (onChildAdded fmtDate t keyFb (Some (Authored mf)) st)))).
Proof.
  intros room key m mf. unfold sendMessage, sendMessageFb. fold room.
  split; [|split; [|split]].
  - intros [H|H]; apply truthy_false in H; rewrite H; cbn [negb orb];
      [reflexivity|now rewrite orb_true_r].
  - intros [H|[H|H]]; [apply truthy_false in H..|]; rewrite H;
      cbn [negb orb]; rewrite ?orb_true_r; reflexivity.
  - intros Ht Hr. apply truthy_true in Ht, Hr. rewrite Ht, Hr. cbn [negb orb].
    split; [reflexivity|]. intros Hn Hp Hau t.
    assert (Hv : valid (Authored m) = true).
    { unfold valid. cbn [n_text n_ts m_text m_ts m]. rewrite Ht.
      now apply Z.eqb_neq in Hn as ->. }
    unfold onMessage. rewrite Hv. cbn [negb].
    destruct (MessagesSpec.reach_plain room (messages c) Hp)
      as (msgs & -> & Hb & _).
    eexists. split; [reflexivity|]. cbn [container app].
    fold room. rewrite str_eqb_refl, lookup_insert_eq. cbn [default].
    apply renderMessages_shows; [apply toString36_not_proto|exact Hv|].
    rewrite Hb. exact Hau.
  - intros Ht Hr Hd. apply truthy_true in Ht, Hr. rewrite Ht, Hr, Hd.
    cbn [negb orb]. split; [reflexivity|]. intros Hn t.
    assert (Hv : valid (Authored mf) = true).
    { unfold valid. cbn [n_text n_ts m_text m_ts mf]. rewrite Ht.
      now apply Z.eqb_neq in Hn as ->. }
    unfold onChildAdded. rewrite Hv. cbn [negb fst snd].
    unfold appendMessage. eexists _, _. split.
    + rewrite app_assoc. reflexivity.
    + apply bucketSet_In.
Qed.

End Echo.

Example sendMessage_examples :
  sendMessage 1700000000000 (lit "k3x9q") (lit "  hi  ")
    (Gun.set_currentRoom (lit "general")
       (Gun.set_username (lit "bob") Gun.init))
  = mkOutcome [] false
      (Some (mkSent (lit "general") (lit "loyw3v28k3x9q")
               (mkMsg (lit "hi") (lit "bob") 1700000000000)))
  /\ sendMessage 5 (lit "k") (lit "   ") (Gun.set_currentRoom (lit "general")
                                          (Gun.set_username (lit "bob") Gun.init))
     = mkOutcome (lit "   ") false None.
Proof. vm_compute. split; reflexivity. Qed.

(** The condition on the bucket cannot be dropped: with a node without
    author and an earlier time stamp in the bucket, the message that comes
    back is cached and the render stops before its row. *)
Example sent_message_hidden_by_anonymous_node :
  let c := mkChat (Gun.set_currentRoom (lit "general")
                     (Gun.set_username (lit "bob") Gun.init))
             (<[lit "general" := [(lit "k0", stray)]]> ∅)
             [DayDivider (lit "Today")] true in
  let m := mkMsg (lit "hi") (lit "bob") 1000 in
  exists c',
    onMessage relDay 2000 (lit "general") (toString36 1000 ++ lit "k3x9q")
      (Some (Authored m)) c = Some c'
    /\ In (toString36 1000 ++ lit "k3x9q", Authored m)
         (bucketOf (lit "general") c')
    /\ container c' = [DayDivider (lit "Today")].
Proof. eexists. vm_compute. repeat split. right. left. reflexivity. Qed.

End SendSpec.

(* ===================================================================== *)
(** ** A renamed user after a reconnection *)
(* ===================================================================== *)

Module FbPresenceSpec.
Import JS JSFacts Firebase FbPresence.

Lemma filter_perm (A : Type) (f : A -> bool) (l l' : list A) :
  Permutation l l' -> Permutation (List.filter f l) (List.filter f l').
Proof.
  induction 1 as [|x l l' _ IH|x y l|l l' l'' _ IH1 _ IH2]; cbn [List.filter].
  - reflexivity.
  - destruct (f x); [now constructor|exact IH].
  - destruct (f x), (f y); try reflexivity. apply perm_swap.
  - now rewrite IH1.
Qed.

Lemma listeners_run (now : Z) (refs : list jsstring) (l : Live) :
  let l' := foldl (fun acc ref => connectedListener now ref acc) l refs in
  username (fb l') = username (fb l)
  /\ presenceRefs (fb l') = presenceRefs (fb l)
  /\ armed l' = armed l ++ refs
  /\ (forall ref, ref ∈ refs ->
        presence (fb l') !! ref = Some (mkPresence (username (fb l)) true now))
  /\ (forall k, k ∉ refs -> presence (fb l') !! k = presence (fb l) !! k).
Proof.
  revert l. induction refs as [|r refs IH]; intros l; cbn [foldl].
  - cbv zeta. rewrite app_nil_r. repeat split; auto.
    intros ref H. now apply elem_of_nil in H.
  - destruct (IH (connectedListener now r l)) as (H1 & H2 & H3 & H4 & H5).
    cbv zeta. split; [exact H1|]. split; [exact H2|]. split.
    + rewrite H3. cbn. now rewrite <- app_assoc.
    + split.
      * intros ref Hin. destruct (decide (ref ∈ refs)) as [Hr|Hr].
        { exact (H4 ref Hr). }
        apply elem_of_cons in Hin as [->|Hin]; [|contradiction].
        rewrite (H5 r Hr). cbn. now rewrite lookup_insert_eq.
      * intros k Hk. apply not_elem_of_cons in Hk as [Hk1 Hk2].
        rewrite (H5 k Hk2). cbn. now rewrite lookup_insert_ne.
Qed.

Lemma changeName_refs (hashKey : jsstring -> jsstring) (env : Env)
    (nn : jsstring) (key : option jsstring) (s : State) :
  let s1 := changeName hashKey env (Some nn) key s in
  username s1 = username s
  \/ (username s1 = sanitizeName nn
      /\ presenceRefs s1 = presenceRefs s ++ [sanitizeName nn]).
Proof.
  cbv zeta. unfold changeName.
  destruct (truthy nn); cbn [negb]; [|now left].
  destruct (truthy (sanitizeName nn)); cbn [negb orb]; [|now left].
  destruct (str_eqb _ _); [now left|].
  destruct key as [k|]; [|now left].
  destruct (truthy k); cbn [negb]; [|now left].
  destruct (e_hash_err env); [now left|].
  destruct (e_get_err env); [now left|].
  match goal with |- context [?m !! ?k] => destruct (m !! k) end.
  - destruct (str_eqb _ _); cbn [negb]; [|now left].
    right. split; reflexivity.
  - destruct (e_set_err env); [now left|].
    right. split; reflexivity.
Qed.

Lemma two_online_nodes (data : gmap jsstring Presence) (a b : jsstring)
    (v : Presence) :
  a <> b ->
  data !! a = Some v -> data !! b = Some v ->
  p_online v = true -> p_username v <> [] ->
  exists rest,
    Permutation (renderOnlineUsers data).1
      (p_username v :: p_username v :: rest).
Proof.
  intros Hab Ha Hb Ho Hu.
  assert (Hb' : delete a data !! b = Some v)
    by now rewrite lookup_delete_ne.
  pose proof (map_to_list_delete data a v Ha) as P1.
  pose proof (map_to_list_delete (delete a data) b v Hb') as P2.
  assert (P : Permutation (map_to_list data)
                ((a, v) :: (b, v) :: map_to_list (delete b (delete a data)))).
  { rewrite <- P1. constructor. now rewrite <- P2. }
  unfold renderOnlineUsers, onlineNodes. cbn [fst].
  assert (Hf : p_online v && truthy (p_username v) = true)
    by (rewrite Ho; now apply truthy_true).
  eexists. etransitivity.
  - apply Permutation_map, filter_perm.
    exact (fmap_Permutation snd _ _ P).
  - cbn [fmap list_fmap snd List.filter]. rewrite Hf. cbn [List.map].
    reflexivity.
Qed.

(** X16: a rename leaves the old presence listener in place.  After a
    rename that went through, when the connection comes up again, the
    listener of the old name and the one of the new name both write a node
    that is online and carries the new username, one under each name, and
    both are armed for the next disconnection; [renderOnlineUsers] then
    lists the new name twice.  When the value of [.info/connected] is
    false nothing is written. *)
Theorem rename_then_reconnect (hashKey : jsstring -> jsstring) (env : Env)
    (nn : jsstring) (key : option jsstring) (now : Z) (s : State)
    (pending : list jsstring) :
  let s1 := changeName hashKey env (Some nn) key s in
  username s1 <> username s ->
  username s ∈ presenceRefs s ->
  let l2 := onConnected now true (mkLive s1 pending) in
  let node := mkPresence (username s1) true now in
  presence (fb l2) !! username s = Some node
  /\ presence (fb l2) !! username s1 = Some node
  /\ armed l2 = pending ++ presenceRefs s ++ [username s1]
  /\ (exists rest,
        Permutation (renderOnlineUsers (presence (fb l2))).1
          (username s1 :: username s1 :: rest))
  /\ onConnected now false (mkLive s1 pending) = mkLive s1 pending.
Proof.
  intros s1 Hne Hold l2 node.
  destruct (changeName_refs hashKey env nn key s) as [E|[E R]];
    fold s1 in E |- *; [contradiction|]. fold s1 in R.
  assert (Hclean : username s1 <> []).
  { destruct (LoginSpec.fb_changeName_username hashKey env nn key s)
      as [F|[F G]]; fold s1 in F |- *; [contradiction|].
    fold s1 in G. now rewrite G. }
  destruct (listeners_run now (presenceRefs s1) (mkLive s1 pending))
    as (_ & _ & H3 & H4 & _). cbn [fb armed] in H3, H4.
  assert (A : presence (fb l2) !! username s = Some node).
  { apply H4. rewrite R. apply elem_of_app. now left. }
  assert (B : presence (fb l2) !! username s1 = Some node).
  { apply H4. rewrite R, E. apply elem_of_app. right.
    apply list_elem_of_here. }
  split; [exact A|]. split; [exact B|]. split.
  - subst l2. unfold onConnected. cbn [negb fb]. rewrite H3, R, E.
    reflexivity.
  - split; [|reflexivity].
    apply (two_online_nodes _ (username s) (username s1) node);
      [congruence|exact A|exact B|reflexivity|exact Hclean].
Qed.

(** The theorem at work: [bob] renames himself [rob] and the connection
    comes back. *)
Lemma rename_then_reconnect_witness :
  let s1 := changeName demoDigest demoEnv (Some (lit "rob")) (Some (lit "k"))
              bobLoggedIn in
  let l2 := onConnected 7000 true (mkLive s1 []) in
  presence (fb l2) !! lit "bob" = Some (mkPresence (lit "rob") true 7000)
  /\ presence (fb l2) !! lit "rob" = Some (mkPresence (lit "rob") true 7000).
Proof.
  intros s1 l2.
  destruct (rename_then_reconnect demoDigest demoEnv (lit "rob")
              (Some (lit "k")) 7000 bobLoggedIn [])
    as (H1 & H2 & _).
  - vm_compute. discriminate.
  - apply (bool_decide_unpack _). vm_compute. exact I.
  - split; [exact H1|exact H2].
Defined.

End FbPresenceSpec.
